(** * build_db: ingestion of legal-process PDFs into the case database

    A shallow embedding of [build_db.py] and the properties of its
    parser, text extractor, pipeline and persister.

    Python [str] values are sequences of Unicode code points; they are
    modelled as lists of [N].  The tables of the Python runtime that the
    code consults ([str.isspace], the line boundaries of
    [str.splitlines], the decimal-digit and alphanumeric classes behind
    [\d] and [\w]) are not part of the repository: the first two are
    small and written out, the last two are taken as parameters. *)

From Stdlib Require Import NArith ZArith Ascii String Lia Sorted.
From stdpp Require Import base list gmap.

Local Open Scope N_scope.
Local Open Scope nat_scope.

(** ** Strings *)

Definition char := N.
Abbreviation str := (list char).

Fixpoint str_of (s : string) : str :=
  match s with
  | EmptyString => []
  | String a s' => N_of_ascii a :: str_of s'
  end.

Definition LF : char := 10%N.
Definition CR : char := 13%N.

(** [str.isspace] for one code point (CPython's [_PyUnicode_IsWhitespace]). *)
Definition isspace (c : char) : bool :=
  ((9 <=? c) && (c <=? 13) || (28 <=? c) && (c <=? 32)
   || (c =? 133) || (c =? 160) || (c =? 5760)
   || (8192 <=? c) && (c <=? 8202)
   || (c =? 8232) || (c =? 8233) || (c =? 8239) || (c =? 8287)
   || (c =? 12288))%N.

(** Line boundaries of [str.splitlines] (CPython's [_PyUnicode_IsLinebreak]). *)
Definition islinebreak (c : char) : bool :=
  ((10 <=? c) && (c <=? 13) || (28 <=? c) && (c <=? 30)
   || (c =? 133) || (c =? 8232) || (c =? 8233))%N.

Fixpoint lstrip (s : str) : str :=
  match s with
  | [] => []
  | c :: s' => if isspace c then lstrip s' else s
  end.

Definition rstrip (s : str) : str := rev (lstrip (rev s)).

(** [s.strip()] *)
Definition strip (s : str) : str := rstrip (lstrip s).

(** [s.splitlines()]: a [\r\n] pair is one boundary, and a final
    boundary does not open an empty last line. *)
Fixpoint splitlines (s : str) : list str :=
  match s with
  | [] => []
  | c :: s' =>
      if islinebreak c then
        [] :: match s' with
              | d :: s'' => if ((c =? CR) && (d =? LF))%N then splitlines s''
                            else splitlines s'
              | [] => []
              end
      else match splitlines s' with
           | [] => [[c]]
           | l :: ls => (c :: l) :: ls
           end
  end.

(** [text[a:b]] for [a <= b] *)
Definition substr (text : str) (a b : nat) : str := take (b - a) (drop a text).

(** ** Exceptions

    [PdfTextExtractionError] derives from [BuildDbError]; the other
    classes are those of the standard library that reach this code.  A
    [raise ... from exc] keeps the class of [exc] as the cause. *)

Inductive exn_class :=
  | BuildDbError
  | PdfTextExtractionError
  | FileNotFoundError
  | CalledProcessError
  | OSError
  | SqliteError.

Record exn := Exn {
  exn_kind : exn_class;
  exn_message : str;
  exn_cause : option exn_class
}.

#[global] Instance exn_class_eq_dec : EqDecision exn_class.
Proof. solve_decision. Defined.

(** [isinstance(e, BuildDbError)], the test of the [except] clause of the
    command-line entry point. *)
Definition is_build_db_error (e : exn) : bool :=
  match exn_kind e with
  | BuildDbError | PdfTextExtractionError => true
  | _ => false
  end.

Inductive result (A : Type) :=
  | Ok (a : A)
  | Raise (e : exn).
Arguments Ok {A} a.
Arguments Raise {A} e.

(** ** The regular-expression engine

    The two module-level patterns and the local fallback pattern use only
    greedy repetitions of a single character set, the anchors [^] and [$]
    in [MULTILINE] mode, the word boundary [\b] and capture groups.  The
    matcher below is the backtracking matcher of [re] restricted to that
    fragment: a repetition first takes as many characters as it can and
    gives them back one at a time while the rest of the pattern fails. *)

Module Re.

Inductive cset :=
  | Digit               (* \d *)
  | Space               (* \s *)
  | Dot                 (* .  (no DOTALL: anything but a line feed) *)
  | Lit (c : char).     (* a literal character *)

Inductive node :=
  | Rep (cs : cset) (lo : nat) (hi : option nat)   (* cs{lo,hi}, greedy *)
  | AtBol                                          (* ^ under MULTILINE *)
  | AtEol                                          (* $ under MULTILINE *)
  | AtBoundary                                     (* \b *)
  | GOpen (g : nat)
  | GClose (g : nat).

Abbreviation regex := (list node).

(** A position in the subject: its offset, the character before it and
    the characters from it on. *)
Record cursor := Cursor {
  pos : nat;
  prev : option char;
  rest : str
}.

Record captures := Captures {
  starts : list (nat * nat);
  ends : list (nat * nat)
}.

Definition no_captures : captures := Captures [] [].

Fixpoint assoc (g : nat) (l : list (nat * nat)) : option nat :=
  match l with
  | [] => None
  | (k, v) :: l' => if Nat.eqb k g then Some v else assoc g l'
  end.

(** A match object: the span of the whole match and the group marks. *)
Record match_obj := Match {
  m_start : nat;
  m_end : nat;
  m_caps : captures
}.

Section Engine.

(** [Py_UNICODE_ISDECIMAL] and [Py_UNICODE_ISALNUM] of the runtime. *)
Variable isdecimal : char -> bool.
Variable isalnum : char -> bool.

Definition isword (c : char) : bool := isalnum c || (c =? 95)%N.

Definition in_cset (cs : cset) (c : char) : bool :=
  match cs with
  | Digit => isdecimal c
  | Space => isspace c
  | Dot => negb (c =? LF)%N
  | Lit d => (c =? d)%N
  end.

(** Number of leading characters of [s] in [cs], at most [hi]. *)
Fixpoint run (cs : cset) (hi : option nat) (s : str) : nat :=
  match hi with
  | Some 0 => 0
  | _ =>
      match s with
      | [] => 0
      | c :: s' =>
          if in_cset cs c then S (run cs (pred <$> hi) s') else 0
      end
  end.

(** First success of [f] on [n], [n-1], ..., [lo]. *)
Fixpoint first_down {A} (f : nat -> option A) (lo n : nat) : option A :=
  if n <? lo then None
  else match f n with
       | Some x => Some x
       | None => match n with
                 | 0 => None
                 | S m => first_down f lo m
                 end
       end.

Definition advance (k : nat) (c : cursor) : cursor :=
  match k with
  | 0 => c
  | S j => Cursor (pos c + k) (rest c !! j) (drop k (rest c))
  end.

Definition at_bol (c : cursor) : bool :=
  match prev c with
  | None => true
  | Some p => (p =? LF)%N
  end.

Definition at_eol (c : cursor) : bool :=
  match rest c with
  | [] => true
  | x :: _ => (x =? LF)%N
  end.

Definition word_before (c : cursor) : bool :=
  match prev c with
  | None => false
  | Some p => isword p
  end.

Definition word_after (c : cursor) : bool :=
  match rest c with
  | [] => false
  | x :: _ => isword x
  end.

Definition at_boundary (c : cursor) : bool :=
  negb (eqb (word_before c) (word_after c)).

Fixpoint match_here (r : regex) (c : cursor) (caps : captures)
  : option (cursor * captures) :=
  match r with
  | [] => Some (c, caps)
  | Rep cs lo hi :: r' =>
      first_down (fun k => match_here r' (advance k c) caps)
                 lo (run cs hi (rest c))
  | AtBol :: r' => if at_bol c then match_here r' c caps else None
  | AtEol :: r' => if at_eol c then match_here r' c caps else None
  | AtBoundary :: r' => if at_boundary c then match_here r' c caps else None
  | GOpen g :: r' =>
      match_here r' c (Captures ((g, pos c) :: starts caps) (ends caps))
  | GClose g :: r' =>
      match_here r' c (Captures (starts caps) ((g, pos c) :: ends caps))
  end.

Definition match_at (r : regex) (c : cursor) : option match_obj :=
  match match_here r c no_captures with
  | Some (c', caps) => Some (Match (pos c) (pos c') caps)
  | None => None
  end.

(** [pattern.search]: the match at the leftmost position that has one. *)
Fixpoint search_from (r : regex) (p : nat) (pv : option char) (s : str)
  : option match_obj :=
  match match_at r (Cursor p pv s) with
  | Some m => Some m
  | None =>
      match s with
      | [] => None
      | x :: s' => search_from r (S p) (Some x) s'
      end
  end.

Definition search (r : regex) (text : str) : option match_obj :=
  search_from r 0 None text.

(** [pattern.finditer]: successive non-overlapping matches, each search
    resuming where the previous match ended.  [skip] counts the positions
    still covered by the last match.  (After an empty match the scan
    moves on by one character; no pattern of this module matches the
    empty string.) *)
Fixpoint finditer_from (r : regex) (skip : nat) (p : nat) (pv : option char)
    (s : str) : list match_obj :=
  match skip with
  | S k =>
      match s with
      | [] => []
      | x :: s' => finditer_from r k (S p) (Some x) s'
      end
  | 0 =>
      match match_at r (Cursor p pv s) with
      | Some m =>
          m :: match s with
               | [] => []
               | x :: s' =>
                   finditer_from r (pred (m_end m - p)) (S p) (Some x) s'
               end
      | None =>
          match s with
          | [] => []
          | x :: s' => finditer_from r 0 (S p) (Some x) s'
          end
      end
  end.

Definition finditer (r : regex) (text : str) : list match_obj :=
  finditer_from r 0 0 None text.

End Engine.

(** [m.group(g)]; group 0 is the whole match, an unset group is [None]
    (here rendered as the empty string: every group of the patterns
    below takes part in every match). *)
Definition group (text : str) (m : match_obj) (g : nat) : str :=
  match g with
  | 0 => substr text (m_start m) (m_end m)
  | _ =>
      match assoc g (starts (m_caps m)), assoc g (ends (m_caps m)) with
      | Some a, Some b => substr text a b
      | _, _ => []
      end
  end.

End Re.

Import Re.

(** ** Module-level patterns *)

Definition lit (s : string) : regex :=
  map (fun c => Rep (Lit c) 1 (Some 1)) (str_of s).

Definition digits (n : nat) : node := Rep Digit n (Some n).

(** [\b\d{7}-\d{2}\.\d{4}\.\d\.\d{2}\.\d{4}\b] *)
Definition PROCESS_NUMBER_RE : regex :=
  [AtBoundary; digits 7] ++ lit "-" ++ [digits 2] ++ lit "." ++ [digits 4]
  ++ lit "." ++ [digits 1] ++ lit "." ++ [digits 2] ++ lit "."
  ++ [digits 4; AtBoundary].

(** [\d{2}/\d{2}/\d{4}] *)
Definition date_re : regex :=
  [digits 2] ++ lit "/" ++ [digits 2] ++ lit "/" ++ [digits 4].

(** [^(?P<date>\d{2}/\d{2}/\d{4})\s+-\s+(?P<description>.+)$], MULTILINE;
    group 1 is [date], group 2 is [description]. *)
Definition MOVEMENT_RE : regex :=
  [AtBol; GOpen 1] ++ date_re ++ [GClose 1; Rep Space 1 None] ++ lit "-"
  ++ [Rep Space 1 None; GOpen 2; Rep Dot 1 None; GClose 2; AtEol].

(** The pattern local to [_parse_events], MULTILINE:
    [^(\d{2}/\d{2}/\d{4})\s+(REST)$] where REST is a greedy [.] repeated
    zero or more times. *)
Definition fallback_date_re : regex :=
  [AtBol; GOpen 1] ++ date_re
  ++ [GClose 1; Rep Space 1 None; GOpen 2; Rep Dot 0 None; GClose 2; AtEol].

(** ** Parser *)

(** "Não foi possível identificar o número do processo no documento." *)
Definition msg_no_case_number : str :=
  str_of "N" ++ [227%N] ++ str_of "o foi poss" ++ [237%N]
  ++ str_of "vel identificar o n" ++ [250%N]
  ++ str_of "mero do processo no documento.".

(** "Processo sem título" *)
Definition placeholder_title : str :=
  str_of "Processo sem t" ++ [237%N] ++ str_of "tulo".

(** A movement: its date and its description. *)
Abbreviation event := (str * str)%type.

Section Parser.

Variable isdecimal : char -> bool.
Variable isalnum : char -> bool.

Definition _parse_case_number (text : str) : result str :=
  match search isdecimal isalnum PROCESS_NUMBER_RE text with
  | None => Raise (Exn BuildDbError msg_no_case_number None)
  | Some m => Ok (group text m 0)
  end.

Definition _parse_events (text : str) : list event :=
  let events :=
    map (fun m => (group text m 1, strip (group text m 2)))
        (finditer isdecimal isalnum MOVEMENT_RE text) in
  match events with
  | _ :: _ => events
  | [] =>
      map (fun m => (group text m 1, strip (group text m 2)))
          (finditer isdecimal isalnum fallback_date_re text)
  end.

End Parser.

Fixpoint first_title (lines : list str) : str :=
  match lines with
  | [] => placeholder_title
  | line :: lines' =>
      let cleaned := strip line in
      match cleaned with
      | [] => first_title lines'
      | _ :: _ => take 200 cleaned
      end
  end.

Definition _derive_title (text : str) : str := first_title (splitlines text).

(** The tables restricted to ASCII, for computing on ASCII subjects. *)
Definition ascii_isdecimal (c : char) : bool := ((48 <=? c) && (c <=? 57))%N.
Definition ascii_isalnum (c : char) : bool :=
  (ascii_isdecimal c || (65 <=? c) && (c <=? 90) || (97 <=? c) && (c <=? 122))%N.


(** ** Effects: state and exceptions

    A computation runs on a state, and either returns a value or raises;
    the state reached is kept in both cases, as it is for a Python
    function that raises after some of its side effects. *)

Definition M (S A : Type) := S -> result A * S.

Definition ret {S A} (a : A) : M S A := fun s => (Ok a, s).
Definition raise {S A} (e : exn) : M S A := fun s => (Raise e, s).
Definition mbind_ {S A B} (m : M S A) (k : A -> M S B) : M S B :=
  fun s => match m s with
           | (Ok a, s') => k a s'
           | (Raise e, s') => (Raise e, s')
           end.

Notation "'let*' x ':=' m 'in' k" := (mbind_ m (fun x => k))
  (at level 10, x pattern, m at level 100, k at level 200).

(** ** Paths and the file system

    A [Path] is its sequence of components.  The file system maps a path
    to what is there; only what [build_db.py] can observe is kept. *)

Abbreviation path := (list str).
Abbreviation bytes := (list N).

Definition path_name (p : path) : str := default [] (last p).
Definition path_parent (p : path) : path := removelast p.
Definition path_join (d : path) (name : str) : path := d ++ [name].

(** [str(path)] *)
Fixpoint path_str (p : path) : str :=
  match p with
  | [] => []
  | [c] => c
  | c :: p' => c ++ 47%N :: path_str p'
  end.

(** [name.rfind(".")] as the offset of the last dot, if any. *)
Fixpoint rfind_dot (s : str) : option nat :=
  match s with
  | [] => None
  | c :: s' =>
      match rfind_dot s' with
      | Some i => Some (S i)
      | None => if (c =? 46)%N then Some 0 else None
      end
  end.

(** [path.stem]: the name without its last suffix; a leading or a final
    dot does not start a suffix. *)
Definition path_stem (p : path) : str :=
  let name := path_name p in
  match rfind_dot name with
  | Some i => if (0 <? i) && (i <? length name - 1) then take i name else name
  | None => name
  end.

Inductive inode :=
  | RegularFile (content : bytes)
  | Directory
  | Special.

Abbreviation fs := (gmap path inode).

Definition is_file (s : fs) (p : path) : bool :=
  match s !! p with
  | Some (RegularFile _) => true
  | _ => false
  end.

Definition is_dir (s : fs) (p : path) : bool :=
  match s !! p with
  | Some Directory => true
  | _ => false
  end.

(** "*" and literal characters of an [fnmatch] pattern. *)
Inductive glob_tok := Star | Chr (c : char).

Fixpoint fnmatch (pat : list glob_tok) (name : str) : bool :=
  match pat with
  | [] => match name with [] => true | _ :: _ => false end
  | Chr c :: pat' =>
      match name with
      | x :: name' => (x =? c)%N && fnmatch pat' name'
      | [] => false
      end
  | Star :: pat' =>
      (fix star (n : str) : bool :=
         fnmatch pat' n || match n with
                           | [] => false
                           | _ :: n' => star n'
                           end) name
  end.

(** The pattern "*.pdf" (matching is case-sensitive, as on POSIX). *)
Definition pdf_glob : list glob_tok := Star :: map Chr (str_of ".pdf").

(** [directory.glob(pat)]: the entries of [d] whose name matches, in
    whatever order the directory is read. *)
Definition glob (s : fs) (d : path) (pat : list glob_tok) : list path :=
  filter (fun p => p <> [] /\ path_parent p = d
                   /\ fnmatch pat (path_name p) = true)
         (map fst (map_to_list s)).

(** Order of [str] and of [Path] values: lexicographic, by code point and
    by component. *)
Fixpoint str_leb (a b : str) : bool :=
  match a, b with
  | [], _ => true
  | _ :: _, [] => false
  | x :: a', y :: b' =>
      if (x <? y)%N then true
      else if (x =? y)%N then str_leb a' b' else false
  end.

Fixpoint path_leb (p q : path) : bool :=
  match p, q with
  | [], _ => true
  | _ :: _, [] => false
  | x :: p', y :: q' =>
      if bool_decide (x = y) then path_leb p' q' else str_leb x y
  end.

Fixpoint insert_sorted (p : path) (l : list path) : list path :=
  match l with
  | [] => [p]
  | q :: l' => if path_leb p q then p :: l else q :: insert_sorted p l'
  end.

(** [sorted(paths)] *)
Definition sorted (l : list path) : list path := foldr insert_sorted [] l.

(** What the generator [_iter_pdf_files] yields when the directory is
    not modified while it is consumed.  ([load_pdf_results] below
    consumes it lazily: the [is_file] test of an entry runs when the
    loop reaches it.) *)
Definition _iter_pdf_files (s : fs) (directory : path) : list path :=
  filter (fun p => is_file s p = true) (sorted (glob s directory pdf_glob)).

(** [path.mkdir(parents=True, exist_ok=True)], walking down from the
    root: an existing directory is kept, a missing one is created, and
    anything else in the way raises. *)
Fixpoint mkdir_from (pre : path) (comps : list str) : M fs unit :=
  match comps with
  | [] => ret tt
  | c :: comps' =>
      let q := pre ++ [c] in
      fun s =>
        match s !! q with
        | Some Directory => mkdir_from q comps' s
        | Some _ => (Raise (Exn OSError (path_str q) None), s)
        | None => mkdir_from q comps' (<[q := Directory]> s)
        end
  end.

Definition mkdir_parents (d : path) : M fs unit := mkdir_from [] d.

(** [shutil.copy2(src, dst)]: into [dst] when it is a directory; copying
    a file onto itself raises ([SameFileError], an [OSError]). *)
Definition copy2 (src dst : path) : M fs unit :=
  fun s =>
    match s !! src with
    | Some (RegularFile content) =>
        let dst' :=
          if is_dir s dst then path_join dst (path_name src) else dst in
        if bool_decide (dst' = src)
        then (Raise (Exn OSError (path_str dst') None), s)
        else match s !! dst' with
             | Some Directory | Some Special =>
                 (Raise (Exn OSError (path_str dst') None), s)
             | _ => (Ok tt, <[dst' := RegularFile content]> s)
             end
    | _ => (Raise (Exn FileNotFoundError (path_str src) None), s)
    end.

(** [path.unlink(missing_ok=True)] *)
Definition unlink_missing_ok (p : path) : M fs unit :=
  fun s =>
    match s !! p with
    | Some Directory => (Raise (Exn OSError (path_str p) None), s)
    | _ => (Ok tt, delete p s)
    end.

(** ** TextExtractor *)

(** What [subprocess.run] observes of the converter. *)
Inductive run_outcome :=
  | NotFound
  | Exited (returncode : Z) (stderr : bytes).

(** "O utilitário 'pdftotext' não está disponível no sistema." *)
Definition msg_unavailable : str :=
  str_of "O utilit" ++ [225%N] ++ str_of "rio 'pdftotext' n" ++ [227%N]
  ++ str_of "o est" ++ [225%N] ++ str_of " dispon" ++ [237%N]
  ++ str_of "vel no sistema.".

Record PdfImportResult := {
  process_number : str;
  title : str;
  events : list (str * str);
  document_text : str;
  stored_path : path
}.

Definition to_document_record (r : PdfImportResult) : str * str * str :=
  (process_number r, path_name (stored_path r), document_text r).

Section Pipeline.

Variable isdecimal : char -> bool.
Variable isalnum : char -> bool.

(** The converter found on the search path, if any: given its two
    arguments and the file system, its exit status, its diagnostic
    output and the file system it leaves. *)
Variable pdftotext : option (path -> path -> fs -> Z * bytes * fs).

(** [repr] of a [bytes] value and UTF-8 decoding with [errors="ignore"]. *)
Variable bytes_repr : bytes -> str.
Variable decode_utf8_ignore : bytes -> str.

(** [path.resolve()] *)
Variable resolve : fs -> path -> path.

Definition subprocess_run (pdf_path destination : path)
  : fs -> run_outcome * fs :=
  fun s =>
    match pdftotext with
    | None => (NotFound, s)
    | Some conv =>
        let '(code, err, s') := conv pdf_path destination s in
        (Exited code err, s')
    end.

(** f"Falha ao converter '{pdf_path.name}' para texto: {exc.stderr!r}" *)
Definition msg_failed (pdf_path : path) (stderr : bytes) : str :=
  str_of "Falha ao converter '" ++ path_name pdf_path
  ++ str_of "' para texto: " ++ bytes_repr stderr.

(** [destination.read_text(encoding="utf-8", errors="ignore")] *)
Definition read_text (p : path) : M fs str :=
  fun s =>
    match s !! p with
    | Some (RegularFile content) => (Ok (decode_utf8_ignore content), s)
    | None => (Raise (Exn FileNotFoundError (path_str p) None), s)
    | Some _ => (Raise (Exn OSError (path_str p) None), s)
    end.

Definition extract_text_from_pdf (pdf_path destination : path) : M fs str :=
  let* _ := mkdir_parents (path_parent destination) in
  let* _ :=
    (fun s =>
       match subprocess_run pdf_path destination s with
       | (NotFound, s') =>
           (Raise (Exn PdfTextExtractionError msg_unavailable
                       (Some FileNotFoundError)), s')
       | (Exited code err, s') =>
           if (code =? 0)%Z then (Ok tt, s')
           else (Raise (Exn PdfTextExtractionError (msg_failed pdf_path err)
                            (Some CalledProcessError)), s')
       end) in
  let* text := read_text destination in
  let* _ := unlink_missing_ok destination in
  ret text.

Definition lift {S A} (r : result A) : M S A :=
  fun s => (r, s).

Definition process_pdf (pdf_path storage_dir temp_dir : path)
  : M fs PdfImportResult :=
  let* _ := mkdir_parents storage_dir in
  let target_path := path_join storage_dir (path_name pdf_path) in
  let* _ :=
    (fun s => if bool_decide (resolve s pdf_path <> resolve s target_path)
              then copy2 pdf_path target_path s
              else (Ok tt, s)) in
  let text_destination :=
    path_join temp_dir (path_stem pdf_path ++ str_of ".txt") in
  let* text_content := extract_text_from_pdf target_path text_destination in
  let* number := lift (_parse_case_number isdecimal isalnum text_content) in
  let evs := _parse_events isdecimal isalnum text_content in
  let ttl := _derive_title text_content in
  ret {| process_number := number;
         title := ttl;
         events := evs;
         document_text := text_content;
         stored_path := target_path |}.

(** The loop of [load_pdf_results] over the sorted entries: an entry is
    tested with [is_file] when the loop reaches it. *)
Fixpoint load_loop (paths : list path) (storage_dir temp_dir : path)
  : M fs (list PdfImportResult) :=
  match paths with
  | [] => ret []
  | p :: paths' =>
      fun s =>
        if is_file s p then
          (let* r := process_pdf p storage_dir temp_dir in
           let* rs := load_loop paths' storage_dir temp_dir in
           ret (r :: rs)) s
        else load_loop paths' storage_dir temp_dir s
  end.

Definition load_pdf_results (pdf_dir storage_dir temp_dir : path)
  : M fs (list PdfImportResult) :=
  fun s => load_loop (sorted (glob s pdf_dir pdf_glob)) storage_dir temp_dir s.

End Pipeline.

(** ** The persisted schema

    The tables of [ensure_schema], each a list of rows in rowid order,
    with the [sqlite_sequence] counters behind [AUTOINCREMENT]. *)

Record process_row := ProcessRow {
  p_id : Z;
  p_number : str;
  p_title : str;
  p_pdf_path : str;
  p_created_at : str
}.

Record event_row := EventRow {
  e_id : Z;
  e_process_id : Z;
  e_event_date : str;
  e_description : str
}.

Record document_row := DocumentRow {
  d_id : Z;
  d_process_id : Z;
  d_file_name : str;
  d_content : str;
  d_created_at : str
}.

Record appointment_row := AppointmentRow {
  a_id : Z;
  a_process_id : Z;
  a_title : str;
  a_start_at : str;
  a_notes : option str
}.

Record tables := Tables {
  processes : list process_row;
  t_events : list event_row;
  documents : list document_row;
  appointments : list appointment_row;
  seq_processes : Z;
  seq_events : Z;
  seq_documents : Z
}.

Definition empty_tables : tables := Tables [] [] [] [] 0 0 0.

(** The rowid an [AUTOINCREMENT] column gives the next row: one more
    than the largest rowid the table holds or ever held. *)
Definition next_rowid (ids : list Z) (seq : Z) : Z :=
  (Z.max (foldr Z.max 0 ids) seq + 1)%Z.

Definition has_number (number : str) (r : process_row) : bool :=
  bool_decide (p_number r = number).

(** INSERT INTO processes (number, title, pdf_path, created_at)
    VALUES (?, ?, ?, ?)
    ON CONFLICT(number) DO UPDATE SET
      title = excluded.title, pdf_path = excluded.pdf_path

    The rowid of the row to insert is drawn before the conflict is
    seen: the counter of the table advances on the update as well. *)
Definition upsert_process (number ttl pdf_path created_at : str) (t : tables)
  : tables :=
  let id := next_rowid (map p_id (processes t)) (seq_processes t) in
  if existsb (has_number number) (processes t) then
    Tables (map (fun r => if has_number number r
                          then ProcessRow (p_id r) (p_number r) ttl pdf_path
                                          (p_created_at r)
                          else r) (processes t))
           (t_events t) (documents t) (appointments t)
           id (seq_events t) (seq_documents t)
  else
    Tables (processes t ++ [ProcessRow id number ttl pdf_path created_at])
           (t_events t) (documents t) (appointments t)
           id (seq_events t) (seq_documents t).

(** SELECT id FROM processes WHERE number = ?   (first row) *)
Definition select_process_id (number : str) (t : tables) : option Z :=
  p_id <$> find (has_number number) (processes t).

(** DELETE FROM events WHERE process_id = ? *)
Definition delete_events (pid : Z) (t : tables) : tables :=
  Tables (processes t)
         (filter (fun e => e_process_id e <> pid) (t_events t))
         (documents t) (appointments t)
         (seq_processes t) (seq_events t) (seq_documents t).

(** DELETE FROM documents WHERE process_id = ? *)
Definition delete_documents (pid : Z) (t : tables) : tables :=
  Tables (processes t) (t_events t)
         (filter (fun d => d_process_id d <> pid) (documents t))
         (appointments t)
         (seq_processes t) (seq_events t) (seq_documents t).

(** INSERT INTO events (process_id, event_date, description)
    VALUES (?, ?, ?) *)
Definition insert_event (row : Z * str * str) (t : tables) : tables :=
  let '(pid, event_date, description) := row in
  let id := next_rowid (map e_id (t_events t)) (seq_events t) in
  Tables (processes t)
         (t_events t ++ [EventRow id pid event_date description])
         (documents t) (appointments t)
         (seq_processes t) id (seq_documents t).

(** [executemany]: the statement once per row, in order. *)
Definition insert_events (rows : list (Z * str * str)) (t : tables) : tables :=
  foldl (fun t row => insert_event row t) t rows.

(** INSERT INTO documents (process_id, file_name, content, created_at)
    VALUES (?, ?, ?, ?) *)
Definition insert_document (pid : Z) (file_name content created_at : str)
    (t : tables) : tables :=
  let id := next_rowid (map d_id (documents t)) (seq_documents t) in
  Tables (processes t) (t_events t)
         (documents t ++ [DocumentRow id pid file_name content created_at])
         (appointments t)
         (seq_processes t) (seq_events t) id.

(** ** Connections

    A connection sees its own uncommitted changes ([working]); the
    database others see, and what is left when the connection is closed,
    is [committed].  A database without the schema is [None].
    [statements] counts the statements and commits issued, [clock] the
    readings of the clock. *)

Record connection := Conn {
  committed : option tables;
  working : option tables;
  statements : nat;
  clock : nat
}.

(** "Falha ao obter o ID do processo recém-criado." *)
Definition msg_no_id : str :=
  str_of "Falha ao obter o ID do processo rec" ++ [233%N] ++ str_of "m-criado.".

Section Persister.

(** The statements at which the database engine reports an error (a full
    disk, a lock held elsewhere), by their number on the connection. *)
Variable fault : nat -> bool.

(** [dt.datetime.utcnow().isoformat()] at the n-th reading of the clock. *)
Variable isoformat : nat -> str.

Definition sqlite_error : exn := Exn SqliteError [] None.

Definition execute (f : tables -> tables) : M connection unit :=
  fun c =>
    let c' := Conn (committed c) (working c) (S (statements c)) (clock c) in
    if fault (statements c) then (Raise sqlite_error, c')
    else match working c with
         | None => (Raise sqlite_error, c')
         | Some t =>
             (Ok tt, Conn (committed c) (Some (f t)) (S (statements c)) (clock c))
         end.

Definition query {A} (q : tables -> A) : M connection A :=
  fun c =>
    let c' := Conn (committed c) (working c) (S (statements c)) (clock c) in
    if fault (statements c) then (Raise sqlite_error, c')
    else match working c with
         | None => (Raise sqlite_error, c')
         | Some t => (Ok (q t), c')
         end.

(** [connection.commit()] *)
Definition commit : M connection unit :=
  fun c =>
    if fault (statements c)
    then (Raise sqlite_error,
          Conn (committed c) (working c) (S (statements c)) (clock c))
    else (Ok tt, Conn (working c) (working c) (S (statements c)) (clock c)).

Definition utcnow : M connection str :=
  fun c => (Ok (isoformat (clock c)),
            Conn (committed c) (working c) (statements c) (S (clock c))).

(** The connection that [sqlite3.connect(database_path)] returns when it
    can open the file (see [can_open] below; when it cannot, it raises
    and there is no connection). *)
Definition connect (db : option tables) : connection := Conn db db 0 0.

(** [connection.close()]: what was not committed is rolled back. *)
Definition close (c : connection) : option tables := committed c.

(** CREATE TABLE IF NOT EXISTS ..., four times, then commit. *)
Definition ensure_schema : M connection unit :=
  let* _ :=
    (fun c =>
       let c' := Conn (committed c)
                      (Some (default empty_tables (working c)))
                      (S (statements c)) (clock c) in
       if fault (statements c)
       then (Raise sqlite_error,
             Conn (committed c) (working c) (S (statements c)) (clock c))
       else (Ok tt, c')) in
  commit.

Definition _get_process_id (number ttl : str) (pdf_path : path)
  : M connection Z :=
  let* now := utcnow in
  let* _ := execute (upsert_process number ttl (path_str pdf_path) now) in
  let* _ := commit in
  let* row := query (select_process_id number) in
  match row with
  | None => raise (Exn BuildDbError msg_no_id None)
  | Some id => ret id
  end.

(** The body of the loop of [persist_import_results]. *)
Definition persist_result (r : PdfImportResult) : M connection unit :=
  let* process_id :=
    _get_process_id (process_number r) (title r) (stored_path r) in
  let* _ := execute (delete_events process_id) in
  let* _ := execute (delete_documents process_id) in
  let event_rows :=
    map (fun '(event_date, description) => (process_id, event_date, description))
        (events r) in
  let* _ :=
    match event_rows with
    | _ :: _ => execute (insert_events event_rows)
    | [] => ret tt
    end in
  let* now := utcnow in
  let* _ :=
    execute (insert_document process_id (path_name (stored_path r))
                             (document_text r) now) in
  commit.

Fixpoint persist_import_results (results : list PdfImportResult)
  : M connection unit :=
  match results with
  | [] => ret tt
  | r :: results' =>
      let* _ := persist_result r in
      persist_import_results results'
  end.

End Persister.

(** ** The entry point

    The world of a run: the file system and the database at
    [database_path] ([None] while it has no schema). *)

Record world := World {
  w_fs : fs;
  w_db : option tables
}.

(** Whether [sqlite3.connect(database_path)] can open or create the
    file: its directory must exist (the current directory does), and no
    directory may stand at the path itself.  Otherwise it raises
    [OperationalError], an error of the database engine. *)
Definition can_open (s : fs) (database_path : path) : bool :=
  match database_path with
  | [] => false
  | _ :: _ =>
      match path_parent database_path with
      | [] => true
      | _ :: _ => is_dir s (path_parent database_path)
      end
      && negb (is_dir s database_path)
  end.

Section Build.

Variable isdecimal : char -> bool.
Variable isalnum : char -> bool.
Variable pdftotext : option (path -> path -> fs -> Z * bytes * fs).
Variable bytes_repr : bytes -> str.
Variable decode_utf8_ignore : bytes -> str.
Variable resolve : fs -> path -> path.
Variable fault : nat -> bool.
Variable isoformat : nat -> str.

Definition build_database (source_dir database_path : path) : M world unit :=
  fun w =>
    let storage_dir := path_join (path_parent database_path) (str_of "pdfs") in
    let temp_dir := path_join (path_parent database_path) (str_of "tmp") in
    match load_pdf_results isdecimal isalnum pdftotext bytes_repr
            decode_utf8_ignore resolve source_dir storage_dir temp_dir (w_fs w)
    with
    | (Raise e, s') => (Raise e, World s' (w_db w))
    | (Ok results, s') =>
        if can_open s' database_path then
          let connection := connect (w_db w) in
          let '(outcome, connection') :=
            (let* _ := ensure_schema fault in
             persist_import_results fault isoformat results) connection in
          (outcome, World s' (close connection'))
        else (Raise sqlite_error, World s' (w_db w))
    end.

End Build.

(** ** The documented behaviour in its own words, to compare the code with *)

(** The canonical case-number format: runs of decimal digits of given
    lengths and separator characters. *)
Inductive shape := Digits (n : nat) | Sep (c : char).

(** 7 digits, "-", 2 digits, ".", 4 digits, ".", 1 digit, ".", 2 digits,
    ".", 4 digits *)
Definition case_number_shape : list shape :=
  [Digits 7; Sep 45%N; Digits 2; Sep 46%N; Digits 4; Sep 46%N; Digits 1;
   Sep 46%N; Digits 2; Sep 46%N; Digits 4].

Fixpoint has_shape (isdecimal : char -> bool) (sh : list shape) (m : str)
  : bool :=
  match sh with
  | [] => match m with [] => true | _ :: _ => false end
  | Digits n :: sh' =>
      (n <=? length m) && forallb isdecimal (take n m)
      && has_shape isdecimal sh' (drop n m)
  | Sep c :: sh' =>
      match m with
      | x :: m' => (x =? c)%N && has_shape isdecimal sh' m'
      | [] => false
      end
  end.

(** Whether the character of [text] at offset [i] exists and is a word
    character (alphanumeric or underscore). *)
Definition word_at (isalnum : char -> bool) (text : str) (i : nat) : bool :=
  match text !! i with
  | Some c => isword isalnum c
  | None => false
  end.

(** A case number stands at offset [i] of [text], neither preceded nor
    followed by a word character. *)
Definition case_number_at (isdecimal isalnum : char -> bool) (text : str)
    (i : nat) : Prop :=
  has_shape isdecimal case_number_shape (substr text i (i + 25)) = true
  /\ (i = 0 \/ word_at isalnum text (i - 1) = false)
  /\ word_at isalnum text (i + 25) = false.

(** The pattern fragment that spells a shape, and the length of what it
    matches. *)
Definition shape_regex (sh : list shape) : regex :=
  flat_map (fun x => match x with
                     | Digits n => [digits n]
                     | Sep c => [Rep (Lit c) 1 (Some 1)]
                     end) sh.

Definition shape_len (sh : list shape) : nat :=
  foldr (fun x n => match x with Digits k => k + n | Sep _ => S n end) 0 sh.

(** The cursor of [text] at offset [i]. *)
Definition cursor_at (text : str) (i : nat) : cursor :=
  advance i (Cursor 0 None text).

(** At most one process row per case number. *)
Definition unique_numbers (t : tables) : Prop :=
  NoDup (map p_number (processes t)).

(** SELECT ... FROM events WHERE process_id = ?, in rowid order, and the
    same for documents. *)
Definition events_of (pid : Z) (t : tables) : list event_row :=
  filter (fun e => e_process_id e = pid) (t_events t).

Definition documents_of (pid : Z) (t : tables) : list document_row :=
  filter (fun d => d_process_id d = pid) (documents t).

(** The process row of [r], as the upsert writes it at clock reading [now]. *)
Definition upserted (isoformat : nat -> str) (now : nat) (r : PdfImportResult)
    (t : tables) : tables :=
  upsert_process (process_number r) (title r) (path_str (stored_path r))
                 (isoformat now) t.

(** The tables once the import of [r] has run to its end, the clock
    standing at [now] when it began. *)
Definition imported (isoformat : nat -> str) (now : nat) (r : PdfImportResult)
    (pid : Z) (t : tables) : tables :=
  insert_document pid (path_name (stored_path r)) (document_text r)
    (isoformat (S now))
    (insert_events (map (fun '(d, desc) => (pid, d, desc)) (events r))
       (delete_documents pid (delete_events pid (upserted isoformat now r t)))).

(** Every process row of [t] is still in [t'] under the same identifier,
    case number and creation time. *)
Definition keeps_identity (t t' : tables) : Prop :=
  forall row, row ∈ processes t ->
    exists row', row' ∈ processes t'
      /\ p_id row' = p_id row /\ p_number row' = p_number row
      /\ p_created_at row' = p_created_at row.

(** A connection with nothing pending. *)
Definition quiescent (c : connection) (t : tables) : Prop :=
  committed c = Some t /\ working c = Some t.

(** The row the upsert leaves for a row it finds. *)
Definition retitle (number ttl pdf_path : str) (r : process_row) : process_row :=
  if has_number number r
  then ProcessRow (p_id r) (p_number r) ttl pdf_path (p_created_at r)
  else r.

Definition blank (l : str) : Prop := strip l = [].

(** What [subprocess.run] leaves of the file system. *)
Definition after_converter
    (conv : option (path -> path -> fs -> Z * bytes * fs))
    (pdf dest : path) (s : fs) : fs :=
  snd (subprocess_run conv pdf dest s).

(** The directories [build_database] derives from the database path. *)
Definition storage_dir_of (database_path : path) : path :=
  path_join (path_parent database_path) (str_of "pdfs").

Definition temp_dir_of (database_path : path) : path :=
  path_join (path_parent database_path) (str_of "tmp").

Definition path_le (p q : path) : Prop := path_leb p q = true.

(** [name] ends with the lowercase suffix ".pdf". *)
Definition pdf_name (name : str) : Prop :=
  exists stem, name = stem ++ str_of ".pdf".

Definition hello_text : str :=
  [LF; LF] ++ str_of "Hello World" ++ [LF] ++ str_of "More text".

Section Runs.

Variable isdecimal : char -> bool.
Variable isalnum : char -> bool.
Variable pdftotext : option (path -> path -> fs -> Z * bytes * fs).
Variable bytes_repr : bytes -> str.
Variable decode_utf8_ignore : bytes -> str.
Variable resolve : fs -> path -> path.

(** [process_pdf] on each path of a list, in order, stopping at the first
    that raises. *)
Fixpoint process_all (paths : list path) (storage_dir temp_dir : path)
  : M fs (list PdfImportResult) :=
  match paths with
  | [] => ret []
  | p :: paths' =>
      let* r := process_pdf isdecimal isalnum pdftotext bytes_repr
                  decode_utf8_ignore resolve p storage_dir temp_dir in
      let* rs := process_all paths' storage_dir temp_dir in
      ret (r :: rs)
  end.

(** The converter changes nothing but its output file. *)
Definition writes_only_output : Prop :=
  forall conv, pdftotext = Some conv ->
  forall (pdf dest : path) (s : fs) code err (s' : fs),
    conv pdf dest s = (code, err, s') ->
    forall q : path, q <> dest -> s' !! q = s !! q.

End Runs.

(** What is at [q] in [s] is still there in [s'], a regular file if it
    was one and not one if it was not. *)
Definition same_kind (s s' : fs) (q : path) : Prop :=
  is_Some (s !! q) -> is_Some (s' !! q) /\ is_file s' q = is_file s q.

(** ** Event parsing in the words of its description: line by line *)

(** The lines of a text, cut at its line feeds. *)
Fixpoint lines_of (s : str) : list str :=
  match s with
  | [] => [[]]
  | c :: s' =>
      if (c =? LF)%N then [] :: lines_of s'
      else match lines_of s' with
           | [] => [[c]]
           | l :: ls => (c :: l) :: ls
           end
  end.

(** DD/MM/YYYY *)
Definition date_shape : list shape :=
  [Digits 2; Sep 47%N; Digits 2; Sep 47%N; Digits 4].

Section LineForms.

Variable isdecimal : char -> bool.

(** A line of the dash form: a date, white space, a dash, white space
    and a description that is not empty. *)
Definition dash_line (line : str) : option event :=
  let date := take 10 line in
  let after_date := drop 10 line in
  let after_space := lstrip after_date in
  if has_shape isdecimal date_shape date
     && (length after_space <? length after_date)
  then match after_space with
       | dash :: w :: description =>
           if (dash =? 45)%N && isspace w
              && negb (bool_decide (description = []))
           then Some (date, strip description)
           else None
       | _ => None
       end
  else None.

(** A line of the bare form: a date, white space and the rest of the
    line. *)
Definition bare_line (line : str) : option event :=
  let date := take 10 line in
  let after_date := drop 10 line in
  let after_space := lstrip after_date in
  if has_shape isdecimal date_shape date
     && (length after_space <? length after_date)
  then Some (date, strip after_space)
  else None.

(** The pairs of the dash-form lines in line order, or, when no line has
    the dash form, those of the bare-form lines. *)
Definition events_by_line (text : str) : list event :=
  let primary := omap dash_line (lines_of text) in
  match primary with
  | _ :: _ => primary
  | [] => omap bare_line (lines_of text)
  end.

End LineForms.

(** ** Sample data *)

(** A movement whose description is missing, followed by a complete one:
    "01/02/2024 -", line feed, "03/04/2024 - x". *)
Definition dangling_dash_text : str :=
  str_of "01/02/2024 -" ++ [LF] ++ str_of "03/04/2024 - x".

(** A case number glued to one more leading digit. *)
Definition glued_number_text : str := str_of "12345678-89.2024.1.23.4567".

Definition sample_text : str :=
  str_of "Processo 1234567-89.2024.1.23.4567" ++ [LF]
  ++ str_of "01/02/2024 - Distribuido" ++ [LF]
  ++ str_of "03/04/2024 - Concluso".

(** [repr] and UTF-8 decoding on printable ASCII without quotes or
    backslashes, where they are the identity up to the [b'...'] frame. *)
Definition repr_ascii (b : bytes) : str := str_of "b'" ++ b ++ str_of "'".
Definition decode_ascii (b : bytes) : str := b.

(** No symbolic links: a path resolves to itself. *)
Definition resolve_plain (_ : fs) (p : path) : path := p.

(** A converter that copies the text layer its input consists of, and
    exits with status 1 when there is no such input. *)
Definition copying_converter (pdf dest : path) (s : fs) : Z * bytes * fs :=
  match s !! pdf with
  | Some (RegularFile content) => (0%Z, [], <[dest := RegularFile content]> s)
  | _ => (1%Z, str_of "I/O Error: Couldn't open file", s)
  end.

(** A converter interrupted after it has written part of its output. *)
Definition interrupted_converter (pdf dest : path) (s : fs) : Z * bytes * fs :=
  (1%Z, str_of "Syntax Error: Unterminated string",
   <[dest := RegularFile (str_of "Processo 12")]> s).

Definition no_fault (_ : nat) : bool := false.
Definition fault_at (k n : nat) : bool := Nat.eqb n k.

Definition sample_isoformat (n : nat) : str :=
  str_of "2024-05-06T07:08:0" ++ [(48 + N.of_nat n)%N].

Definition in_dir : path := [str_of "in"].
Definition db_path : path := [str_of "data"; str_of "db.sqlite3"].
Definition a_pdf : path := [str_of "in"; str_of "a.pdf"].
Definition b_pdf : path := [str_of "in"; str_of "b.pdf"].
Definition c_pdf : path := [str_of "in"; str_of "c.pdf"].
Definition scratch_txt : path := [str_of "data"; str_of "tmp"; str_of "a.txt"].

(** A source directory: two documents with a case number around one
    without, an upper-case name, a directory named like a document and a
    file of another kind. *)
Definition sample_fs : fs :=
  <[ in_dir := Directory ]>
  (<[ a_pdf := RegularFile sample_text ]>
  (<[ b_pdf := RegularFile (str_of "Sem numero") ]>
  (<[ c_pdf := RegularFile sample_text ]>
  (<[ [str_of "in"; str_of "D.PDF"] := RegularFile sample_text ]>
  (<[ [str_of "in"; str_of "e.pdf"] := Directory ]>
  (<[ [str_of "in"; str_of "notes.txt"] := RegularFile sample_text ]> ∅)))))).

Definition sample_world : world := World sample_fs None.

Definition sample_result : PdfImportResult :=
  {| process_number := str_of "1234567-89.2024.1.23.4567";
     title := str_of "Processo 1234567-89.2024.1.23.4567";
     events := [(str_of "01/02/2024", str_of "Distribuido");
                (str_of "03/04/2024", str_of "Concluso")];
     document_text := sample_text;
     stored_path := [str_of "data"; str_of "pdfs"; str_of "a.pdf"] |}.

Definition other_result : PdfImportResult :=
  {| process_number := str_of "7654321-00.2023.8.26.0100";
     title := str_of "Outro processo";
     events := [];
     document_text := str_of "Outro processo 7654321-00.2023.8.26.0100";
     stored_path := [str_of "data"; str_of "pdfs"; str_of "c.pdf"] |}.

Definition fresh_connection : connection :=
  Conn (Some empty_tables) (Some empty_tables) 0 0.

(** The text whose lines are [ls]: the lines joined by line feeds. *)
Fixpoint unlines (ls : list str) : str :=
  match ls with
  | [] => []
  | [l] => l
  | l :: ls' => l ++ LF :: unlines ls'
  end.

(** A line is settled when white space never runs to its end after a
    leading date or after the dash that follows the date: then no run of
    white space of the patterns reaches the next line. *)
Definition settled_line (isdecimal : char -> bool) (line : str) : Prop :=
  has_shape isdecimal date_shape (take 10 line) = true ->
  lstrip (drop 10 line) <> []
  /\ forall rest, lstrip (drop 10 line) = 45%N :: rest -> lstrip rest <> [].

Definition settled (isdecimal : char -> bool) (text : str) : Prop :=
  Forall (settled_line isdecimal) (lines_of text).

(** The pair [_parse_events] makes of a match. *)
Definition event_of (text : str) (m : match_obj) : event :=
  (group text m 1, strip (group text m 2)).

(** A line holds no line feed; a text from the end of a line on is empty
    or starts with a line feed. *)
Definition no_lf (l : str) : Prop := Forall (fun c => c <> LF) l.

Definition line_end (rest' : str) : Prop :=
  match rest' with
  | [] => True
  | y :: _ => y = LF
  end.

Definition all_space (ws : str) : Prop := Forall (fun c => isspace c = true) ws.

(** The head of [s], if any, is not white space. *)
Definition starts_solid (s : str) : Prop :=
  match s with
  | [] => True
  | c :: _ => isspace c = false
  end.

(** After the date and the white space, the primary pattern goes on with
    the dash and the description, the fallback pattern with the rest of
    the line. *)
Definition dash_tail : regex :=
  [Rep (Lit 45%N) 1 (Some 1); Rep Space 1 None; GOpen 2; Rep Dot 1 None;
   GClose 2; AtEol].

Definition bare_tail : regex :=
  [GOpen 2; Rep Dot 0 None; GClose 2; AtEol].

Definition dated (tail : regex) : regex :=
  AtBol :: GOpen 1 :: shape_regex date_shape
  ++ GClose 1 :: Rep Space 1 None :: tail.

(** ** Further vocabulary *)

(** [s.strip() == s] *)
Definition trimmed (s : str) : Prop := strip s = s.

(** No character of [s] is a line boundary of [str.splitlines]. *)
Definition single_line (s : str) : Prop :=
  Forall (fun c => islinebreak c = false) s.

(** Offset [i] of [text] is where a line starts: the start of the text
    or just after a line feed. *)
Definition line_start (text : str) (i : nat) : Prop :=
  i = 0 \/ (0 < i /\ text !! (i - 1) = Some LF).

(** An event whose date is ten characters DD/MM/YYYY standing at the
    start of a line of [text], and whose description has no white space
    at either end and no line feed. *)
Definition well_formed_event (isdecimal : char -> bool) (text : str)
    (e : event) : Prop :=
  (exists i, line_start text i /\ substr text i (i + 10) = e.1)
  /\ has_shape isdecimal date_shape e.1 = true
  /\ trimmed e.2
  /\ no_lf e.2.

(** The cursor [c] is a position of [text]. *)
Definition cursor_of (text : str) (c : cursor) : Prop :=
  pos c <= length text
  /\ rest c = drop (pos c) text
  /\ prev c = match pos c with 0 => None | S j => text !! j end.

(** What the tail of a dated pattern adds to the marks [caps0]: group 1 is
    left alone, group 2 spans characters other than the line feed. *)
Definition description_marks (text : str) (caps0 caps : captures) : Prop :=
  assoc 1 (starts caps) = assoc 1 (starts caps0)
  /\ assoc 1 (ends caps) = assoc 1 (ends caps0)
  /\ exists a k, assoc 2 (starts caps) = Some a
                 /\ assoc 2 (ends caps) = Some (a + k)
                 /\ no_lf (take k (drop a text)).

(** The stored copy and the scratch file of [process_pdf]. *)
Definition target_of (storage_dir pdf_path : path) : path :=
  path_join storage_dir (path_name pdf_path).

Definition scratch_of (temp_dir pdf_path : path) : path :=
  path_join temp_dir (path_stem pdf_path ++ str_of ".txt").

(** The paths [p] and [q] resolve to the same file only if they are the
    same path: neither is another name of the other. *)
Definition resolve_apart (resolve : fs -> path -> path) (p q : path) : Prop :=
  forall s : fs, resolve s p = resolve s q -> p = q.

(** ** Integrity of the tables *)

(** No two process rows share an identifier. *)
Definition unique_ids (t : tables) : Prop := NoDup (map p_id (processes t)).

(** Every event and every document belongs to a process row. *)
Definition no_orphans (t : tables) : Prop :=
  (forall e, e ∈ t_events t -> e_process_id e ∈ map p_id (processes t))
  /\ (forall d, d ∈ documents t -> d_process_id d ∈ map p_id (processes t)).

(** The import result [r] is in the tables in full: the process row of
    its case number carries its title and its stored path, and that
    process has exactly the movements of [r], in order, and exactly one
    document, with the file name and the text of [r]. *)
Definition persisted (r : PdfImportResult) (t : tables) : Prop :=
  exists row d,
    find (has_number (process_number r)) (processes t) = Some row
    /\ p_title row = title r
    /\ p_pdf_path row = path_str (stored_path r)
    /\ map (fun e => (e_event_date e, e_description e))
           (events_of (p_id row) t) = events r
    /\ documents_of (p_id row) t = [d]
    /\ d_file_name d = path_name (stored_path r)
    /\ d_content d = document_text r.

(** An event row and a document row without their rowid and time stamp. *)
Definition event_content (e : event_row) : Z * str * str :=
  (e_process_id e, e_event_date e, e_description e).

Definition document_content (d : document_row) : Z * str * str :=
  (d_process_id d, d_file_name d, d_content d).

(** ** The command line

    [main] once [parse_args] has read the source directory and the
    database path from the command line, and the [__main__] block around
    it. *)

(** [path.exists()] *)
Definition path_exists (s : fs) (p : path) : bool :=
  match s !! p with
  | Some _ => true
  | None => false
  end.

(** f"O diretório de origem '{source_dir}' é inválido." *)
Definition msg_invalid_source (source_dir : path) : str :=
  str_of "O diret" ++ [243%N] ++ str_of "rio de origem '"
  ++ path_str source_dir ++ str_of "' " ++ [233%N] ++ str_of " inv"
  ++ [225%N] ++ str_of "lido.".

(** [json.dumps] of a string ([ensure_ascii] is on): the two-character
    escapes of the quote, the backslash and five control characters,
    printable ASCII as it is, and a [\uXXXX] escape for anything else,
    a surrogate pair beyond the basic plane. *)
Definition hex_digit (n : N) : char :=
  if (n <? 10)%N then (48 + n)%N else (87 + n)%N.

Definition hex4 (n : N) : str :=
  [hex_digit ((n / 4096) mod 16); hex_digit ((n / 256) mod 16);
   hex_digit ((n / 16) mod 16); hex_digit (n mod 16)]%N.

Definition u_escape (n : N) : str := [92%N; 117%N] ++ hex4 n.

Definition json_escape_char (c : char) : str :=
  if (c =? 92)%N then [92%N; 92%N]
  else if (c =? 34)%N then [92%N; 34%N]
  else if (c =? 8)%N then [92%N; 98%N]
  else if (c =? 12)%N then [92%N; 102%N]
  else if (c =? 10)%N then [92%N; 110%N]
  else if (c =? 13)%N then [92%N; 114%N]
  else if (c =? 9)%N then [92%N; 116%N]
  else if ((32 <=? c) && (c <=? 126))%N then [c]
  else if (c <? 65536)%N then u_escape c
  else
    let n := (c - 65536)%N in
    u_escape (N.lor 55296 (N.land (N.shiftr n 10) 1023))
    ++ u_escape (N.lor 56320 (N.land n 1023)).

Definition json_string (s : str) : str :=
  [34%N] ++ flat_map json_escape_char s ++ [34%N].

(** [json.dumps({"error": message})]: an object with the one key
    [error], written with the separators [", "] and [": "]. *)
Definition json_error (message : str) : str :=
  [123%N; 34%N] ++ str_of "error" ++ [34%N; 58%N; 32%N]
  ++ json_string message ++ [125%N].

(** How the script ends: [main] returned, the [except] clause printed a
    line and raised [SystemExit(1)], or an exception left the script. *)
Inductive script_end :=
  | ExitZero
  | ExitOne (printed : str)
  | Uncaught (e : exn).

Section CommandLine.

Variable isdecimal : char -> bool.
Variable isalnum : char -> bool.
Variable pdftotext : option (path -> path -> fs -> Z * bytes * fs).
Variable bytes_repr : bytes -> str.
Variable decode_utf8_ignore : bytes -> str.
Variable resolve : fs -> path -> path.
Variable fault : nat -> bool.
Variable isoformat : nat -> str.

Definition main (source_dir database_path : path) : M world unit :=
  fun w =>
    if negb (path_exists (w_fs w) source_dir)
       || negb (is_dir (w_fs w) source_dir)
    then (Raise (Exn BuildDbError (msg_invalid_source source_dir) None), w)
    else build_database isdecimal isalnum pdftotext bytes_repr
           decode_utf8_ignore resolve fault isoformat
           source_dir database_path w.

(** try: main()
    except BuildDbError as error:
        print(json.dumps({"error": str(error)})); raise SystemExit(1) *)
Definition script (source_dir database_path : path) (w : world)
  : script_end * world :=
  match main source_dir database_path w with
  | (Ok _, w') => (ExitZero, w')
  | (Raise e, w') =>
      if is_build_db_error e
      then (ExitOne (json_error (exn_message e)), w')
      else (Uncaught e, w')
  end.

End CommandLine.

(** Printable ASCII: from the space to the tilde. *)
Definition printable (c : char) : bool := ((32 <=? c) && (c <=? 126))%N.

(** A computation on a connection that never lowers the count of
    statements. *)
Definition counting {A} (m : M connection A) : Prop :=
  forall c outcome c', m c = (outcome, c') -> statements c <= statements c'.

(** ** Further sample data *)

Definition other_text : str :=
  str_of "Outro processo 7654321-00.2023.8.26.0100".

(** A source directory whose two documents both carry a case number. *)
Definition clean_fs : fs :=
  <[ in_dir := Directory ]>
  (<[ a_pdf := RegularFile sample_text ]>
  (<[ c_pdf := RegularFile other_text ]>
  (<[ [str_of "in"; str_of "notes.txt"] := RegularFile sample_text ]> ∅))).

(** A source directory without a document: a directory named like one
    and a file of another kind. *)
Definition bare_fs : fs :=
  <[ in_dir := Directory ]>
  (<[ [str_of "in"; str_of "e.pdf"] := Directory ]>
  (<[ [str_of "in"; str_of "notes.txt"] := RegularFile sample_text ]> ∅)).

(** A database that holds one case with a movement, a document and an
    appointment. *)
Definition stocked_tables : tables :=
  Tables
    [ProcessRow 1 (str_of "7654321-00.2023.8.26.0100") (str_of "Outro processo")
                (str_of "data/pdfs/c.pdf") (str_of "2024-01-02T03:04:05")]
    [EventRow 1 1 (str_of "05/06/2023") (str_of "Juntada")]
    [DocumentRow 1 1 (str_of "c.pdf") other_text (str_of "2024-01-02T03:04:05")]
    [AppointmentRow 1 1 (str_of "Audiencia") (str_of "2024-06-01 14:00") None]
    1 1 1.

Definition stocked_world : world := World clean_fs (Some stocked_tables).

Definition missing_dir : path := [str_of "nowhere"].

(** The first sample document again, stored under another name and with
    another first line. *)
Definition retitled_result : PdfImportResult :=
  {| process_number := str_of "1234567-89.2024.1.23.4567";
     title := str_of "Autos 1234567-89.2024.1.23.4567";
     events := [];
     document_text := str_of "Autos 1234567-89.2024.1.23.4567";
     stored_path := [str_of "data"; str_of "pdfs"; str_of "z.pdf"] |}.

(** The date of the movement [e] stands at offset [i] of [text], where a
    line starts. *)
Definition dated_at (text : str) (i : nat) (e : event) : Prop :=
  line_start text i /\ substr text i (i + 10) = e.1.

(** * Properties

    ** The matcher *)

Section EngineFacts.

Variable isdecimal : char -> bool.
Variable isalnum : char -> bool.

Local Abbreviation in_cset := (in_cset isdecimal).
Local Abbreviation run := (run isdecimal).
Local Abbreviation match_here := (match_here isdecimal isalnum).
Local Abbreviation match_at := (match_at isdecimal isalnum).
Local Abbreviation search_from := (search_from isdecimal isalnum).

Lemma advance_step k p pv x s :
  advance k (Cursor (S p) (Some x) s) = advance (S k) (Cursor p pv (x :: s)).
Proof.
  destruct k as [|k]; simpl.
  - f_equal. lia.
  - f_equal. lia.
Qed.

Lemma advance_pos k c : pos (advance k c) = pos c + k.
Proof. destruct k; simpl; lia. Qed.

Lemma advance_rest k c : rest (advance k c) = drop k (rest c).
Proof. destruct k; simpl; auto. Qed.

Lemma advance_advance j k c :
  j <= length (rest c) -> advance k (advance j c) = advance (j + k) c.
Proof.
  intros Hj. destruct j as [|j]; [reflexivity|].
  destruct k as [|k].
  - rewrite Nat.add_0_r. reflexivity.
  - simpl. f_equal.
    + lia.
    + rewrite lookup_drop. f_equal. lia.
    + rewrite drop_drop. f_equal.
Qed.

Lemma cursor_at_pos text i : pos (cursor_at text i) = i.
Proof. unfold cursor_at. rewrite advance_pos. reflexivity. Qed.

Lemma cursor_at_rest text i : rest (cursor_at text i) = drop i text.
Proof. unfold cursor_at. rewrite advance_rest. reflexivity. Qed.

Lemma cursor_at_prev text i :
  prev (cursor_at text i) = match i with 0 => None | S j => text !! j end.
Proof. destruct i; reflexivity. Qed.

Lemma cursor_at_advance text i k :
  i <= length text -> advance k (cursor_at text i) = cursor_at text (i + k).
Proof. intros. unfold cursor_at. apply advance_advance. simpl. lia. Qed.

(** [run] counts a prefix of characters of the set, within the bound. *)
Lemma run_le_length cs hi s : run cs hi s <= length s.
Proof.
  revert hi. induction s as [|c s IH]; intros hi.
  - destruct hi as [[|h]|]; reflexivity.
  - destruct hi as [[|h]|]; simpl; try lia;
      destruct (in_cset cs c); simpl; try lia.
    + specialize (IH (Some h)). simpl in IH. lia.
    + specialize (IH None). simpl in IH. lia.
Qed.

Lemma run_bounded cs h s : run cs (Some h) s <= h.
Proof.
  revert h. induction s as [|c s IH]; intros h.
  - destruct h; simpl; lia.
  - destruct h as [|h]; simpl; [lia|].
    destruct (in_cset cs c); simpl; [|lia].
    specialize (IH h). lia.
Qed.

Lemma run_prefix cs hi s :
  forallb (in_cset cs) (take (run cs hi s) s) = true.
Proof.
  revert hi. induction s as [|c s IH]; intros hi.
  - destruct hi as [[|h]|]; reflexivity.
  - destruct hi as [[|h]|]; simpl; try reflexivity;
      destruct (in_cset cs c) eqn:E; simpl; try reflexivity; rewrite E; simpl.
    + apply (IH (Some h)).
    + apply (IH None).
Qed.

(** The run is maximal: it stops at the bound, at the end of the subject
    or before a character outside the set. *)
Lemma run_maximal cs hi s :
  hi = Some (run cs hi s)
  \/ match s !! run cs hi s with
     | Some c => in_cset cs c = false
     | None => True
     end.
Proof.
  revert hi. induction s as [|c s IH]; intros hi.
  - destruct hi as [[|h]|]; simpl; auto.
  - destruct hi as [[|h]|]; simpl; auto.
    + destruct (in_cset cs c) eqn:E; simpl; auto.
      destruct (IH (Some h)) as [H|H]; simpl in H; auto.
      left. congruence.
    + destruct (in_cset cs c) eqn:E; simpl; auto.
      destruct (IH None) as [H|H]; simpl in H; auto. discriminate.
Qed.

Lemma run_all cs n s :
  n <= length s -> forallb (in_cset cs) (take n s) = true ->
  run cs (Some n) s = n.
Proof.
  revert n. induction s as [|c s IH]; intros n Hn Hall.
  - simpl in Hn. assert (n = 0) by lia. subst. reflexivity.
  - destruct n as [|n]; [reflexivity|]. simpl in *.
    apply andb_true_iff in Hall as [Hc Hall]. rewrite Hc.
    f_equal. apply IH; [lia|exact Hall].
Qed.

Lemma first_down_below {A} (f : nat -> option A) lo n :
  n < lo -> first_down f lo n = None.
Proof.
  intros H. destruct n; simpl.
  - destruct lo; [lia|]. reflexivity.
  - destruct (S n <? lo) eqn:E; [reflexivity|].
    apply Nat.ltb_ge in E. lia.
Qed.

Lemma first_down_exact {A} (f : nat -> option A) n :
  first_down f n n = f n.
Proof.
  destruct n; simpl.
  - destruct (f 0); reflexivity.
  - rewrite Nat.ltb_irrefl. destruct (f (S n)); [reflexivity|].
    apply first_down_below. lia.
Qed.

(** A repetition with a fixed count matches exactly that many characters
    of the set, without alternatives. *)
Lemma match_here_fixed cs n r c caps :
  match_here (Rep cs n (Some n) :: r) c caps =
  if (n <=? length (rest c)) && forallb (in_cset cs) (take n (rest c))
  then match_here r (advance n c) caps
  else None.
Proof.
  simpl.
  destruct ((n <=? length (rest c)) && forallb (in_cset cs) (take n (rest c)))
    eqn:E.
  - apply andb_true_iff in E as [E1 E2]. apply Nat.leb_le in E1.
    rewrite (run_all cs n (rest c) E1 E2).
    apply (first_down_exact (fun k => match_here r (advance k c) caps)).
  - apply first_down_below.
    pose proof (run_bounded cs n (rest c)) as Hb.
    pose proof (run_le_length cs (Some n) (rest c)) as Hl.
    pose proof (run_prefix cs (Some n) (rest c)) as Hp.
    destruct (Nat.eq_dec (run cs (Some n) (rest c)) n) as [Heq|Hne]; [|lia].
    rewrite Heq in Hp, Hl. apply Nat.leb_le in Hl. rewrite Hl, Hp in E.
    discriminate.
Qed.

(** [search_from] returns the match at the first offset that has one. *)
Lemma search_from_some r c m :
  search_from r (pos c) (prev c) (rest c) = Some m ->
  exists k, k <= length (rest c)
    /\ match_at r (advance k c) = Some m
    /\ forall j, j < k -> match_at r (advance j c) = None.
Proof.
  destruct c as [p pv s]. simpl. revert p pv.
  induction s as [|x s IH]; intros p pv H; simpl in H.
  - destruct (match_at r (Cursor p pv [])) eqn:E; [|discriminate].
    exists 0. split; [simpl; lia|]. split; [simpl; congruence|]. intros; lia.
  - destruct (match_at r (Cursor p pv (x :: s))) eqn:E.
    + exists 0. split; [simpl; lia|]. split; [simpl; congruence|]. intros; lia.
    + destruct (IH _ _ H) as (k & Hk & Hm & Hnone).
      exists (S k). split; [simpl; lia|]. split.
      * rewrite <- (advance_step k p pv x s). exact Hm.
      * intros [|j] Hj; [exact E|].
        rewrite <- (advance_step j p pv x s). apply Hnone. lia.
Qed.

Lemma search_from_none r c :
  search_from r (pos c) (prev c) (rest c) = None ->
  forall k, k <= length (rest c) -> match_at r (advance k c) = None.
Proof.
  destruct c as [p pv s]. simpl. revert p pv.
  induction s as [|x s IH]; intros p pv H k Hk; simpl in H, Hk.
  - destruct (match_at r (Cursor p pv [])) eqn:E; [discriminate|].
    assert (k = 0) by lia. subst. exact E.
  - destruct (match_at r (Cursor p pv (x :: s))) eqn:E; [discriminate|].
    destruct k as [|k]; [exact E|].
    rewrite <- (advance_step k p pv x s). apply (IH _ _ H). lia.
Qed.

End EngineFacts.

(** ** Case numbers *)

Section CaseNumber.

Variable isdecimal : char -> bool.
Variable isalnum : char -> bool.

Local Abbreviation match_here := (match_here isdecimal isalnum).
Local Abbreviation match_at := (match_at isdecimal isalnum).
Local Abbreviation has_shape := (has_shape isdecimal).

Lemma has_shape_length sh m : has_shape sh m = true -> length m = shape_len sh.
Proof.
  revert m. induction sh as [|[n|ch] sh IH]; intros m H; simpl in *.
  - destruct m; [reflexivity|discriminate].
  - apply andb_true_iff in H as [H H3]. apply andb_true_iff in H as [H1 H2].
    apply Nat.leb_le in H1. apply IH in H3. rewrite length_drop in H3. lia.
  - destruct m as [|x m]; [discriminate|].
    apply andb_true_iff in H as [_ H]. apply IH in H. simpl. lia.
Qed.

(** Matching the pattern of a shape is testing the shape on the next
    characters. *)
Lemma match_here_shape sh r c caps :
  match_here (shape_regex sh ++ r) c caps =
  if has_shape sh (take (shape_len sh) (rest c))
  then match_here r (advance (shape_len sh) c) caps
  else None.
Proof.
  revert c. induction sh as [|[n|ch] sh IH]; intros c.
  - reflexivity.
  - change (shape_regex (Digits n :: sh) ++ r)
      with (Rep Digit n (Some n) :: (shape_regex sh ++ r)).
    rewrite match_here_fixed.
    change (shape_len (Digits n :: sh)) with (n + shape_len sh).
    cbn [has_shape].
    rewrite length_take, take_take, <- take_drop_commute.
    replace (n `min` (n + shape_len sh)) with n by lia.
    replace (n <=? (n + shape_len sh) `min` length (rest c))
      with (n <=? length (rest c)).
    2:{ destruct (n <=? length (rest c)) eqn:E.
        - apply Nat.leb_le in E. symmetry. apply Nat.leb_le. lia.
        - apply Nat.leb_gt in E. symmetry. apply Nat.leb_gt. lia. }
    destruct (n <=? length (rest c)) eqn:E; [|reflexivity].
    apply Nat.leb_le in E.
    change (forallb (in_cset isdecimal Digit) (take n (rest c)))
      with (forallb isdecimal (take n (rest c))).
    destruct (forallb isdecimal (take n (rest c))); [|reflexivity].
    cbn [andb]. rewrite IH, advance_rest, advance_advance by exact E.
    reflexivity.
  - change (shape_regex (Sep ch :: sh) ++ r)
      with (Rep (Lit ch) 1 (Some 1) :: (shape_regex sh ++ r)).
    rewrite match_here_fixed.
    change (shape_len (Sep ch :: sh)) with (S (shape_len sh)).
    destruct (rest c) as [|x s] eqn:Hs; [reflexivity|].
    cbn [length Nat.leb take forallb has_shape in_cset andb].
    rewrite andb_true_r.
    destruct (x =? ch)%N; [|reflexivity]. cbn [andb].
    rewrite IH, advance_rest, Hs.
    change (drop 1 (x :: s)) with s.
    rewrite advance_advance by (rewrite Hs; simpl; lia).
    reflexivity.
Qed.

Lemma process_number_re_shape :
  PROCESS_NUMBER_RE = AtBoundary :: shape_regex case_number_shape ++ [AtBoundary].
Proof. reflexivity. Qed.

(** What the case-number pattern does at an offset of the subject. *)
Lemma match_at_process_number text i :
  i <= length text ->
  match_at PROCESS_NUMBER_RE (cursor_at text i) =
  if at_boundary isalnum (cursor_at text i)
     && has_shape case_number_shape (substr text i (i + 25))
     && at_boundary isalnum (cursor_at text (i + 25))
  then Some (Match i (i + 25) no_captures)
  else None.
Proof.
  intros Hi. unfold Re.match_at.
  rewrite process_number_re_shape.
  cbn [Re.match_here].
  destruct (at_boundary isalnum (cursor_at text i)); [|reflexivity].
  rewrite match_here_shape, cursor_at_rest.
  change (shape_len case_number_shape) with 25.
  unfold substr. replace (i + 25 - i) with 25 by lia.
  cbn [andb].
  destruct (has_shape case_number_shape (take 25 (drop i text))); [|reflexivity].
  cbn [andb Re.match_here].
  rewrite cursor_at_advance by exact Hi.
  destruct (at_boundary isalnum (cursor_at text (i + 25))); [|reflexivity].
  rewrite !cursor_at_pos. reflexivity.
Qed.

Hypothesis decimal_alnum : forall c, isdecimal c = true -> isalnum c = true.

Lemma decimal_word c : isdecimal c = true -> isword isalnum c = true.
Proof. intros H. unfold isword. rewrite (decimal_alnum c H). reflexivity. Qed.

(** A string of the canonical shape starts and ends with a digit. *)
Lemma case_number_shape_ends m :
  has_shape case_number_shape m = true ->
  (exists c, m !! 0 = Some c /\ isdecimal c = true)
  /\ (exists c, m !! 24 = Some c /\ isdecimal c = true).
Proof.
  intros H. pose proof (has_shape_length _ _ H) as Hlen.
  change (shape_len case_number_shape) with 25 in Hlen.
  do 25 (destruct m as [|? m]; [discriminate Hlen|]).
  destruct m; [|discriminate Hlen].
  clear Hlen. cbn in H.
  repeat match goal with
         | H' : _ && _ = true |- _ => apply andb_true_iff in H' as [? ?]
         end.
  split; eexists; (split; [reflexivity|]); simpl; assumption.
Qed.

Lemma substr_lookup (text : str) i n k :
  k < n -> substr text i (i + n) !! k = text !! (i + k).
Proof.
  intros Hk. unfold substr. replace (i + n - i) with n by lia.
  rewrite lookup_take_lt by exact Hk. apply lookup_drop.
Qed.

(** The pattern matches at an offset exactly when a delimited case
    number stands there. *)
Lemma match_at_process_number_iff text i :
  i <= length text ->
  match_at PROCESS_NUMBER_RE (cursor_at text i) = Some (Match i (i + 25) no_captures)
  /\ case_number_at isdecimal isalnum text i
  \/ match_at PROCESS_NUMBER_RE (cursor_at text i) = None
  /\ ~ case_number_at isdecimal isalnum text i.
Proof.
  intros Hi. rewrite (match_at_process_number text i Hi).
  unfold case_number_at.
  destruct (has_shape case_number_shape (substr text i (i + 25))) eqn:Hsh.
  2:{ right. rewrite andb_false_r. split; [reflexivity|]. intros [? _]. discriminate. }
  destruct (case_number_shape_ends _ Hsh) as [(c0 & Hc0 & Hd0) (c24 & Hc24 & Hd24)].
  rewrite substr_lookup in Hc0, Hc24 by lia.
  rewrite Nat.add_0_r in Hc0.
  assert (Hb1 : at_boundary isalnum (cursor_at text i)
                = negb (match i with 0 => false | S j => word_at isalnum text j end)).
  { unfold at_boundary, word_before, word_after, word_at.
    rewrite cursor_at_prev, cursor_at_rest.
    rewrite (drop_S _ _ _ Hc0). rewrite (decimal_word _ Hd0).
    destruct i as [|j]; [reflexivity|].
    destruct (text !! j); [|reflexivity].
    destruct (isword isalnum c); reflexivity. }
  assert (Hb2 : at_boundary isalnum (cursor_at text (i + 25))
                = negb (word_at isalnum text (i + 25))).
  { unfold at_boundary, word_before, word_after, word_at.
    rewrite cursor_at_prev, cursor_at_rest.
    replace (i + 25) with (S (i + 24)) by lia.
    rewrite Hc24, (decimal_word _ Hd24).
    destruct (text !! S (i + 24)) as [c|] eqn:E.
    - rewrite (drop_S _ _ _ E). destruct (isword isalnum c); reflexivity.
    - rewrite drop_ge; [reflexivity|]. apply lookup_ge_None. exact E. }
  rewrite Hb1, Hb2. cbn [andb]. rewrite andb_true_r.
  destruct i as [|j].
  - cbn [negb andb].
    destruct (word_at isalnum text (0 + 25)) eqn:E; cbn [negb].
    + right. split; [reflexivity|]. intros (_ & _ & H). discriminate.
    + left. split; [reflexivity|]. auto.
  - replace (S j - 1) with j by lia.
    destruct (word_at isalnum text j) eqn:E1; cbn [negb andb].
    + right. split; [reflexivity|]. intros (_ & [H|H] & _); discriminate.
    + destruct (word_at isalnum text (S j + 25)) eqn:E; cbn [negb].
      * right. split; [reflexivity|]. intros (_ & _ & H). discriminate.
      * left. split; [reflexivity|]. auto.
Qed.

Lemma case_number_at_in_range text j :
  case_number_at isdecimal isalnum text j -> j + 25 <= length text.
Proof.
  intros [H _]. apply has_shape_length in H.
  change (shape_len case_number_shape) with 25 in H.
  unfold substr in H. rewrite length_take, length_drop in H. lia.
Qed.

(** C4, amended.  Case-number parsing returns the first substring of
    the text that has the canonical shape (7 digits, "-", 2 digits, ".",
    4 digits, ".", 1 digit, ".", 2 digits, ".", 4 digits) and is neither
    preceded nor followed by a word character, verbatim; when the text
    has no such substring it raises [BuildDbError] with the message that
    the case number could not be identified.  (Decimal digits are
    alphanumeric, as in every version of the Unicode tables.) *)
Theorem parse_case_number_first_delimited (text : str) :
  match _parse_case_number isdecimal isalnum text with
  | Ok m =>
      exists i, m = substr text i (i + 25)
        /\ case_number_at isdecimal isalnum text i
        /\ forall j, case_number_at isdecimal isalnum text j -> i <= j
  | Raise e =>
      e = Exn BuildDbError msg_no_case_number None
      /\ forall j, ~ case_number_at isdecimal isalnum text j
  end.
Proof.
  unfold _parse_case_number, search.
  destruct (search_from isdecimal isalnum PROCESS_NUMBER_RE 0 None text)
    as [m|] eqn:Hs.
  - apply (search_from_some isdecimal isalnum _ (Cursor 0 None text)) in Hs.
    destruct Hs as (k & Hk & Hm & Hfirst). simpl in Hk.
    fold (cursor_at text k) in Hm.
    destruct (match_at_process_number_iff text k Hk) as [[Hm' Hc]|[Hm' _]];
      [|congruence].
    assert (m = Match k (k + 25) no_captures) by congruence. subst m.
    exists k. split; [reflexivity|]. split; [exact Hc|].
    intros j Hj. destruct (Nat.le_gt_cases k j) as [|Hlt]; [assumption|].
    exfalso. specialize (Hfirst j Hlt). fold (cursor_at text j) in Hfirst.
    destruct (match_at_process_number_iff text j) as [[Hm'' _]|[_ Hn]];
      [lia|congruence|contradiction].
  - split; [reflexivity|]. intros j Hj.
    pose proof (case_number_at_in_range text j Hj) as Hr.
    pose proof (search_from_none isdecimal isalnum _ (Cursor 0 None text) Hs j)
      as Hnone.
    simpl in Hnone. fold (cursor_at text j) in Hnone.
    destruct (match_at_process_number_iff text j) as [[Hm'' _]|[_ Hn]];
      [lia| |contradiction].
    rewrite Hnone in Hm'' by lia. discriminate.
Qed.

End CaseNumber.

(** ** Events, line by line *)

(** *** Lines *)

Lemma no_lf_nil : no_lf [].
Proof. constructor. Qed.

Lemma lines_of_no_lf (l : str) : no_lf l -> lines_of l = [l].
Proof.
  induction 1 as [|c l Hc _ IH]; [reflexivity|]. simpl.
  rewrite (proj2 (N.eqb_neq c LF) Hc), IH. reflexivity.
Qed.

Lemma lines_of_app_lf (l more : str) :
  no_lf l -> lines_of (l ++ LF :: more) = l :: lines_of more.
Proof.
  induction 1 as [|c l Hc _ IH]; [reflexivity|]. simpl.
  rewrite (proj2 (N.eqb_neq c LF) Hc), IH. reflexivity.
Qed.

Lemma lines_of_not_nil (s : str) : lines_of s <> [].
Proof.
  induction s as [|c s IH]; simpl; [discriminate|].
  destruct (c =? LF)%N; [discriminate|].
  destruct (lines_of s); discriminate.
Qed.

Lemma lines_of_no_lf_all (s : str) : Forall no_lf (lines_of s).
Proof.
  induction s as [|c s IH]; simpl; [repeat constructor|].
  destruct (N.eqb_spec c LF) as [->|Hc].
  - constructor; [constructor|exact IH].
  - destruct (lines_of s) as [|l ls]; [repeat constructor; exact Hc|].
    apply Forall_cons in IH as [Hl Hls].
    constructor; [constructor; assumption|exact Hls].
Qed.

Lemma unlines_lines_of (s : str) : unlines (lines_of s) = s.
Proof.
  induction s as [|c s IH]; [reflexivity|]. simpl.
  destruct (N.eqb_spec c LF) as [->|Hc].
  - pose proof (lines_of_not_nil s) as Hn.
    destruct (lines_of s) as [|l ls] eqn:E; [contradiction|].
    simpl in *. rewrite IH. reflexivity.
  - pose proof (lines_of_not_nil s) as Hn.
    destruct (lines_of s) as [|l ls] eqn:E; [contradiction|].
    destruct ls as [|l' ls]; simpl in *; rewrite <- IH; reflexivity.
Qed.

Lemma unlines_cons (l l' : str) (ls : list str) :
  unlines (l :: l' :: ls) = l ++ LF :: unlines (l' :: ls).
Proof. reflexivity. Qed.

Section Lines.

Variable isdecimal : char -> bool.
Variable isalnum : char -> bool.

Local Abbreviation match_at := (match_at isdecimal isalnum).
Local Abbreviation finditer_from := (finditer_from isdecimal isalnum).

(** While it skips, [finditer] looks at nothing. *)
Lemma finditer_skip r (a b : str) p pv :
  finditer_from r (length a) p pv (a ++ b)
  = finditer_from r 0 (p + length a) (from_option Some pv (last a)) b.
Proof.
  revert p pv. induction a as [|x a IH]; intros p pv; simpl.
  - rewrite Nat.add_0_r. reflexivity.
  - rewrite IH. replace (S p + length a) with (p + S (length a)) by lia.
    f_equal. destruct a as [|y a]; [reflexivity|].
    rewrite last_cons_cons. destruct (last (y :: a)) eqn:E; [reflexivity|].
    apply last_None in E. discriminate.
Qed.

(** A pattern anchored at the start of a line matches nowhere inside a
    line. *)
Lemma match_at_inside_line r' p (x : char) s :
  x <> LF -> match_at (AtBol :: r') (Cursor p (Some x) s) = None.
Proof.
  intros Hx. unfold Re.match_at. simpl. unfold at_bol. simpl.
  rewrite (proj2 (N.eqb_neq x LF) Hx). reflexivity.
Qed.

Lemma finditer_inside_line r' (a rest' : str) p (x : char) :
  x <> LF -> no_lf a ->
  finditer_from (AtBol :: r') 0 p (Some x) (a ++ rest')
  = match rest' with
    | [] => []
    | y :: more =>
        finditer_from (AtBol :: r') 0 (p + length a + 1) (Some y) more
    end.
Proof.
  intros Hx Ha. revert p x Hx.
  induction Ha as [|c a Hc _ IH]; intros p x Hx.
  - destruct rest' as [|y more]; cbn [app Re.finditer_from];
      rewrite (match_at_inside_line r' p x _ Hx); [reflexivity|].
    f_equal. simpl. lia.
  - cbn [app Re.finditer_from]. rewrite (match_at_inside_line r' p x _ Hx).
    rewrite (IH (S p) c Hc). destruct rest'; [reflexivity|].
    f_equal. simpl. lia.
Qed.

(** One line of a scan by a pattern anchored at the start of a line,
    when a match at the start of the line covers the line. *)
Lemma finditer_line r' (l rest' : str) p pv :
  no_lf l ->
  (forall m, match_at (AtBol :: r') (Cursor p pv (l ++ rest')) = Some m ->
             m_end m = p + length l /\ l <> []) ->
  finditer_from (AtBol :: r') 0 p pv (l ++ rest')
  = match match_at (AtBol :: r') (Cursor p pv (l ++ rest')) with
    | Some m => [m]
    | None => []
    end
    ++ match rest' with
       | [] => []
       | y :: more =>
           finditer_from (AtBol :: r') 0 (p + length l + 1) (Some y) more
       end.
Proof.
  intros Hl Hcover.
  destruct l as [|x l].
  - cbn [app] in *.
    destruct (match_at (AtBol :: r') (Cursor p pv rest')) as [m|] eqn:E.
    + destruct (Hcover m eq_refl) as [_ H]. contradiction.
    + destruct rest' as [|y more]; cbn [Re.finditer_from]; rewrite E;
        [reflexivity|].
      simpl. f_equal. lia.
  - apply Forall_cons in Hl as [Hx Hl].
    cbn [app Re.finditer_from].
    destruct (match_at (AtBol :: r') (Cursor p pv (x :: l ++ rest'))) as [m|] eqn:E.
    + destruct (Hcover m E) as [Hend _]. rewrite Hend.
      replace (Init.Nat.pred (p + length (x :: l) - p)) with (length l)
        by (simpl; lia).
      rewrite finditer_skip. simpl. f_equal.
      destruct (last l) as [z|] eqn:Hz.
      * simpl.
        assert (Hzl : z <> LF).
        { rewrite Forall_forall in Hl. apply Hl.
          apply last_Some_elem_of. exact Hz. }
        rewrite (finditer_inside_line r' [] rest' _ z Hzl no_lf_nil).
        destruct rest'; [reflexivity|]. f_equal. simpl. lia.
      * apply last_None in Hz. subst l. simpl.
        rewrite (finditer_inside_line r' [] rest' _ x Hx no_lf_nil).
        destruct rest'; [reflexivity|]. f_equal. simpl. lia.
    + simpl. rewrite (finditer_inside_line r' l rest' (S p) x Hx Hl).
      destruct rest'; [reflexivity|]. f_equal. simpl. lia.
Qed.

End Lines.

(** *** White space and runs *)

(** *** White space *)

Lemma lstrip_split (s : str) :
  exists ws, s = ws ++ lstrip s /\ all_space ws /\ starts_solid (lstrip s).
Proof.
  induction s as [|c s (ws & Hs & Hws & Hsolid)]; simpl.
  - exists []. repeat split; constructor.
  - destruct (isspace c) eqn:E.
    + exists (c :: ws). split; [simpl; congruence|].
      split; [constructor; assumption|exact Hsolid].
    + exists []. split; [reflexivity|]. split; [constructor|exact E].
Qed.

Lemma lstrip_app_space (ws s : str) : all_space ws -> lstrip (ws ++ s) = lstrip s.
Proof.
  induction 1 as [|c ws Hc _ IH]; [reflexivity|]. simpl. rewrite Hc. exact IH.
Qed.

Lemma lstrip_solid (s : str) : starts_solid s -> lstrip s = s.
Proof. destruct s as [|c s]; simpl; [reflexivity|]. intros ->. reflexivity. Qed.

Lemma strip_app_space (ws s : str) : all_space ws -> strip (ws ++ s) = strip s.
Proof. intros H. unfold strip. rewrite (lstrip_app_space ws s H). reflexivity. Qed.

Lemma substr_middle (x y z : str) :
  substr (x ++ y ++ z) (length x) (length x + length y) = y.
Proof.
  unfold substr. rewrite drop_app_length.
  replace (length x + length y - length x) with (length y) by lia.
  apply take_app_length.
Qed.

Section RunFacts.

Variable isdecimal : char -> bool.
Variable isalnum : char -> bool.

Local Abbreviation in_cset := (in_cset isdecimal).
Local Abbreviation run := (run isdecimal).
Local Abbreviation match_here := (match_here isdecimal isalnum).
Local Abbreviation match_at := (match_at isdecimal isalnum).
Local Abbreviation has_shape := (has_shape isdecimal).

(** An unbounded run takes a prefix of the set up to a character outside
    it. *)
Lemma run_app cs (a b : str) :
  Forall (fun c => in_cset cs c = true) a ->
  match b with [] => True | c :: _ => in_cset cs c = false end ->
  run cs None (a ++ b) = length a.
Proof.
  intros Ha Hb. induction Ha as [|c a Hc _ IH]; cbn [app length Re.run].
  - destruct b as [|c b]; [reflexivity|]. cbn [Re.run]. rewrite Hb. reflexivity.
  - rewrite Hc. f_equal. exact IH.
Qed.

Lemma first_down_top {A} (f : nat -> option A) lo n x :
  lo <= n -> f n = Some x -> first_down f lo n = Some x.
Proof.
  intros Hlo Hf. destruct n; simpl.
  - destruct lo; [|lia]. simpl. rewrite Hf. reflexivity.
  - destruct (S n <? lo) eqn:E; [apply Nat.ltb_lt in E; lia|].
    rewrite Hf. reflexivity.
Qed.

(** When every shorter run fails, only the longest run counts. *)
Lemma first_down_only_top {A} (f : nat -> option A) n :
  1 <= n -> (forall k, 1 <= k -> k < n -> f k = None) ->
  first_down f 1 n = f n.
Proof.
  intros Hn Hlow. destruct (f n) as [x|] eqn:Hf.
  - apply first_down_top; assumption.
  - clear Hn. induction n as [|n IH]; [reflexivity|].
    cbn [first_down]. destruct (S n <? 1) eqn:E; [reflexivity|].
    rewrite Hf. destruct n as [|n]; [reflexivity|].
    apply IH.
    + intros k Hk1 Hk2. apply Hlow; lia.
    + apply Hlow; lia.
Qed.

(** The end of both patterns: the rest of the line in group 2, then the
    end of the line. *)
Lemma match_here_rest_of_line lo (c : cursor) caps (body rest' : str) :
  rest c = body ++ rest' -> no_lf body -> lo <= length body ->
  match rest' with [] => True | y :: _ => y = LF end ->
  match_here [GOpen 2; Rep Dot lo None; GClose 2; AtEol] c caps
  = Some (advance (length body) c,
          Captures ((2, pos c) :: starts caps)
                   ((2, pos c + length body) :: ends caps)).
Proof.
  intros Hrest Hbody Hlo Hend. cbn [Re.match_here]. rewrite Hrest.
  rewrite (run_app Dot body rest').
  - apply first_down_top; [exact Hlo|].
    assert (Heol : at_eol (advance (length body) c) = true).
    { unfold at_eol. rewrite advance_rest, Hrest, drop_app_length.
      destruct rest' as [|y ?]; [reflexivity|]. subst y. reflexivity. }
    rewrite Heol. rewrite advance_pos. reflexivity.
  - eapply Forall_impl; [exact Hbody|]. simpl. intros x Hx.
    rewrite (proj2 (N.eqb_neq x LF) Hx). reflexivity.
  - destruct rest' as [|y ?]; [exact I|]. subst y. reflexivity.
Qed.

(** A string of a shape holds no line feed, the line feed being no
    decimal digit and no separator of the shape. *)
Lemma has_shape_no_lf sh (m : str) :
  isdecimal LF = false ->
  Forall (fun x => match x with Sep c => c <> LF | Digits _ => True end) sh ->
  has_shape sh m = true -> no_lf m.
Proof.
  intros Hlf Hsh. revert m. induction Hsh as [|[n|ch] sh Hx _ IH]; intros m H.
  - destruct m; [constructor|discriminate].
  - simpl in H. apply andb_true_iff in H as [H H3].
    apply andb_true_iff in H as [_ H2].
    rewrite <- (take_drop n m). apply Forall_app. split; [|apply IH, H3].
    apply Forall_forall. intros x Hin Hxlf. subst x.
    rewrite forallb_forall in H2. rewrite (H2 LF) in Hlf; [discriminate|].
    apply list_elem_of_In, Hin.
  - simpl in H. destruct m as [|x m]; [discriminate|].
    apply andb_true_iff in H as [H1 H2]. apply N.eqb_eq in H1. subst x.
    constructor; [exact Hx|apply IH, H2].
Qed.

Lemma date_shape_no_lf :
  Forall (fun x => match x with Sep c => c <> LF | Digits _ => True end)
         date_shape.
Proof. repeat constructor; discriminate. Qed.

(** The date at the head of a line is the date at the head of the text
    from that line on. *)
Lemma take_date_line (l rest' : str) :
  isdecimal LF = false -> no_lf l ->
  match rest' with [] => True | y :: _ => y = LF end ->
  has_shape date_shape (take 10 (l ++ rest'))
  = has_shape date_shape (take 10 l).
Proof.
  intros Hlf Hl Hend.
  destruct (Nat.le_gt_cases 10 (length l)) as [Hlen|Hlen].
  - rewrite take_app_le by exact Hlen. reflexivity.
  - destruct (has_shape date_shape (take 10 l)) eqn:E1.
    { apply has_shape_length in E1. rewrite length_take in E1.
      change (shape_len date_shape) with 10 in E1. lia. }
    destruct (has_shape date_shape (take 10 (l ++ rest'))) eqn:E2;
      [|reflexivity].
    exfalso. pose proof (has_shape_length _ _ _ E2) as Hlen2.
    change (shape_len date_shape) with 10 in Hlen2.
    apply (has_shape_no_lf _ _ Hlf date_shape_no_lf) in E2.
    destruct rest' as [|y rest'].
    + rewrite app_nil_r, length_take in Hlen2. lia.
    + subst y. rewrite take_app_ge in E2 by lia.
      apply Forall_app in E2 as [_ E2].
      destruct (10 - length l) as [|k] eqn:Hk; [lia|].
      simpl in E2. apply Forall_cons in E2 as [E2 _]. contradiction.
Qed.

End RunFacts.

(** *** The two date patterns *)

Lemma movement_re_dated : MOVEMENT_RE = dated dash_tail.
Proof. reflexivity. Qed.

Lemma fallback_re_dated : fallback_date_re = dated bare_tail.
Proof. reflexivity. Qed.

Section DatedLines.

Variable isdecimal : char -> bool.
Variable isalnum : char -> bool.

Local Abbreviation match_here := (match_here isdecimal isalnum).
Local Abbreviation match_at := (match_at isdecimal isalnum).
Local Abbreviation has_shape := (has_shape isdecimal).

Hypothesis lf_not_decimal : isdecimal LF = false.

(** A line that does not start with a date matches neither pattern. *)
Lemma dated_no_date tail p pv (l rest' : str) :
  no_lf l -> line_end rest' ->
  has_shape date_shape (take 10 l) = false ->
  match_at (dated tail) (Cursor p pv (l ++ rest')) = None.
Proof.
  intros Hl Hend Hd. unfold Re.match_at, dated. cbn [Re.match_here].
  destruct (at_bol _); [|reflexivity].
  rewrite match_here_shape. cbn [rest].
  change (shape_len date_shape) with 10.
  rewrite (take_date_line isdecimal l rest' lf_not_decimal Hl Hend), Hd.
  reflexivity.
Qed.

(** On a line that starts with a date, white space and something solid,
    the white space is taken whole or shortened from its end. *)
Lemma dated_date tail p pv (date ws a : str) :
  at_bol (Cursor p pv (date ++ ws ++ a)) = true ->
  has_shape date_shape date = true ->
  all_space ws -> starts_solid a ->
  match_here (dated tail) (Cursor p pv (date ++ ws ++ a)) no_captures
  = first_down
      (fun k => match_here tail
                  (advance k (advance 10 (Cursor p pv (date ++ ws ++ a))))
                  (Captures [(1, p)] [(1, p + 10)]))
      1 (length ws).
Proof.
  intros Hbol Hd Hws Ha. unfold dated. cbn [Re.match_here]. rewrite Hbol.
  rewrite match_here_shape. cbn [rest pos starts ends no_captures].
  change (shape_len date_shape) with 10.
  pose proof (has_shape_length _ _ _ Hd) as Hlen.
  change (shape_len date_shape) with 10 in Hlen.
  rewrite <- Hlen at 1. rewrite take_app_length, Hd.
  cbn [Re.match_here]. rewrite advance_rest, advance_pos. cbn [rest pos].
  cbn [starts ends].
  replace (drop 10 (date ++ ws ++ a)) with (ws ++ a)
    by (rewrite <- Hlen, drop_app_length; reflexivity).
  rewrite (run_app isdecimal Space ws a Hws).
  - reflexivity.
  - destruct a as [|c a]; [exact I|exact Ha].
Qed.

Lemma dash_after_space r (c : cursor) caps (x : char) (s : str) :
  rest c = x :: s ->
  match_here (Rep (Lit 45%N) 1 (Some 1) :: r) c caps
  = if (x =? 45)%N then match_here r (advance 1 c) caps else None.
Proof.
  intros Hrest. rewrite match_here_fixed, Hrest. simpl.
  destruct (x =? 45)%N; reflexivity.
Qed.

Lemma space_not_dash (x : char) : isspace x = true -> (x =? 45)%N = false.
Proof.
  intros H. destruct (N.eqb_spec x 45) as [->|]; [discriminate H|reflexivity].
Qed.

Lemma advance_rest_cons (k : nat) (c : cursor) (ws a : str) :
  rest c = ws ++ a -> k <= length ws ->
  rest (advance k c) = drop k ws ++ a.
Proof.
  intros Hrest Hk. rewrite advance_rest, Hrest, drop_app_le by exact Hk.
  reflexivity.
Qed.


(** The primary pattern on a line made of a date, white space and a
    solid rest: the white space is taken whole, and a dash must follow. *)
Lemma primary_after_date p pv (date ws : str) (c0 : char) (t : str) :
  at_bol (Cursor p pv (date ++ ws ++ c0 :: t)) = true ->
  has_shape date_shape date = true ->
  all_space ws -> isspace c0 = false ->
  match_here (dated dash_tail) (Cursor p pv (date ++ ws ++ c0 :: t)) no_captures
  = if (1 <=? length ws) && (c0 =? 45)%N
    then match_here
           [Rep Space 1 None; GOpen 2; Rep Dot 1 None; GClose 2; AtEol]
           (advance 1 (advance (length ws)
                         (advance 10 (Cursor p pv (date ++ ws ++ c0 :: t)))))
           (Captures [(1, p)] [(1, p + 10)])
    else None.
Proof.
  intros Hbol Hd Hws Hc0.
  rewrite (dated_date dash_tail p pv date ws (c0 :: t) Hbol Hd Hws Hc0).
  set (c10 := advance 10 (Cursor p pv (date ++ ws ++ c0 :: t))).
  assert (Hrest : rest c10 = ws ++ c0 :: t).
  { unfold c10. rewrite advance_rest. cbn [rest].
    pose proof (has_shape_length _ _ _ Hd) as Hlen.
    change (shape_len date_shape) with 10 in Hlen.
    rewrite <- Hlen, drop_app_length. reflexivity. }
  destruct (length ws) as [|n] eqn:Hn; [reflexivity|].
  change (1 <=? S n) with true. cbn [andb].
  rewrite first_down_only_top; [|lia|].
  - unfold dash_tail.
    rewrite (dash_after_space _ _ _ c0 t).
    + reflexivity.
    + rewrite (advance_rest_cons _ _ ws (c0 :: t) Hrest) by lia.
      rewrite <- Hn, drop_all. reflexivity.
  - intros k Hk1 Hk2. unfold dash_tail.
    assert (Hlk : k < length ws) by lia.
    destruct (lookup_lt_is_Some_2 ws k Hlk) as [x Hx].
    rewrite (dash_after_space _ _ _ x (drop (S k) ws ++ c0 :: t)).
    + rewrite space_not_dash; [reflexivity|].
      unfold all_space in Hws. rewrite Forall_forall in Hws. apply Hws.
      apply list_elem_of_lookup. eauto.
    + rewrite (advance_rest_cons _ _ ws (c0 :: t) Hrest) by lia.
      rewrite (drop_S _ _ _ Hx). reflexivity.
Qed.

(** The description of the primary pattern: white space, taken whole,
    and the solid rest of the line. *)
Lemma primary_description (c : cursor) caps (ws body rest' : str) :
  rest c = ws ++ body ++ rest' ->
  all_space ws -> body <> [] -> starts_solid body -> no_lf body ->
  line_end rest' ->
  match_here [Rep Space 1 None; GOpen 2; Rep Dot 1 None; GClose 2; AtEol] c caps
  = if 1 <=? length ws
    then Some (advance (length body) (advance (length ws) c),
               Captures ((2, pos c + length ws) :: starts caps)
                        ((2, pos c + length ws + length body) :: ends caps))
    else None.
Proof.
  intros Hrest Hws Hne Hsolid Hbody Hend. cbn [Re.match_here]. rewrite Hrest.
  rewrite (run_app isdecimal Space ws (body ++ rest') Hws).
  2:{ destruct body as [|b body]; [contradiction|exact Hsolid]. }
  destruct (length ws) as [|n] eqn:Hn; [reflexivity|].
  change (1 <=? S n) with true. cbv iota.
  apply first_down_top; [lia|].
  change (match_here [GOpen 2; Rep Dot 1 None; GClose 2; AtEol]
            (advance (S n) c) caps
          = Some (advance (length body) (advance (S n) c),
                  Captures ((2, pos c + S n) :: starts caps)
                           ((2, pos c + S n + length body) :: ends caps))).
  rewrite (match_here_rest_of_line isdecimal isalnum 1 (advance (S n) c) caps
             body rest').
  - rewrite advance_pos. reflexivity.
  - rewrite (advance_rest_cons _ _ ws (body ++ rest') Hrest) by lia.
    rewrite <- Hn, drop_all. reflexivity.
  - exact Hbody.
  - destruct body; [contradiction|simpl; lia].
  - exact Hend.
Qed.


Lemma dash_line_parts (date ws : str) (c0 : char) (t : str) :
  has_shape date_shape date = true -> all_space ws -> isspace c0 = false ->
  dash_line isdecimal (date ++ ws ++ c0 :: t)
  = if 1 <=? length ws
    then match t with
         | w :: description =>
             if (c0 =? 45)%N && isspace w
                && negb (bool_decide (description = []))
             then Some (date, strip description)
             else None
         | [] => None
         end
    else None.
Proof.
  intros Hd Hws Hc0. unfold dash_line.
  pose proof (has_shape_length _ _ _ Hd) as Hlen.
  change (shape_len date_shape) with 10 in Hlen.
  rewrite <- Hlen, take_app_length, drop_app_length, Hd.
  rewrite (lstrip_app_space ws (c0 :: t) Hws).
  rewrite (lstrip_solid (c0 :: t) Hc0).
  rewrite length_app. cbn [length andb].
  destruct (length ws) as [|n].
  - rewrite Nat.ltb_irrefl. reflexivity.
  - replace (S (length t) <? S n + S (length t)) with true
      by (symmetry; apply Nat.ltb_lt; lia).
    reflexivity.
Qed.

Lemma bare_line_parts (date ws : str) (c0 : char) (t : str) :
  has_shape date_shape date = true -> all_space ws -> isspace c0 = false ->
  bare_line isdecimal (date ++ ws ++ c0 :: t)
  = if 1 <=? length ws then Some (date, strip (c0 :: t)) else None.
Proof.
  intros Hd Hws Hc0. unfold bare_line.
  pose proof (has_shape_length _ _ _ Hd) as Hlen.
  change (shape_len date_shape) with 10 in Hlen.
  rewrite <- Hlen, take_app_length, drop_app_length, Hd.
  rewrite (lstrip_app_space ws (c0 :: t) Hws).
  rewrite (lstrip_solid (c0 :: t) Hc0).
  rewrite length_app. cbn [length andb].
  destruct (length ws) as [|n].
  - rewrite Nat.ltb_irrefl. reflexivity.
  - replace (S (length t) <? S n + S (length t)) with true
      by (symmetry; apply Nat.ltb_lt; lia).
    reflexivity.
Qed.

(** A settled line that starts with a date, in its parts. *)
Lemma settled_line_parts (l : str) :
  settled_line isdecimal l ->
  has_shape date_shape (take 10 l) = true ->
  exists (ws : str) (c0 : char) (t : str),
    l = take 10 l ++ ws ++ c0 :: t
    /\ all_space ws /\ isspace c0 = false
    /\ (c0 = 45%N ->
        exists (ws2 : str) (c1 : char) (t1 : str),
          t = ws2 ++ c1 :: t1 /\ all_space ws2 /\ isspace c1 = false).
Proof.
  intros Hset Hd. destruct (Hset Hd) as [H1 H2].
  destruct (lstrip_split (drop 10 l)) as (ws & HR & Hws & Hs).
  destruct (lstrip (drop 10 l)) as [|c0 t] eqn:HA; [contradiction|].
  exists ws, c0, t. split; [rewrite <- HR; symmetry; apply take_drop|].
  split; [exact Hws|]. split; [exact Hs|]. intros ->.
  specialize (H2 t eq_refl).
  destruct (lstrip_split t) as (ws2 & Ht & Hws2 & Hs2).
  destruct (lstrip t) as [|c1 t1]; [contradiction|].
  exists ws2, c1, t1. auto.
Qed.

Lemma no_lf_app (a b : str) : no_lf (a ++ b) <-> no_lf a /\ no_lf b.
Proof. apply Forall_app. Qed.

(** The primary pattern at the start of a settled line: it matches the
    whole line, giving the pair of the line, or the line is not of the
    dash form. *)
Lemma primary_line_rule (pre l rest' : str) pv :
  no_lf l -> settled_line isdecimal l -> line_end rest' ->
  at_bol (Cursor (length pre) pv (l ++ rest')) = true ->
  match match_at MOVEMENT_RE (Cursor (length pre) pv (l ++ rest')) with
  | Some m =>
      m_end m = length pre + length l /\ l <> []
      /\ dash_line isdecimal l = Some (event_of (pre ++ l ++ rest') m)
  | None => dash_line isdecimal l = None
  end.
Proof.
  intros Hl Hset Hend Hbol. rewrite movement_re_dated.
  destruct (has_shape date_shape (take 10 l)) eqn:Hd.
  2:{ rewrite dated_no_date by assumption. unfold dash_line. rewrite Hd.
      reflexivity. }
  destruct (settled_line_parts l Hset Hd)
    as (ws & c0 & t & Hparts & Hws & Hc0 & Hdash).
  set (date := take 10 l) in *.
  pose proof (has_shape_length _ _ _ Hd) as Hlen.
  change (shape_len date_shape) with 10 in Hlen.
  clearbody date. subst l. clear Hset.
  assert (Hcur : (date ++ ws ++ c0 :: t) ++ rest'
                 = date ++ ws ++ c0 :: (t ++ rest')).
  { rewrite <- !app_assoc. reflexivity. }
  unfold Re.match_at. rewrite Hcur in *.
  rewrite (primary_after_date _ pv date ws c0 (t ++ rest') Hbol Hd Hws Hc0).
  rewrite (dash_line_parts date ws c0 t Hd Hws Hc0).
  destruct (1 <=? length ws) eqn:Hn1; [|reflexivity]. cbn [andb].
  destruct (N.eqb_spec c0 45) as [Hc|Hc].
  2:{ destruct t; reflexivity. }
  destruct (Hdash Hc) as (ws2 & c1 & t1 & Ht & Hws2 & Hc1). subst t.
  assert (Hbody : no_lf (c1 :: t1)).
  { apply no_lf_app in Hl as [_ Hl]. apply no_lf_app in Hl as [_ Hl].
    apply Forall_cons in Hl as [_ Hl]. apply no_lf_app in Hl as [_ Hl].
    exact Hl. }
  set (c11 := advance 1 (advance (length ws)
                (advance 10 (Cursor (length pre) pv
                               (date ++ ws ++ c0 :: (ws2 ++ c1 :: t1) ++ rest'))))).
  assert (Hpos : pos c11 = length pre + 10 + length ws + 1).
  { unfold c11. rewrite !advance_pos. reflexivity. }
  assert (Hrest : rest c11 = ws2 ++ (c1 :: t1) ++ rest').
  { unfold c11. rewrite !advance_rest. cbn [rest].
    rewrite <- Hlen at 1. rewrite drop_app_length, drop_app_length.
    cbn [drop]. rewrite drop_0, <- app_assoc. reflexivity. }
  clearbody c11.
  rewrite (primary_description c11 _ ws2 (c1 :: t1) rest' Hrest Hws2
             ltac:(discriminate) Hc1 Hbody Hend).
  destruct ws2 as [|w ws2].
  { cbn [length Nat.leb app]. rewrite Hc1, andb_false_r. reflexivity. }
  cbn [length Nat.leb]. cbn [app].
  apply Forall_cons in Hws2 as [Hw Hws2]. rewrite Hw. cbn [andb].
  rewrite bool_decide_eq_false_2 by (destruct ws2; discriminate).
  cbn [negb m_end]. rewrite !advance_pos, Hpos.
  split.
  { rewrite !length_app. cbn [length]. rewrite length_app. cbn [length]. lia. }
  split; [destruct date; discriminate|].
  f_equal. unfold event_of, group. cbn [m_caps starts ends assoc Nat.eqb].
  cbn [m_start pos]. f_equal.
  - rewrite <- !app_assoc, <- Hlen.
    rewrite (substr_middle pre date). reflexivity.
  - rewrite (strip_app_space ws2 (c1 :: t1) Hws2).
    f_equal.
    replace (pre ++ date ++ ws ++ c0 :: w :: (ws2 ++ c1 :: t1) ++ rest')
      with ((pre ++ date ++ ws ++ c0 :: w :: ws2) ++ (c1 :: t1) ++ rest').
    2:{ rewrite <- ?app_assoc. cbn [app]. rewrite <- ?app_assoc. reflexivity. }
    replace (length pre + 10 + length ws + 1 + S (length ws2))
      with (length (pre ++ date ++ ws ++ c0 :: w :: ws2)).
    2:{ rewrite !length_app. cbn [length]. lia. }
    change (S (length t1)) with (length (c1 :: t1)).
    rewrite substr_middle. reflexivity.
Qed.


(** The fallback pattern at the start of a settled line. *)
Lemma fallback_line_rule (pre l rest' : str) pv :
  no_lf l -> settled_line isdecimal l -> line_end rest' ->
  at_bol (Cursor (length pre) pv (l ++ rest')) = true ->
  match match_at fallback_date_re (Cursor (length pre) pv (l ++ rest')) with
  | Some m =>
      m_end m = length pre + length l /\ l <> []
      /\ bare_line isdecimal l = Some (event_of (pre ++ l ++ rest') m)
  | None => bare_line isdecimal l = None
  end.
Proof.
  intros Hl Hset Hend Hbol. rewrite fallback_re_dated.
  destruct (has_shape date_shape (take 10 l)) eqn:Hd.
  2:{ rewrite dated_no_date by assumption. unfold bare_line. rewrite Hd.
      reflexivity. }
  destruct (settled_line_parts l Hset Hd)
    as (ws & c0 & t & Hparts & Hws & Hc0 & _).
  set (date := take 10 l) in *.
  pose proof (has_shape_length _ _ _ Hd) as Hlen.
  change (shape_len date_shape) with 10 in Hlen.
  clearbody date. subst l. clear Hset.
  assert (Hcur : (date ++ ws ++ c0 :: t) ++ rest'
                 = date ++ ws ++ (c0 :: t) ++ rest').
  { rewrite <- !app_assoc. reflexivity. }
  unfold Re.match_at. rewrite Hcur in *.
  rewrite (dated_date bare_tail _ pv date ws ((c0 :: t) ++ rest') Hbol Hd Hws Hc0).
  rewrite (bare_line_parts date ws c0 t Hd Hws Hc0).
  assert (Hbody : no_lf (c0 :: t)).
  { apply no_lf_app in Hl as [_ Hl]. apply no_lf_app in Hl as [_ Hl].
    exact Hl. }
  set (c10 := advance 10 (Cursor (length pre) pv
                            (date ++ ws ++ (c0 :: t) ++ rest'))).
  assert (Hpos : pos c10 = length pre + 10).
  { unfold c10. rewrite advance_pos. reflexivity. }
  assert (Hrest : rest c10 = ws ++ (c0 :: t) ++ rest').
  { unfold c10. rewrite advance_rest. cbn [rest].
    rewrite <- Hlen at 1. rewrite drop_app_length. reflexivity. }
  clearbody c10.
  destruct (length ws) as [|n] eqn:Hn; [reflexivity|].
  change (1 <=? S n) with true. cbv iota.
  rewrite (first_down_top _ 1 (S n)
             (advance (length (c0 :: t)) (advance (S n) c10),
              Captures ((2, pos (advance (S n) c10)) :: [(1, length pre)])
                       ((2, pos (advance (S n) c10) + length (c0 :: t))
                        :: [(1, length pre + 10)]))).
  2: lia.
  2:{ unfold bare_tail.
      rewrite (match_here_rest_of_line isdecimal isalnum 0 (advance (S n) c10)
                 _ (c0 :: t) rest'); [reflexivity| |exact Hbody|lia|exact Hend].
      rewrite (advance_rest_cons _ _ ws ((c0 :: t) ++ rest') Hrest) by lia.
      rewrite <- Hn, drop_all. reflexivity. }
  cbn [m_end]. rewrite !advance_pos, Hpos.
  split.
  { rewrite !length_app, <- Hn. cbn [length]. lia. }
  split; [destruct date; discriminate|].
  f_equal. unfold event_of, group. cbn [m_caps starts ends assoc Nat.eqb].
  cbn [m_start pos]. f_equal.
  - rewrite <- Hlen. rewrite (substr_middle pre date). reflexivity.
  - f_equal.
    replace (pre ++ date ++ ws ++ (c0 :: t) ++ rest')
      with ((pre ++ date ++ ws) ++ (c0 :: t) ++ rest')
      by (rewrite <- ?app_assoc; reflexivity).
    replace (length pre + 10 + S n) with (length (pre ++ date ++ ws))
      by (rewrite !length_app; lia).
    rewrite substr_middle. reflexivity.
Qed.

(** A scan by a pattern anchored at line starts whose matches cover
    their lines goes line by line. *)
Lemma scan_by_lines r' (lm : str -> option event) (ls : list str) :
  (forall (pre l rest' : str) pv,
      no_lf l -> settled_line isdecimal l -> line_end rest' ->
      at_bol (Cursor (length pre) pv (l ++ rest')) = true ->
      match match_at (AtBol :: r') (Cursor (length pre) pv (l ++ rest')) with
      | Some m =>
          m_end m = length pre + length l /\ l <> []
          /\ lm l = Some (event_of (pre ++ l ++ rest') m)
      | None => lm l = None
      end) ->
  forall (pre : str) pv,
    ls <> [] -> Forall no_lf ls -> Forall (settled_line isdecimal) ls ->
    at_bol (Cursor (length pre) pv (unlines ls)) = true ->
    map (event_of (pre ++ unlines ls))
        (finditer_from isdecimal isalnum (AtBol :: r') 0 (length pre) pv
           (unlines ls))
    = omap lm ls.
Proof.
  intros Hrule. induction ls as [|l ls IH]; intros pre pv Hne Hlf Hset Hbol;
    [contradiction|].
  apply Forall_cons in Hlf as [Hl Hlf]. apply Forall_cons in Hset as [Hs Hset].
  destruct ls as [|l' ls].
  - cbn [unlines] in *.
    specialize (Hrule pre l [] pv Hl Hs I).
    rewrite app_nil_r in Hrule. specialize (Hrule Hbol).
    rewrite <- (app_nil_r l) at 2.
    rewrite (finditer_line isdecimal isalnum r' l [] _ pv Hl).
    2:{ rewrite app_nil_r. intros m Hm. rewrite Hm in Hrule. tauto. }
    repeat rewrite app_nil_r.
    destruct (match_at (AtBol :: r') (Cursor (length pre) pv l)) as [m|];
      cbn [omap list_omap map app].
    + destruct Hrule as (_ & _ & ->). reflexivity.
    + rewrite Hrule. reflexivity.
  - rewrite unlines_cons in *.
    specialize (Hrule pre l (LF :: unlines (l' :: ls)) pv Hl Hs eq_refl Hbol).
    rewrite (finditer_line isdecimal isalnum r' l _ _ pv Hl).
    2:{ intros m Hm. rewrite Hm in Hrule. tauto. }
    rewrite map_app.
    specialize (IH (pre ++ l ++ [LF]) (Some LF) ltac:(discriminate) Hlf Hset
                  eq_refl).
    replace ((pre ++ l ++ [LF]) ++ unlines (l' :: ls))
      with (pre ++ l ++ LF :: unlines (l' :: ls)) in IH
      by (rewrite <- ?app_assoc; reflexivity).
    replace (length (pre ++ l ++ [LF])) with (length pre + length l + 1) in IH
      by (rewrite !length_app; simpl; lia).
    rewrite IH.
    destruct (match_at (AtBol :: r')
                (Cursor (length pre) pv (l ++ LF :: unlines (l' :: ls))))
      as [m|]; cbn [omap list_omap map app].
    + destruct Hrule as (_ & _ & ->). reflexivity.
    + rewrite Hrule. reflexivity.
Qed.

(** On a settled text, event parsing goes line by line: it returns the
    pairs of the lines of the dash form, in line order, or, when there is
    none, those of the lines of the bare form. *)
Lemma parse_events_by_line (text : str) :
  settled isdecimal text ->
  _parse_events isdecimal isalnum text = events_by_line isdecimal text.
Proof.
  intros Hset. unfold _parse_events, events_by_line, finditer.
  pose proof (unlines_lines_of text) as Htext.
  pose proof (lines_of_not_nil text) as Hne.
  pose proof (lines_of_no_lf_all text) as Hlf.
  assert (Hp : map (event_of text)
                 (finditer_from isdecimal isalnum MOVEMENT_RE 0 0 None text)
               = omap (dash_line isdecimal) (lines_of text)).
  { rewrite <- Htext at 1 2.
    apply (scan_by_lines _ (dash_line isdecimal) (lines_of text)
             primary_line_rule [] None Hne Hlf Hset eq_refl). }
  assert (Hf : map (event_of text)
                 (finditer_from isdecimal isalnum fallback_date_re 0 0 None text)
               = omap (bare_line isdecimal) (lines_of text)).
  { rewrite <- Htext at 1 2.
    apply (scan_by_lines _ (bare_line isdecimal) (lines_of text)
             fallback_line_rule [] None Hne Hlf Hset eq_refl). }
  unfold event_of in Hp, Hf. cbv zeta. rewrite Hp, Hf. reflexivity.
Qed.

End DatedLines.

(** ** Titles *)

(** *** Title derivation *)

Lemma lstrip_all_space (s : str) :
  Forall (fun c => isspace c = true) s -> lstrip s = [].
Proof.
  induction 1 as [|c s Hc _ IH]; simpl; [reflexivity|].
  rewrite Hc. exact IH.
Qed.

Lemma strip_all_space (s : str) :
  Forall (fun c => isspace c = true) s -> strip s = [].
Proof.
  intros H. unfold strip, rstrip. rewrite (lstrip_all_space s H). reflexivity.
Qed.

(** The lines of a text are made of its characters. *)
Lemma splitlines_chars (P : char -> Prop) (s : str) :
  Forall P s -> Forall (Forall P) (splitlines s).
Proof.
  remember (length s) as n eqn:Hn. revert s Hn.
  induction n as [n IH] using lt_wf_ind. intros s Hn Hs.
  destruct s as [|c s]; simpl; [constructor|].
  apply Forall_cons in Hs as [Hc Hs].
  destruct (islinebreak c).
  - constructor; [constructor|].
    destruct s as [|d s']; [constructor|].
    destruct ((c =? CR)%N && (d =? LF)%N).
    + apply Forall_cons in Hs as [_ Hs].
      apply (IH (length s')); [simpl in Hn; lia|reflexivity|exact Hs].
    + apply (IH (length (d :: s'))); [simpl in *; lia|reflexivity|exact Hs].
  - assert (H : Forall (Forall P) (splitlines s)).
    { apply (IH (length s)); [simpl in Hn; lia|reflexivity|exact Hs]. }
    destruct (splitlines s) as [|l ls]; repeat constructor; auto.
    + apply Forall_cons in H as [Hl _]. exact Hl.
    + apply Forall_cons in H as [_ Hls]. exact Hls.
Qed.

Lemma first_title_skips_blanks blanks lines :
  Forall blank blanks -> first_title (blanks ++ lines) = first_title lines.
Proof.
  induction 1 as [|l blanks Hl _ IH]; simpl; [reflexivity|].
  unfold blank in Hl. rewrite Hl. exact IH.
Qed.

Lemma first_title_all_blank lines :
  Forall blank lines -> first_title lines = placeholder_title.
Proof.
  intros H. rewrite <- (app_nil_r lines).
  rewrite (first_title_skips_blanks _ _ H). reflexivity.
Qed.

Lemma first_title_length lines : length (first_title lines) <= 200.
Proof.
  induction lines as [|l lines IH]; simpl.
  - vm_compute. lia.
  - destruct (strip l) eqn:E; [exact IH|].
    rewrite length_take. lia.
Qed.

Lemma first_nonblank_split (lines : list str) :
  Forall blank lines
  \/ exists blanks line rest,
       lines = blanks ++ line :: rest /\ Forall blank blanks /\ ~ blank line.
Proof.
  induction lines as [|l lines IH]; [left; constructor|].
  destruct (decide (strip l = [])) as [Hl|Hl].
  - destruct IH as [IH|(blanks & line & rest & -> & Hb & Hn)].
    + left. constructor; assumption.
    + right. exists (l :: blanks), line, rest. repeat split; auto.
  - right. exists [], l, lines. repeat split; auto.
Qed.

(** C9.  The derived title is the first line of the text that is not
    blank after trimming, trimmed and cut to at most 200 characters; when
    every line is blank, in particular when the text is all white space,
    it is the fixed placeholder.  The text of two line feeds,
    "Hello World", a line feed and "More text" yields "Hello World". *)
Theorem derive_title_first_nonblank_line (text : str) :
  (Forall blank (splitlines text)
   \/ exists blanks line rest,
        splitlines text = blanks ++ line :: rest
        /\ Forall blank blanks /\ ~ blank line)
  /\ (forall blanks line rest,
      splitlines text = blanks ++ line :: rest ->
      Forall blank blanks -> ~ blank line ->
      _derive_title text = take 200 (strip line))
  /\ (Forall blank (splitlines text) -> _derive_title text = placeholder_title)
  /\ (Forall (fun c => isspace c = true) text ->
      _derive_title text = placeholder_title)
  /\ length (_derive_title text) <= 200
  /\ _derive_title hello_text = str_of "Hello World".
Proof.
  unfold _derive_title. split; [apply first_nonblank_split|]. repeat split.
  - intros blanks line rest Hsplit Hblanks Hline. rewrite Hsplit.
    rewrite (first_title_skips_blanks _ _ Hblanks). simpl.
    unfold blank in Hline. destruct (strip line); [contradiction|reflexivity].
  - apply first_title_all_blank.
  - intros Hsp. apply first_title_all_blank.
    apply (splitlines_chars _ _) in Hsp.
    eapply Forall_impl; [exact Hsp|]. intros l Hl. apply strip_all_space, Hl.
  - apply first_title_length.
Qed.

(** ** Text extraction *)

(** *** Text extraction *)

Section Extraction.

Variable bytes_repr : bytes -> str.
Variable decode_utf8_ignore : bytes -> str.

Local Abbreviation converter := (path -> path -> fs -> Z * bytes * fs).
Local Abbreviation extract conv :=
  (extract_text_from_pdf conv bytes_repr decode_utf8_ignore).

Lemma extract_unavailable (pdf dest : path) (s s1 : fs) :
  mkdir_parents (path_parent dest) s = (Ok tt, s1) ->
  extract None pdf dest s =
  (Raise (Exn PdfTextExtractionError msg_unavailable (Some FileNotFoundError)), s1).
Proof.
  intros Hmk. unfold extract_text_from_pdf, mbind_. rewrite Hmk. reflexivity.
Qed.

Lemma extract_failed (conv : converter) (pdf dest : path) (s s1 s2 : fs)
    (code : Z) (err : bytes) :
  mkdir_parents (path_parent dest) s = (Ok tt, s1) ->
  conv pdf dest s1 = (code, err, s2) ->
  code <> 0%Z ->
  extract (Some conv) pdf dest s =
  (Raise (Exn PdfTextExtractionError (msg_failed bytes_repr pdf err)
              (Some CalledProcessError)), s2).
Proof.
  intros Hmk Hconv Hcode.
  unfold extract_text_from_pdf, mbind_, subprocess_run.
  rewrite Hmk, Hconv.
  destruct (code =? 0)%Z eqn:E; [apply Z.eqb_eq in E; contradiction|].
  reflexivity.
Qed.

Lemma messages_differ pdf err : msg_unavailable <> msg_failed bytes_repr pdf err.
Proof. unfold msg_unavailable, msg_failed. simpl. intros H. discriminate H. Qed.

(** C6, amended.  Once the scratch directory exists, extraction raises
    [PdfTextExtractionError] both when the converter cannot be found and
    when it exits with a non-zero status: the error kind is the same.
    The two causes differ in the message (a fixed text for the missing
    converter; the file name and the converter's diagnostic output for
    the failed conversion) and in the chained cause ([FileNotFoundError]
    against [CalledProcessError]). *)
Theorem extraction_failures_share_kind (conv : converter) (pdf dest : path)
    (s s1 s2 : fs) (code : Z) (err : bytes) :
  mkdir_parents (path_parent dest) s = (Ok tt, s1) ->
  conv pdf dest s1 = (code, err, s2) ->
  code <> 0%Z ->
  exists missing failed,
    extract None pdf dest s = (Raise missing, s1)
    /\ extract (Some conv) pdf dest s = (Raise failed, s2)
    /\ exn_kind missing = PdfTextExtractionError
    /\ exn_kind failed = PdfTextExtractionError
    /\ exn_message missing = msg_unavailable
    /\ exn_message failed = msg_failed bytes_repr pdf err
    /\ exn_message missing <> exn_message failed
    /\ exn_cause missing = Some FileNotFoundError
    /\ exn_cause failed = Some CalledProcessError.
Proof.
  intros Hmk Hconv Hcode.
  eexists _, _. split; [apply (extract_unavailable _ _ _ _ Hmk)|].
  split; [apply (extract_failed _ _ _ _ _ _ _ _ Hmk Hconv Hcode)|].
  simpl. repeat split. apply messages_differ.
Qed.

(** C7, amended.  When extraction returns the text, the scratch file
    has been deleted before the call returns.  When extraction raises
    (converter missing, non-zero exit, output unreadable), nothing is
    deleted: the file system is left as the converter left it. *)
Theorem scratch_file_deleted_on_success (conv : option converter)
    (pdf dest : path) (s s1 s' : fs) outcome :
  mkdir_parents (path_parent dest) s = (Ok tt, s1) ->
  extract conv pdf dest s = (outcome, s') ->
  match outcome with
  | Ok text =>
      s' = delete dest (after_converter conv pdf dest s1)
      /\ s' !! dest = None
      /\ exists content,
           after_converter conv pdf dest s1 !! dest = Some (RegularFile content)
           /\ text = decode_utf8_ignore content
  | Raise e => s' = after_converter conv pdf dest s1
  end.
Proof.
  intros Hmk Hrun.
  unfold extract_text_from_pdf, mbind_, after_converter in *.
  rewrite Hmk in Hrun.
  destruct (subprocess_run conv pdf dest s1) as [[|code err] s2] eqn:Hsub; simpl.
  - inversion Hrun; subst. reflexivity.
  - destruct (code =? 0)%Z.
    + unfold read_text, unlink_missing_ok, ret in Hrun.
      destruct (s2 !! dest) as [[content| |]|] eqn:Hd.
      * rewrite Hd in Hrun. inversion Hrun; subst.
        split; [reflexivity|]. split; [apply lookup_delete_eq|].
        exists content. split; reflexivity.
      * inversion Hrun; subst. reflexivity.
      * inversion Hrun; subst. reflexivity.
      * inversion Hrun; subst. reflexivity.
    + inversion Hrun; subst. reflexivity.
Qed.

End Extraction.

(** ** The process table *)

(** *** The process table under the upsert *)

Lemma existsb_has_number number (rows : list process_row) :
  existsb (has_number number) rows = true <-> number ∈ map p_number rows.
Proof.
  rewrite existsb_exists, list_elem_of_fmap. unfold has_number. split.
  - intros (r & Hin & Hr). apply bool_decide_eq_true in Hr.
    exists r. split; [auto|]. apply list_elem_of_In, Hin.
  - intros (r & Hr & Hin). exists r. split; [apply list_elem_of_In, Hin|].
    apply bool_decide_eq_true. auto.
Qed.

Lemma retitle_number number ttl pdf_path r :
  p_number (retitle number ttl pdf_path r) = p_number r.
Proof. unfold retitle. destruct (has_number number r); reflexivity. Qed.

Lemma retitle_id number ttl pdf_path r :
  p_id (retitle number ttl pdf_path r) = p_id r.
Proof. unfold retitle. destruct (has_number number r); reflexivity. Qed.

Lemma upsert_existing number ttl pdf_path now t :
  number ∈ map p_number (processes t) ->
  processes (upsert_process number ttl pdf_path now t)
  = map (retitle number ttl pdf_path) (processes t).
Proof.
  intros H. apply existsb_has_number in H. unfold upsert_process.
  rewrite H. reflexivity.
Qed.

Lemma upsert_fresh number ttl pdf_path now t :
  number ∉ map p_number (processes t) ->
  processes (upsert_process number ttl pdf_path now t)
  = processes t
    ++ [ProcessRow (next_rowid (map p_id (processes t)) (seq_processes t))
                   number ttl pdf_path now].
Proof.
  intros H. unfold upsert_process.
  destruct (existsb (has_number number) (processes t)) eqn:E; [|reflexivity].
  apply existsb_has_number in E. contradiction.
Qed.

Lemma upsert_other_tables number ttl pdf_path now t :
  t_events (upsert_process number ttl pdf_path now t) = t_events t
  /\ documents (upsert_process number ttl pdf_path now t) = documents t.
Proof.
  unfold upsert_process.
  destruct (existsb (has_number number) (processes t)); split; reflexivity.
Qed.

Lemma upsert_numbers number ttl pdf_path now t :
  map p_number (processes (upsert_process number ttl pdf_path now t))
  = if bool_decide (number ∈ map p_number (processes t))
    then map p_number (processes t)
    else map p_number (processes t) ++ [number].
Proof.
  destruct (bool_decide_reflect (number ∈ map p_number (processes t))) as [H|H].
  - rewrite (upsert_existing _ _ _ _ _ H).
    rewrite map_map. apply map_ext. intros r. apply retitle_number.
  - rewrite (upsert_fresh _ _ _ _ _ H), map_app. reflexivity.
Qed.

Lemma upsert_unique number ttl pdf_path now t :
  unique_numbers t -> unique_numbers (upsert_process number ttl pdf_path now t).
Proof.
  unfold unique_numbers. intros H. rewrite upsert_numbers.
  destruct (bool_decide_reflect (number ∈ map p_number (processes t))) as [Hin|Hin];
    [exact H|].
  apply NoDup_app. split; [exact H|]. split.
  - intros x Hx Hx'. apply list_elem_of_singleton in Hx'. subst. contradiction.
  - apply NoDup_singleton.
Qed.

Lemma find_retitle number ttl pdf_path (rows : list process_row) :
  p_id <$> find (has_number number) (map (retitle number ttl pdf_path) rows)
  = p_id <$> find (has_number number) rows.
Proof.
  induction rows as [|r rows IH]; [reflexivity|]. simpl.
  assert (H : has_number number (retitle number ttl pdf_path r)
              = has_number number r).
  { unfold has_number. rewrite retitle_number. reflexivity. }
  rewrite H. destruct (has_number number r); [|exact IH].
  simpl. rewrite retitle_id. reflexivity.
Qed.

Lemma find_has_number_none number (rows : list process_row) :
  number ∉ map p_number rows -> find (has_number number) rows = None.
Proof.
  induction rows as [|r rows IH]; [reflexivity|]. simpl. intros H.
  apply not_elem_of_cons in H as [H1 H2].
  unfold has_number at 1. rewrite bool_decide_eq_false_2 by congruence. auto.
Qed.

Lemma find_has_number_some number (rows : list process_row) :
  number ∈ map p_number rows ->
  exists r, find (has_number number) rows = Some r /\ r ∈ rows /\ p_number r = number.
Proof.
  induction rows as [|r rows IH]; simpl; intros H.
  - apply elem_of_nil in H. contradiction.
  - unfold has_number at 1.
    destruct (bool_decide_reflect (p_number r = number)) as [E|E].
    + exists r. repeat split; [left|exact E].
    + apply elem_of_cons in H as [H|H]; [congruence|].
      destruct (IH H) as (r' & Hf & Hin & Hn). exists r'. repeat split; auto.
      right. exact Hin.
Qed.

Lemma find_app_none {A} (f : A -> bool) (l l' : list A) :
  find f l = None -> find f (l ++ l') = find f l'.
Proof.
  induction l as [|x l IH]; simpl; [reflexivity|].
  destruct (f x); [discriminate|exact IH].
Qed.

(** The identifier the re-query finds: the one the row already had, or
    the fresh rowid of the inserted row. *)
Lemma select_after_upsert number ttl pdf_path now t :
  select_process_id number (upsert_process number ttl pdf_path now t)
  = match select_process_id number t with
    | Some id => Some id
    | None => Some (next_rowid (map p_id (processes t)) (seq_processes t))
    end.
Proof.
  unfold select_process_id.
  destruct (decide (number ∈ map p_number (processes t))) as [H|H].
  - rewrite (upsert_existing _ _ _ _ _ H), find_retitle.
    destruct (find_has_number_some _ _ H) as (r & -> & _). reflexivity.
  - rewrite (upsert_fresh _ _ _ _ _ H), (find_has_number_none _ _ H).
    rewrite (find_app_none _ _ _ (find_has_number_none _ _ H)). simpl.
    unfold has_number. simpl. rewrite bool_decide_eq_true_2 by reflexivity.
    reflexivity.
Qed.

Lemma select_after_upsert_some number ttl pdf_path now t :
  is_Some (select_process_id number (upsert_process number ttl pdf_path now t)).
Proof.
  rewrite select_after_upsert. destruct (select_process_id number t); eauto.
Qed.

(** ** Persistence *)

Section Persist.

Variable fault : nat -> bool.
Variable isoformat : nat -> str.

Local Abbreviation persist_result := (persist_result fault isoformat).
Local Abbreviation persist_import_results := (persist_import_results fault isoformat).
Local Abbreviation upserted := (upserted isoformat).
Local Abbreviation imported := (imported isoformat).

Ltac stopped_at F side :=
  match goal with
  | H : _ = (_, _) |- _ =>
      inversion H; subst; left; eexists;
      split; [|split; [exact F|split; [reflexivity|side; reflexivity]]];
      simpl; lia
  end.

(** Where an import can stop: before the upsert is committed, after it,
    or at its end. *)
Lemma persist_result_cases r c t outcome c' :
  quiescent c t ->
  persist_result r c = (outcome, c') ->
  (exists i, statements c <= i /\ fault i = true
     /\ outcome = Raise sqlite_error
     /\ (committed c' = Some t \/ committed c' = Some (upserted (clock c) r t)))
  \/ (outcome = Ok tt
      /\ exists pid,
           select_process_id (process_number r) (upserted (clock c) r t) = Some pid
           /\ quiescent c' (imported (clock c) r pid t)).
Proof.
  intros [Hc Hw] Hrun. destruct c as [cm wk n k]. simpl in Hc, Hw. subst cm wk.
  unfold persist_result, _get_process_id, mbind_, execute, commit, query,
    utcnow, ret, raise in Hrun.
  cbn in Hrun.
  destruct (fault n) eqn:F1; [stopped_at F1 ltac:(left)|]. cbn in Hrun.
  destruct (fault (S n)) eqn:F2; [stopped_at F2 ltac:(left)|]. cbn in Hrun.
  destruct (fault (S (S n))) eqn:F3; [stopped_at F3 ltac:(right)|]. cbn in Hrun.
  fold (upserted k r t) in Hrun.
  destruct (select_process_id (process_number r) (upserted k r t))
    as [pid|] eqn:Hsel.
  2:{ destruct (select_after_upsert_some (process_number r) (title r)
                  (path_str (stored_path r)) (isoformat k) t) as [x Hx].
      unfold upserted in Hsel. congruence. }
  cbn in Hrun.
  destruct (fault (S (S (S n)))) eqn:F4; [stopped_at F4 ltac:(right)|]. cbn in Hrun.
  destruct (fault (S (S (S (S n))))) eqn:F5; [stopped_at F5 ltac:(right)|]. cbn in Hrun.
  destruct (events r) as [|ev evs] eqn:Hev; cbn in Hrun.
  - destruct (fault (S (S (S (S (S n)))))) eqn:F6; [stopped_at F6 ltac:(right)|]. cbn in Hrun.
    destruct (fault (S (S (S (S (S (S n))))))) eqn:F7; [stopped_at F7 ltac:(right)|].
    inversion Hrun; subst. right. split; [reflexivity|]. exists pid.
    split; [exact Hsel|]. unfold quiescent, imported. rewrite Hev.
    split; reflexivity.
  - destruct (fault (S (S (S (S (S n)))))) eqn:F8; [stopped_at F8 ltac:(right)|]. cbn in Hrun.
    destruct (fault (S (S (S (S (S (S n))))))) eqn:F9; [stopped_at F9 ltac:(right)|]. cbn in Hrun.
    destruct (fault (S (S (S (S (S (S (S n)))))))) eqn:F10; [stopped_at F10 ltac:(right)|].
    inversion Hrun; subst. right. split; [reflexivity|]. exists pid.
    split; [exact Hsel|]. unfold quiescent, imported. rewrite Hev.
    split; reflexivity.
Qed.


Lemma persist_result_succeeds r c t :
  quiescent c t -> (forall i, fault i = false) ->
  exists c', persist_result r c = (Ok tt, c').
Proof.
  intros Hq Hnf. destruct (persist_result r c) as [outcome c'] eqn:Hrun.
  destruct (persist_result_cases _ _ _ _ _ Hq Hrun)
    as [(i & _ & Hi & _)|[-> _]].
  - rewrite Hnf in Hi. discriminate.
  - eauto.
Qed.

(** The rows the batch insert appends. *)
Lemma insert_events_spec rows t :
  exists news,
    t_events (insert_events rows t) = t_events t ++ news
    /\ map (fun e => (e_process_id e, e_event_date e, e_description e)) news = rows
    /\ processes (insert_events rows t) = processes t
    /\ documents (insert_events rows t) = documents t.
Proof.
  revert t. induction rows as [|[[pid d] desc] rows IH]; intros t.
  - exists []. simpl. rewrite app_nil_r. auto.
  - destruct (IH (insert_event (pid, d, desc) t))
      as (news & Hev & Hmap & Hp & Hd).
    change (insert_events ((pid, d, desc) :: rows) t)
      with (insert_events rows (insert_event (pid, d, desc) t)).
    rewrite Hev, Hp, Hd. simpl. rewrite <- app_assoc. simpl.
    eexists (_ :: news). split; [reflexivity|]. split; [|auto].
    simpl. rewrite Hmap. reflexivity.
Qed.

Lemma imported_processes now r pid t :
  processes (imported now r pid t) = processes (upserted now r t).
Proof.
  unfold imported. simpl.
  destruct (insert_events_spec
              (map (fun '(d, desc) => (pid, d, desc)) (events r))
              (delete_documents pid (delete_events pid (upserted now r t))))
    as (_ & _ & _ & Hp & _).
  rewrite Hp. reflexivity.
Qed.

Lemma filter_filter_neg {A} (P : A -> Prop) `{forall x, Decision (P x)}
    (l : list A) :
  filter P (filter (fun x => ~ P x) l) = [].
Proof.
  induction l as [|x l IH]; [reflexivity|].
  rewrite (filter_cons (fun x => ~ P x)). destruct (decide (~ P x)) as [Hx|Hx].
  - rewrite filter_cons. destruct (decide (P x)); [contradiction|exact IH].
  - exact IH.
Qed.

Lemma filter_all {A} (P : A -> Prop) `{forall x, Decision (P x)} (l : list A) :
  Forall P l -> filter P l = l.
Proof.
  induction 1 as [|x l Hx _ IH]; [reflexivity|].
  rewrite filter_cons. destruct (decide (P x)); [|contradiction].
  rewrite IH. reflexivity.
Qed.

Lemma filter_none {A} (P : A -> Prop) `{forall x, Decision (P x)} (l : list A) :
  Forall (fun x => ~ P x) l -> filter P l = [].
Proof.
  induction 1 as [|x l Hx _ IH]; [reflexivity|].
  rewrite filter_cons. destruct (decide (P x)); [contradiction|exact IH].
Qed.

Lemma filter_filter_other {A B} (f : A -> B) `{EqDecision B} (p q : B)
    (l : list A) :
  q <> p ->
  filter (fun x => f x = q) (filter (fun x => f x <> p) l)
  = filter (fun x => f x = q) l.
Proof.
  intros Hqp. induction l as [|x l IH]; [reflexivity|].
  rewrite (filter_cons (fun x => f x <> p)).
  destruct (decide (f x <> p)) as [Hx|Hx].
  - rewrite !filter_cons. destruct (decide (f x = q)); rewrite IH; reflexivity.
  - rewrite filter_cons. destruct (decide (f x = q)); [|exact IH].
    exfalso. apply Hx. congruence.
Qed.

(** The events and the documents of a process once its import is done,
    and those of the other processes. *)
Lemma imported_events now r pid t :
  map (fun e => (e_event_date e, e_description e))
      (events_of pid (imported now r pid t)) = events r
  /\ forall q, q <> pid ->
       events_of q (imported now r pid t) = events_of q t.
Proof.
  unfold events_of, imported. simpl.
  destruct (insert_events_spec
              (map (fun '(d, desc) => (pid, d, desc)) (events r))
              (delete_documents pid (delete_events pid (upserted now r t))))
    as (news & Hev & Hmap & _ & _).
  rewrite Hev. simpl.
  destruct (upsert_other_tables (process_number r) (title r)
              (path_str (stored_path r)) (isoformat now) t) as [Hue _].
  unfold upserted. rewrite Hue.
  assert (Hpid : Forall (fun e => e_process_id e = pid) news).
  { apply Forall_forall. intros e He.
    assert (Hin : (e_process_id e, e_event_date e, e_description e)
                  ∈ map (fun '(d, desc) => (pid, d, desc)) (events r)).
    { rewrite <- Hmap. apply list_elem_of_fmap. exists e. auto. }
    apply list_elem_of_fmap in Hin as ([d desc] & Heq & _). congruence. }
  split.
  - rewrite filter_app, filter_filter_neg, (filter_all _ _ Hpid). simpl.
    transitivity (map (fun x : Z * str * str => (x.1.2, x.2))
                      (map (fun e => (e_process_id e, e_event_date e, e_description e)) news)).
    { rewrite map_map. reflexivity. }
    rewrite Hmap, map_map. rewrite <- (map_id (events r)) at 2.
    apply map_ext. intros [d desc]. reflexivity.
  - intros q Hq. rewrite filter_app.
    rewrite (filter_filter_other e_process_id pid q _ Hq).
    rewrite (filter_none (fun e => e_process_id e = q) news), app_nil_r;
      [reflexivity|].
    eapply Forall_impl; [exact Hpid|]. simpl. intros e He. congruence.
Qed.

Lemma imported_documents now r pid t :
  (exists d, documents_of pid (imported now r pid t) = [d]
     /\ d_file_name d = path_name (stored_path r)
     /\ d_content d = document_text r)
  /\ forall q, q <> pid ->
       documents_of q (imported now r pid t) = documents_of q t.
Proof.
  unfold documents_of, imported. simpl.
  destruct (insert_events_spec
              (map (fun '(d, desc) => (pid, d, desc)) (events r))
              (delete_documents pid (delete_events pid (upserted now r t))))
    as (news & _ & _ & _ & Hd).
  rewrite Hd. simpl.
  destruct (upsert_other_tables (process_number r) (title r)
              (path_str (stored_path r)) (isoformat now) t) as [_ Hud].
  unfold upserted. rewrite Hud. split.
  - eexists. rewrite filter_app, filter_filter_neg. simpl.
    rewrite filter_cons. simpl. rewrite decide_True by reflexivity.
    rewrite filter_nil. split; [reflexivity|]. split; reflexivity.
  - intros q Hq. rewrite filter_app.
    rewrite (filter_filter_other d_process_id pid q _ Hq).
    rewrite filter_cons. simpl. rewrite decide_False by congruence.
    rewrite filter_nil, app_nil_r. reflexivity.
Qed.

Lemma imported_select now r pid t :
  select_process_id (process_number r) (imported now r pid t)
  = select_process_id (process_number r) (upserted now r t).
Proof. unfold select_process_id. rewrite imported_processes. reflexivity. Qed.

(** C2.  After an import result has been persisted, the event rows of
    its process are exactly its parsed (date, description) pairs in
    their parsed order, and the document rows of its process are exactly
    one row with the stored file name and the full extracted text: what
    the process had before is gone.  The rows of other processes are
    untouched. *)
Theorem import_replaces_events_and_documents r c t c' :
  quiescent c t ->
  persist_result r c = (Ok tt, c') ->
  exists t' pid,
    quiescent c' t'
    /\ select_process_id (process_number r) t' = Some pid
    /\ map (fun e => (e_event_date e, e_description e)) (events_of pid t')
       = events r
    /\ (exists d, documents_of pid t' = [d]
          /\ d_file_name d = path_name (stored_path r)
          /\ d_content d = document_text r)
    /\ forall q, q <> pid ->
         events_of q t' = events_of q t /\ documents_of q t' = documents_of q t.
Proof.
  intros Hq Hrun.
  destruct (persist_result_cases _ _ _ _ _ Hq Hrun)
    as [(i & _ & _ & Hout & _)|(_ & pid & Hsel & Hq')]; [discriminate|].
  exists (imported (clock c) r pid t), pid.
  destruct (imported_events (clock c) r pid t) as [He Heo].
  destruct (imported_documents (clock c) r pid t) as [Hd Hdo].
  split; [exact Hq'|]. split; [rewrite imported_select; exact Hsel|].
  split; [exact He|]. split; [exact Hd|].
  intros q Hqp. split; [apply Heo|apply Hdo]; exact Hqp.
Qed.


(** Every row survives the upsert with its identity; only the row of the
    upserted number can change, and none is added for another number. *)
Lemma upsert_keeps_rows number ttl pdf_path now t row :
  row ∈ processes t ->
  exists row',
    row' ∈ processes (upsert_process number ttl pdf_path now t)
    /\ p_id row' = p_id row /\ p_number row' = p_number row
    /\ p_created_at row' = p_created_at row
    /\ (p_number row <> number -> row' = row).
Proof.
  intros Hin. destruct (decide (number ∈ map p_number (processes t))) as [H|H].
  - rewrite (upsert_existing _ _ _ _ _ H).
    exists (retitle number ttl pdf_path row).
    split; [apply list_elem_of_fmap; eauto|].
    unfold retitle, has_number.
    destruct (bool_decide_reflect (p_number row = number)); simpl; auto.
    repeat split; auto. intros; contradiction.
  - rewrite (upsert_fresh _ _ _ _ _ H). exists row.
    split; [apply elem_of_app; left; exact Hin|]. auto.
Qed.

Lemma upsert_adds_no_other number ttl pdf_path now t row' :
  row' ∈ processes (upsert_process number ttl pdf_path now t) ->
  p_number row' <> number -> row' ∈ processes t.
Proof.
  intros Hin Hne. destruct (decide (number ∈ map p_number (processes t))) as [H|H].
  - rewrite (upsert_existing _ _ _ _ _ H) in Hin.
    apply list_elem_of_fmap in Hin as (row & -> & Hrow).
    rewrite retitle_number in Hne. unfold retitle, has_number.
    rewrite bool_decide_eq_false_2 by exact Hne. exact Hrow.
  - rewrite (upsert_fresh _ _ _ _ _ H) in Hin.
    apply elem_of_app in Hin as [Hin|Hin]; [exact Hin|].
    apply list_elem_of_singleton in Hin. subst. simpl in Hne. contradiction.
Qed.

Lemma upsert_writes_row number ttl pdf_path now t :
  exists row',
    row' ∈ processes (upsert_process number ttl pdf_path now t)
    /\ p_number row' = number /\ p_title row' = ttl
    /\ p_pdf_path row' = pdf_path.
Proof.
  destruct (decide (number ∈ map p_number (processes t))) as [H|H].
  - rewrite (upsert_existing _ _ _ _ _ H).
    destruct (find_has_number_some _ _ H) as (row & _ & Hin & Hn).
    exists (retitle number ttl pdf_path row).
    split; [apply list_elem_of_fmap; eauto|].
    unfold retitle, has_number. rewrite bool_decide_eq_true_2 by exact Hn.
    simpl. auto.
  - rewrite (upsert_fresh _ _ _ _ _ H). eexists.
    split; [apply elem_of_app; right; apply list_elem_of_singleton; reflexivity|].
    simpl. auto.
Qed.

(** One import, wherever it stops, on the process table. *)
Lemma persist_result_rows r c t outcome c' :
  quiescent c t -> unique_numbers t ->
  persist_result r c = (outcome, c') ->
  exists t',
    committed c' = Some t'
    /\ unique_numbers t'
    /\ (forall row, row ∈ processes t ->
          exists row', row' ∈ processes t'
            /\ p_id row' = p_id row /\ p_number row' = p_number row
            /\ p_created_at row' = p_created_at row
            /\ (p_number row <> process_number r -> row' = row))
    /\ (forall row', row' ∈ processes t' ->
          p_number row' <> process_number r -> row' ∈ processes t)
    /\ (outcome = Ok tt ->
          quiescent c' t'
          /\ exists row', row' ∈ processes t'
               /\ p_number row' = process_number r /\ p_title row' = title r
               /\ p_pdf_path row' = path_str (stored_path r)
               /\ select_process_id (process_number r) t' = Some (p_id row')).
Proof.
  intros Hq Hu Hrun.
  assert (Hup : forall t', processes t' = processes (upserted (clock c) r t) ->
    unique_numbers t'
    /\ (forall row, row ∈ processes t ->
          exists row', row' ∈ processes t'
            /\ p_id row' = p_id row /\ p_number row' = p_number row
            /\ p_created_at row' = p_created_at row
            /\ (p_number row <> process_number r -> row' = row))
    /\ (forall row', row' ∈ processes t' ->
          p_number row' <> process_number r -> row' ∈ processes t)
    /\ (exists row', row' ∈ processes t'
            /\ p_number row' = process_number r /\ p_title row' = title r
            /\ p_pdf_path row' = path_str (stored_path r)
            /\ select_process_id (process_number r) t' = Some (p_id row'))).
  { intros t' Hp. unfold unique_numbers, select_process_id. rewrite Hp.
    split; [apply upsert_unique, Hu|].
    split; [intros row; apply upsert_keeps_rows|].
    split; [intros row'; apply upsert_adds_no_other|].
    destruct (upsert_writes_row (process_number r) (title r)
                (path_str (stored_path r)) (isoformat (clock c)) t)
      as (row' & Hin & Hn & Ht & Hpth).
    assert (Hmem : process_number r ∈ map p_number (processes (upserted (clock c) r t))).
    { apply list_elem_of_fmap. exists row'. auto. }
    destruct (find_has_number_some _ _ Hmem) as (row1 & Hf & Hin1 & Hn1).
    assert (row1 = row').
    { pose proof (upsert_unique (process_number r) (title r)
                    (path_str (stored_path r)) (isoformat (clock c)) t Hu) as Hnd.
      unfold unique_numbers in Hnd.
      apply list_elem_of_lookup in Hin as [i Hi].
      apply list_elem_of_lookup in Hin1 as [j Hj].
      assert (i = j).
      { eapply NoDup_lookup; [exact Hnd| |].
        - rewrite list_lookup_fmap. unfold upserted in Hi. rewrite Hi. reflexivity.
        - rewrite list_lookup_fmap. unfold upserted in Hj. rewrite Hj.
          simpl. congruence. }
      subst. unfold upserted in *. congruence. }
    subst row1. exists row'. rewrite Hf. auto. }
  destruct (persist_result_cases _ _ _ _ _ Hq Hrun)
    as [(i & _ & _ & -> & [Hc|Hc])|(-> & pid & Hsel & Hq')].
  - exists t. split; [exact Hc|]. split; [exact Hu|].
    split; [intros row Hin; exists row; auto|].
    split; [auto|]. discriminate.
  - exists (upserted (clock c) r t). split; [exact Hc|].
    destruct (Hup _ eq_refl) as (H1 & H2 & H3 & _).
    split; [exact H1|]. split; [exact H2|]. split; [exact H3|]. discriminate.
  - exists (imported (clock c) r pid t). split; [apply Hq'|].
    destruct (Hup _ (imported_processes (clock c) r pid t)) as (H1 & H2 & H3 & H4).
    split; [exact H1|]. split; [exact H2|]. split; [exact H3|].
    intros _. split; [exact Hq'|exact H4].
Qed.

Lemma keeps_identity_refl t : keeps_identity t t.
Proof. intros row Hin. exists row. auto. Qed.

Lemma keeps_identity_trans t1 t2 t3 :
  keeps_identity t1 t2 -> keeps_identity t2 t3 -> keeps_identity t1 t3.
Proof.
  intros H12 H23 row Hin.
  destruct (H12 row Hin) as (row2 & Hin2 & Hi2 & Hn2 & Hc2).
  destruct (H23 row2 Hin2) as (row3 & Hin3 & Hi3 & Hn3 & Hc3).
  exists row3. repeat split; congruence.
Qed.

(** A batch, wherever it stops, on the process table. *)
Lemma persist_import_results_rows rs c t outcome c' :
  quiescent c t -> unique_numbers t ->
  persist_import_results rs c = (outcome, c') ->
  exists t',
    committed c' = Some t' /\ unique_numbers t' /\ keeps_identity t t'
    /\ forall row', row' ∈ processes t' ->
         p_number row' ∉ map process_number rs -> row' ∈ processes t.
Proof.
  revert c t. induction rs as [|r rs IH]; intros c t Hq Hu Hrun.
  - inversion Hrun; subst. exists t. split; [apply Hq|]. split; [exact Hu|].
    split; [apply keeps_identity_refl|auto].
  - simpl in Hrun. unfold mbind_ in Hrun.
    destruct (persist_result r c) as [out1 c1] eqn:Hr.
    destruct (persist_result_rows _ _ _ _ _ Hq Hu Hr)
      as (t1 & Hc1 & Hu1 & Hk1 & Hn1 & Hok).
    assert (Hk : keeps_identity t t1).
    { intros row Hin. destruct (Hk1 row Hin) as (row' & ? & ? & ? & ? & _).
      exists row'. auto. }
    destruct out1 as [[]|e].
    + destruct (Hok eq_refl) as [Hq1 _].
      destruct (IH _ _ Hq1 Hu1 Hrun) as (t' & Hc' & Hu' & Hk' & Hn').
      exists t'. split; [exact Hc'|]. split; [exact Hu'|].
      split; [eapply keeps_identity_trans; eauto|].
      intros row' Hin Hnot. simpl in Hnot.
      apply not_elem_of_cons in Hnot as [Hne Hnot].
      apply Hn1; [|exact Hne]. apply Hn'; assumption.
    + inversion Hrun; subst. exists t1. split; [exact Hc1|].
      split; [exact Hu1|]. split; [exact Hk|].
      intros row' Hin Hnot. simpl in Hnot.
      apply not_elem_of_cons in Hnot as [Hne _]. apply Hn1; assumption.
Qed.

(** C1.  The process table holds at most one row per case number, and
    keeps doing so through any batch and any single import, wherever it
    stops.  Every row that was there is still there under the same
    identifier, case number and creation time; an import changes at most
    the title and the source path of the row of its own case number, and
    adds a row only for a case number that had none.  After a complete
    import the row of its case number carries its title and path. *)
Theorem process_rows_unique_and_identity_stable rs r c t :
  quiescent c t -> unique_numbers t ->
  (forall outcome c',
      persist_import_results rs c = (outcome, c') ->
      exists t',
        committed c' = Some t' /\ unique_numbers t' /\ keeps_identity t t'
        /\ forall row', row' ∈ processes t' ->
             p_number row' ∉ map process_number rs -> row' ∈ processes t)
  /\ (forall outcome c',
        persist_result r c = (outcome, c') ->
        exists t',
          committed c' = Some t'
          /\ unique_numbers t'
          /\ (forall row, row ∈ processes t ->
                exists row', row' ∈ processes t'
                  /\ p_id row' = p_id row /\ p_number row' = p_number row
                  /\ p_created_at row' = p_created_at row
                  /\ (p_number row <> process_number r -> row' = row))
          /\ (forall row', row' ∈ processes t' ->
                p_number row' <> process_number r -> row' ∈ processes t)
          /\ (outcome = Ok tt ->
                quiescent c' t'
                /\ exists row', row' ∈ processes t'
                     /\ p_number row' = process_number r
                     /\ p_title row' = title r
                     /\ p_pdf_path row' = path_str (stored_path r)
                     /\ select_process_id (process_number r) t'
                        = Some (p_id row'))).
Proof.
  intros Hq Hu. split.
  - intros outcome c'. apply persist_import_results_rows; assumption.
  - intros outcome c'. apply persist_result_rows; assumption.
Qed.

Lemma persist_import_results_app rs1 rs2 c :
  persist_import_results (rs1 ++ rs2) c
  = match persist_import_results rs1 c with
    | (Ok _, c1) => persist_import_results rs2 c1
    | (Raise e, c1) => (Raise e, c1)
    end.
Proof.
  revert c. induction rs1 as [|r rs1 IH]; intros c; [reflexivity|].
  simpl. unfold mbind_.
  destruct (persist_result r c) as [[[]|e] c1]; [apply IH|reflexivity].
Qed.

(** After a batch that ran to its end nothing is pending. *)
Lemma persist_import_results_quiescent rs c t c1 :
  quiescent c t ->
  persist_import_results rs c = (Ok tt, c1) ->
  exists t1, quiescent c1 t1.
Proof.
  revert c t. induction rs as [|r rs IH]; intros c t Hq Hrun.
  - inversion Hrun; subst. eauto.
  - simpl in Hrun. unfold mbind_ in Hrun.
    destruct (persist_result r c) as [[[]|e] c0] eqn:Hr; [|discriminate].
    destruct (persist_result_cases _ _ _ _ _ Hq Hr)
      as [(i & _ & _ & Hout & _)|(_ & pid & _ & Hq')]; [discriminate|].
    eapply IH; eauto.
Qed.

(** C8, amended.  When the earlier results of a batch have been
    persisted and persisting a later one fails, the batch raises there,
    and what is left in the database when the connection is closed still
    has the event rows and the document rows exactly as the earlier
    results left them, and every process row under its identifier, case
    number and creation time.  The title and the path of a process row
    are those the earlier results left, except for the row of the
    failing result's own case number: its upsert is committed on its
    own, before the rest of its import, and stays when that fails. *)
Theorem earlier_commits_survive_later_failure rs1 r rs2 c t c1 e c2 :
  quiescent c t ->
  persist_import_results rs1 c = (Ok tt, c1) ->
  persist_result r c1 = (Raise e, c2) ->
  persist_import_results (rs1 ++ r :: rs2) c = (Raise e, c2)
  /\ exists t1 t2,
       quiescent c1 t1
       /\ close c2 = Some t2
       /\ t_events t2 = t_events t1
       /\ documents t2 = documents t1
       /\ forall row, row ∈ processes t1 ->
            exists row', row' ∈ processes t2
              /\ p_id row' = p_id row /\ p_number row' = p_number row
              /\ p_created_at row' = p_created_at row
              /\ (p_number row <> process_number r -> row' = row).
Proof.
  intros Hq Hpre Hfail. split.
  - rewrite persist_import_results_app, Hpre. simpl. unfold mbind_.
    rewrite Hfail. reflexivity.
  - destruct (persist_import_results_quiescent _ _ _ _ Hq Hpre) as [t1 Hq1].
    exists t1.
    destruct (persist_result_cases _ _ _ _ _ Hq1 Hfail)
      as [(i & _ & _ & _ & [Hc|Hc])|(Hout & _)]; [| |discriminate].
    + exists t1. split; [exact Hq1|]. split; [exact Hc|].
      split; [reflexivity|]. split; [reflexivity|].
      intros row Hin. exists row. auto.
    + exists (upserted (clock c1) r t1). split; [exact Hq1|]. split; [exact Hc|].
      destruct (upsert_other_tables (process_number r) (title r)
                  (path_str (stored_path r)) (isoformat (clock c1)) t1) as [He Hd].
      split; [exact He|]. split; [exact Hd|].
      intros row. apply upsert_keeps_rows.
Qed.

End Persist.

(** ** Directory listing *)

(** *** The order of paths and [sorted] *)

Lemma str_leb_total (a b : str) : str_leb a b = true \/ str_leb b a = true.
Proof.
  revert b. induction a as [|x a IH]; intros [|y b]; simpl; auto.
  destruct (N.ltb_spec x y), (N.ltb_spec y x), (N.eqb_spec x y),
    (N.eqb_spec y x); auto; try lia.
Qed.

Lemma str_leb_trans (a b c : str) :
  str_leb a b = true -> str_leb b c = true -> str_leb a c = true.
Proof.
  revert b c. induction a as [|x a IH]; intros [|y b] [|z c]; simpl; auto;
    try discriminate.
  destruct (N.ltb_spec x y), (N.ltb_spec y z), (N.ltb_spec x z),
    (N.eqb_spec x y), (N.eqb_spec y z), (N.eqb_spec x z);
    auto; try discriminate; try lia.
  apply IH.
Qed.

Lemma str_leb_antisym (a b : str) :
  str_leb a b = true -> str_leb b a = true -> a = b.
Proof.
  revert b. induction a as [|x a IH]; intros [|y b]; simpl; auto;
    try discriminate.
  destruct (N.ltb_spec x y), (N.ltb_spec y x), (N.eqb_spec x y),
    (N.eqb_spec y x); try discriminate; try lia.
  intros H1 H2. f_equal; auto.
Qed.

Lemma path_leb_total (p q : path) : path_leb p q = true \/ path_leb q p = true.
Proof.
  revert q. induction p as [|x p IH]; intros [|y q]; simpl; auto.
  destruct (bool_decide_reflect (x = y)), (bool_decide_reflect (y = x));
    try congruence; auto using str_leb_total.
Qed.

Lemma path_leb_trans (p q r : path) :
  path_leb p q = true -> path_leb q r = true -> path_leb p r = true.
Proof.
  revert q r. induction p as [|x p IH]; intros [|y q] [|z r]; simpl; auto;
    try discriminate.
  destruct (bool_decide_reflect (x = y)), (bool_decide_reflect (y = z)),
    (bool_decide_reflect (x = z)); subst; try congruence; eauto.
  - intros H1 H2. destruct n. apply str_leb_antisym; assumption.
  - apply str_leb_trans.
Qed.

(** Entries of one directory are ordered by their names. *)
Lemma path_leb_same_parent (d : path) (a b : str) :
  path_leb (path_join d a) (path_join d b) = str_leb a b.
Proof.
  unfold path_join. induction d as [|x d IH]; simpl.
  - destruct (bool_decide_reflect (a = b)) as [->|]; [|reflexivity].
    symmetry. destruct (str_leb_total b b); assumption.
  - rewrite bool_decide_eq_true_2 by reflexivity. exact IH.
Qed.

Lemma insert_sorted_perm p l : insert_sorted p l ≡ₚ p :: l.
Proof.
  induction l as [|q l IH]; simpl; [reflexivity|].
  destruct (path_leb p q); [reflexivity|].
  rewrite IH. apply Permutation_swap.
Qed.

Lemma sorted_perm l : sorted l ≡ₚ l.
Proof.
  induction l as [|p l IH]; simpl; [reflexivity|].
  rewrite insert_sorted_perm, IH. reflexivity.
Qed.

Lemma insert_sorted_sorted p l :
  StronglySorted path_le l -> StronglySorted path_le (insert_sorted p l).
Proof.
  induction 1 as [|q l Hl IH Hq]; simpl.
  - repeat constructor.
  - destruct (path_leb p q) eqn:E.
    + constructor; [constructor; assumption|].
      constructor; [exact E|].
      eapply Forall_impl; [exact Hq|]. intros r Hr.
      eapply path_leb_trans; eassumption.
    + constructor; [exact IH|].
      rewrite insert_sorted_perm. constructor; [|exact Hq].
      destruct (path_leb_total p q); [congruence|assumption].
Qed.

Lemma sorted_sorted l : StronglySorted path_le (sorted l).
Proof.
  induction l as [|p l IH]; simpl; [constructor|].
  apply insert_sorted_sorted, IH.
Qed.

Lemma StronglySorted_filter {A} (R : A -> A -> Prop) (P : A -> Prop)
    `{forall x, Decision (P x)} (l : list A) :
  StronglySorted R l -> StronglySorted R (filter P l).
Proof.
  induction 1 as [|x l Hl IH Hx]; [constructor|].
  rewrite filter_cons. destruct (decide (P x)); [|exact IH].
  constructor; [exact IH|].
  apply Forall_forall. intros y Hy. apply list_elem_of_filter in Hy as [_ Hy].
  rewrite Forall_forall in Hx. apply Hx, Hy.
Qed.

(** *** Globbing *)

Lemma fnmatch_literal (w name : str) :
  fnmatch (map Chr w) name = true <-> name = w.
Proof.
  revert name. induction w as [|c w IH]; intros [|x name]; simpl;
    split; try discriminate; auto.
  - intros H. apply andb_true_iff in H as [H1 H2].
    apply N.eqb_eq in H1. apply IH in H2. congruence.
  - intros H. inversion H; subst. rewrite N.eqb_refl. simpl. apply IH.
    reflexivity.
Qed.

Lemma fnmatch_star_suffix (w name : str) :
  fnmatch (Star :: map Chr w) name = true <-> exists stem, name = stem ++ w.
Proof.
  simpl. induction name as [|x name IH].
  - rewrite orb_false_r, fnmatch_literal. split.
    + intros <-. exists []. reflexivity.
    + intros (stem & H). symmetry in H. apply app_eq_nil in H as [_ H]. auto.
  - rewrite orb_true_iff, fnmatch_literal, IH. split.
    + intros [->|(stem & ->)]; [exists []; reflexivity|].
      exists (x :: stem). reflexivity.
    + intros ([|y stem] & H); [left; exact H|].
      right. exists stem. simpl in H. congruence.
Qed.

Lemma fnmatch_pdf_glob (name : str) :
  fnmatch pdf_glob name = true <-> pdf_name name.
Proof. apply fnmatch_star_suffix. Qed.

Lemma elem_of_glob (s : fs) (d : path) pat (p : path) :
  p ∈ glob s d pat
  <-> is_Some (s !! p) /\ p <> [] /\ path_parent p = d
      /\ fnmatch pat (path_name p) = true.
Proof.
  unfold glob. rewrite list_elem_of_filter, list_elem_of_fmap. split.
  - intros [H ([q x] & -> & Hin)]. apply elem_of_map_to_list in Hin.
    split; [eauto|exact H].
  - intros ([x Hx] & H). split; [exact H|].
    exists (p, x). split; [reflexivity|]. apply elem_of_map_to_list. exact Hx.
Qed.

Lemma NoDup_glob (s : fs) (d : path) pat : NoDup (glob s d pat).
Proof. unfold glob. apply NoDup_filter, NoDup_fst_map_to_list. Qed.

Lemma elem_of_iter_pdf_files (s : fs) (d p : path) :
  p ∈ _iter_pdf_files s d
  <-> is_file s p = true /\ p <> [] /\ path_parent p = d
      /\ pdf_name (path_name p).
Proof.
  unfold _iter_pdf_files.
  rewrite list_elem_of_filter, sorted_perm, elem_of_glob, fnmatch_pdf_glob.
  split; [tauto|]. intros (Hf & H). split; [exact Hf|]. split; [|exact H].
  unfold is_file in Hf. destruct (s !! p); [eauto|discriminate].
Qed.

Lemma iter_pdf_files_sorted (s : fs) (d : path) :
  StronglySorted path_le (_iter_pdf_files s d) /\ NoDup (_iter_pdf_files s d).
Proof.
  unfold _iter_pdf_files. split.
  - apply StronglySorted_filter, sorted_sorted.
  - apply NoDup_filter. rewrite sorted_perm. apply NoDup_glob.
Qed.

(** ** The pipeline *)

(** *** What a run changes in the file system *)

Lemma same_kind_refl (s : fs) (q : path) : same_kind s s q.
Proof. intros H. auto. Qed.

Lemma same_kind_trans (s1 s2 s3 : fs) (q : path) :
  same_kind s1 s2 q -> same_kind s2 s3 q -> same_kind s1 s3 q.
Proof.
  intros H12 H23 H1. destruct (H12 H1) as [H2 E12].
  destruct (H23 H2) as [H3 E23]. split; [exact H3|congruence].
Qed.

Lemma same_kind_unchanged (s s' : fs) (q : path) :
  s' !! q = s !! q -> same_kind s s' q.
Proof. intros E H. unfold is_file. rewrite E. auto. Qed.

Lemma mkdir_from_keeps (comps pre : path) (s s' : fs) outcome :
  mkdir_from pre comps s = (outcome, s') ->
  forall (q : path) x, s !! q = Some x -> s' !! q = Some x.
Proof.
  revert pre s. induction comps as [|c comps IH]; intros pre s Hrun q x Hq.
  - inversion Hrun; subst. exact Hq.
  - simpl in Hrun.
    match type of Hrun with
    | context [s !! ?k] => destruct (s !! k) as [[| |]|] eqn:E
    end.
    + inversion Hrun; subst. exact Hq.
    + eapply IH; eauto.
    + inversion Hrun; subst. exact Hq.
    + eapply IH; [exact Hrun|].
      rewrite lookup_insert_ne; [exact Hq|]. intros Heq. congruence.
Qed.

Lemma mkdir_parents_same_kind (d : path) (s s' : fs) outcome (q : path) :
  mkdir_parents d s = (outcome, s') -> same_kind s s' q.
Proof.
  intros Hrun [x Hx]. unfold is_file.
  rewrite (mkdir_from_keeps _ _ _ _ _ Hrun q x Hx), Hx. eauto.
Qed.

Lemma copy2_same_kind (src dst : path) (s s' : fs) outcome (q : path) :
  copy2 src dst s = (outcome, s') -> same_kind s s' q.
Proof.
  unfold copy2. intros Hrun.
  destruct (s !! src) as [[content| |]|];
    try (inversion Hrun; subst; apply same_kind_refl).
  set (dst' := if is_dir s dst then path_join dst (path_name src) else dst) in *.
  destruct (bool_decide (dst' = src));
    [inversion Hrun; subst; apply same_kind_refl|].
  destruct (s !! dst') as [[old| |]|] eqn:E;
    try (inversion Hrun; subst; apply same_kind_refl).
  - inversion Hrun; subst. intros [x Hx]. unfold is_file.
    destruct (decide (dst' = q)) as [<-|Hne].
    + rewrite lookup_insert_eq, E. eauto.
    + rewrite lookup_insert_ne by exact Hne. rewrite Hx. eauto.
  - inversion Hrun; subst. intros [x Hx]. unfold is_file.
    destruct (decide (dst' = q)) as [<-|Hne]; [congruence|].
    rewrite lookup_insert_ne by exact Hne. rewrite Hx. eauto.
Qed.

Lemma pdf_name_not_txt (stem name : str) :
  pdf_name name -> name <> stem ++ str_of ".txt".
Proof.
  intros [stem' ->] H.
  change (str_of ".pdf") with (str_of ".pd" ++ [102%N]) in H.
  change (str_of ".txt") with (str_of ".tx" ++ [116%N]) in H.
  rewrite !app_assoc in H. apply app_inj_tail in H as [_ H]. discriminate.
Qed.

Lemma upper_case_not_pdf_name (stem : str) : ~ pdf_name (stem ++ str_of ".PDF").
Proof.
  intros [stem' H].
  change (str_of ".pdf") with (str_of ".pd" ++ [102%N]) in H.
  change (str_of ".PDF") with (str_of ".PD" ++ [70%N]) in H.
  rewrite !app_assoc in H. apply app_inj_tail in H as [_ H]. discriminate.
Qed.

Lemma path_name_join (d : path) (name : str) : path_name (path_join d name) = name.
Proof. unfold path_name, path_join. rewrite last_snoc. reflexivity. Qed.

Lemma filter_ext_in {A} (P Q : A -> Prop) `{forall x, Decision (P x)}
    `{forall x, Decision (Q x)} (l : list A) :
  (forall x, x ∈ l -> (P x <-> Q x)) -> filter P l = filter Q l.
Proof.
  induction l as [|x l IH]; intros Hpq; [reflexivity|].
  rewrite !filter_cons.
  assert (Hx : P x <-> Q x) by (apply Hpq; left).
  assert (Hl : filter P l = filter Q l).
  { apply IH. intros y Hy. apply Hpq. right. exact Hy. }
  destruct (decide (P x)), (decide (Q x)); try tauto; congruence.
Qed.

Section Stability.

Variable isdecimal : char -> bool.
Variable isalnum : char -> bool.
Variable pdftotext : option (path -> path -> fs -> Z * bytes * fs).
Variable bytes_repr : bytes -> str.
Variable decode_utf8_ignore : bytes -> str.
Variable resolve : fs -> path -> path.

Local Abbreviation extract :=
  (extract_text_from_pdf pdftotext bytes_repr decode_utf8_ignore).
Local Abbreviation process_pdf :=
  (process_pdf isdecimal isalnum pdftotext bytes_repr decode_utf8_ignore resolve).
Local Abbreviation load_loop :=
  (load_loop isdecimal isalnum pdftotext bytes_repr decode_utf8_ignore resolve).
Local Abbreviation load_pdf_results :=
  (load_pdf_results isdecimal isalnum pdftotext bytes_repr decode_utf8_ignore resolve).
Local Abbreviation process_all :=
  (process_all isdecimal isalnum pdftotext bytes_repr decode_utf8_ignore resolve).

Hypothesis converter_frame : writes_only_output pdftotext.

Lemma subprocess_run_frame (pdf dest : path) (s : fs) (q : path) :
  q <> dest -> snd (subprocess_run pdftotext pdf dest s) !! q = s !! q.
Proof.
  intros Hq. unfold subprocess_run.
  destruct pdftotext as [conv|] eqn:E; [|reflexivity].
  destruct (conv pdf dest s) as [[code err] s'] eqn:Hc. simpl.
  eapply converter_frame; eauto.
Qed.

Lemma extract_same_kind (pdf dest : path) (s s' : fs) outcome (q : path) :
  q <> dest ->
  extract pdf dest s = (outcome, s') -> same_kind s s' q.
Proof.
  intros Hq Hrun. unfold extract_text_from_pdf, mbind_ in Hrun.
  destruct (mkdir_parents (path_parent dest) s) as [[[]|e] s1] eqn:Hmk.
  2:{ inversion Hrun; subst. eapply mkdir_parents_same_kind; eauto. }
  eapply same_kind_trans; [eapply mkdir_parents_same_kind; eauto|].
  pose proof (subprocess_run_frame pdf dest s1 q Hq) as Hfr.
  destruct (subprocess_run pdftotext pdf dest s1) as [[|code err] s2].
  - inversion Hrun; subst. apply same_kind_unchanged, Hfr.
  - simpl in Hfr. destruct (code =? 0)%Z.
    + unfold read_text, unlink_missing_ok, ret in Hrun.
      destruct (s2 !! dest) as [[content| |]|] eqn:Hd;
        try (inversion Hrun; subst; apply same_kind_unchanged, Hfr).
      rewrite Hd in Hrun. inversion Hrun; subst.
      apply same_kind_unchanged. rewrite lookup_delete_ne by congruence.
      exact Hfr.
    + inversion Hrun; subst. apply same_kind_unchanged, Hfr.
Qed.

(** Processing one document changes the kind of no "*.pdf" entry. *)
Lemma process_pdf_same_kind (p st tmp : path) (s s' : fs) outcome (q : path) :
  pdf_name (path_name q) ->
  process_pdf p st tmp s = (outcome, s') -> same_kind s s' q.
Proof.
  intros Hq Hrun. unfold process_pdf, mbind_ in Hrun.
  destruct (mkdir_parents st s) as [[[]|e] s1] eqn:Hmk.
  2:{ inversion Hrun; subst. eapply mkdir_parents_same_kind; eauto. }
  eapply same_kind_trans; [eapply mkdir_parents_same_kind; eauto|].
  assert (Hcp : exists o2 s2,
    (if bool_decide (resolve s1 p <> resolve s1 (path_join st (path_name p)))
     then copy2 p (path_join st (path_name p)) s1 else (Ok tt, s1)) = (o2, s2)
    /\ same_kind s1 s2 q).
  { destruct (bool_decide _).
    - destruct (copy2 p (path_join st (path_name p)) s1) as [o2 s2] eqn:Hc.
      exists o2, s2. split; [reflexivity|]. eapply copy2_same_kind; eauto.
    - exists (Ok tt), s1. split; [reflexivity|apply same_kind_refl]. }
  destruct Hcp as (o2 & s2 & Hcp & Hk2). rewrite Hcp in Hrun.
  eapply same_kind_trans; [exact Hk2|].
  destruct o2 as [[]|e]; [|inversion Hrun; subst; apply same_kind_refl].
  destruct (extract (path_join st (path_name p))
              (path_join tmp (path_stem p ++ str_of ".txt")) s2)
    as [o3 s3] eqn:Hex.
  assert (Hk3 : same_kind s2 s3 q).
  { eapply extract_same_kind; [|exact Hex]. intros ->.
    rewrite path_name_join in Hq. eapply pdf_name_not_txt; eauto. }
  destruct o3 as [text|e]; [|inversion Hrun; subst; exact Hk3].
  unfold lift, ret in Hrun.
  destruct (_parse_case_number isdecimal isalnum text);
    inversion Hrun; subst; exact Hk3.
Qed.

(** The lazy loop visits the entries that were regular files when the
    directory was read. *)
Lemma load_loop_process_all (paths : list path) (st tmp : path) (s : fs) :
  Forall (fun q => pdf_name (path_name q) /\ is_Some (s !! q)) paths ->
  load_loop paths st tmp s
  = process_all (filter (fun q => is_file s q = true) paths) st tmp s.
Proof.
  revert s. induction paths as [|p paths IH]; intros s Hall; [reflexivity|].
  apply Forall_cons in Hall as [[Hp Hsp] Hall].
  simpl. rewrite filter_cons.
  destruct (is_file s p) eqn:Ef.
  - rewrite decide_True by reflexivity. simpl. unfold mbind_.
    destruct (process_pdf p st tmp s) as [[r|e] s1] eqn:Hr; [|reflexivity].
    assert (Hall1 : Forall (fun q => pdf_name (path_name q) /\ is_Some (s1 !! q)) paths).
    { eapply Forall_impl; [exact Hall|]. intros q [Hq Hsq]. split; [exact Hq|].
      apply (process_pdf_same_kind _ _ _ _ _ _ q Hq Hr Hsq). }
    rewrite (IH s1 Hall1).
    replace (filter (fun q => is_file s1 q = true) paths)
      with (filter (fun q => is_file s q = true) paths); [reflexivity|].
    apply filter_ext_in. intros q Hin. rewrite Forall_forall in Hall.
    destruct (Hall q Hin) as [Hq Hsq].
    destruct (process_pdf_same_kind _ _ _ _ _ _ q Hq Hr Hsq) as [_ E].
    rewrite E. reflexivity.
  - rewrite decide_False by congruence. apply IH, Hall.
Qed.

(** The part of C10 on what a run visits. *)
Lemma load_pdf_results_iter (d st tmp : path) (s : fs) :
  load_pdf_results d st tmp s = process_all (_iter_pdf_files s d) st tmp s.
Proof.
  unfold load_pdf_results, _iter_pdf_files.
  apply load_loop_process_all. apply Forall_forall. intros q Hq.
  rewrite sorted_perm in Hq. apply elem_of_glob in Hq as (Hs & _ & _ & Hn).
  split; [apply fnmatch_pdf_glob, Hn|exact Hs].
Qed.

Lemma process_pdf_stored_path (p st tmp : path) (s s' : fs) r :
  process_pdf p st tmp s = (Ok r, s') ->
  stored_path r = path_join st (path_name p)
  /\ _parse_case_number isdecimal isalnum (document_text r)
     = Ok (process_number r)
  /\ events r = _parse_events isdecimal isalnum (document_text r)
  /\ title r = _derive_title (document_text r).
Proof.
  intros Hrun. unfold process_pdf, mbind_ in Hrun.
  destruct (mkdir_parents st s) as [[[]|e] s1]; [|discriminate].
  destruct (if bool_decide _ then _ else _) as [[[]|e] s2]; [|discriminate].
  destruct (extract _ _ s2) as [[text|e] s3]; [|discriminate].
  unfold lift, ret in Hrun.
  destruct (_parse_case_number isdecimal isalnum text) as [number|e] eqn:Hn;
    [|discriminate].
  inversion Hrun; subst. simpl. auto.
Qed.

Lemma process_all_stored_paths (paths : list path) (st tmp : path) (s s' : fs) rs :
  process_all paths st tmp s = (Ok rs, s') ->
  map stored_path rs = map (fun p => path_join st (path_name p)) paths.
Proof.
  revert s rs. induction paths as [|p paths IH]; intros s rs Hrun.
  - inversion Hrun; subst. reflexivity.
  - simpl in Hrun. unfold mbind_ in Hrun.
    destruct (process_pdf p st tmp s) as [[r|e] s1] eqn:Hr; [|discriminate].
    destruct (process_all paths st tmp s1) as [[rs'|e] s2] eqn:Hrs; [|discriminate].
    inversion Hrun; subst. simpl.
    destruct (process_pdf_stored_path _ _ _ _ _ _ Hr) as [-> _].
    rewrite (IH _ _ Hrs). reflexivity.
Qed.

(** C10.  The documents of a run are exactly the regular files of the
    source directory whose name ends in the lowercase ".pdf", in
    increasing order of their paths, which is the lexicographic order of
    their names; a name ending in ".PDF" is never among them.  The
    pipeline processes these, in this order, and stores each under its
    own name.  (The converter is taken to write nothing but its output
    file while the directory is being walked.) *)
Theorem pipeline_processes_sorted_pdf_files (d st tmp : path) (s : fs) :
  (forall p : path,
      p ∈ _iter_pdf_files s d
      <-> is_file s p = true /\ p <> [] /\ path_parent p = d
          /\ pdf_name (path_name p))
  /\ (forall (p : path) (stem : str),
        path_name p = stem ++ str_of ".PDF" -> p ∉ _iter_pdf_files s d)
  /\ StronglySorted path_le (_iter_pdf_files s d)
  /\ NoDup (_iter_pdf_files s d)
  /\ (forall a b : str,
        path_leb (path_join d a) (path_join d b) = str_leb a b)
  /\ load_pdf_results d st tmp s = process_all (_iter_pdf_files s d) st tmp s
  /\ (forall rs (s' : fs),
        load_pdf_results d st tmp s = (Ok rs, s') ->
        map stored_path rs
        = map (fun p => path_join st (path_name p)) (_iter_pdf_files s d)).
Proof.
  split; [intros p; apply elem_of_iter_pdf_files|].
  split.
  { intros p stem Hn Hin. apply elem_of_iter_pdf_files in Hin as (_ & _ & _ & H).
    rewrite Hn in H. exact (upper_case_not_pdf_name stem H). }
  split; [apply iter_pdf_files_sorted|].
  split; [apply iter_pdf_files_sorted|].
  split; [apply path_leb_same_parent|].
  split; [apply load_pdf_results_iter|].
  intros rs s' Hrun. rewrite load_pdf_results_iter in Hrun.
  eapply process_all_stored_paths; eauto.
Qed.

End Stability.

Section Abort.

Variable isdecimal : char -> bool.
Variable isalnum : char -> bool.
Variable pdftotext : option (path -> path -> fs -> Z * bytes * fs).
Variable bytes_repr : bytes -> str.
Variable decode_utf8_ignore : bytes -> str.
Variable resolve : fs -> path -> path.
Variable fault : nat -> bool.
Variable isoformat : nat -> str.

Local Abbreviation process_pdf :=
  (process_pdf isdecimal isalnum pdftotext bytes_repr decode_utf8_ignore resolve).
Local Abbreviation load_loop :=
  (load_loop isdecimal isalnum pdftotext bytes_repr decode_utf8_ignore resolve).
Local Abbreviation load_pdf_results :=
  (load_pdf_results isdecimal isalnum pdftotext bytes_repr decode_utf8_ignore resolve).
Local Abbreviation build_database :=
  (build_database isdecimal isalnum pdftotext bytes_repr decode_utf8_ignore
     resolve fault isoformat).

(** The loop stops at the first document that raises. *)
Lemma load_loop_stops (pre post : list path) (p st tmp : path)
    (s s1 s2 : fs) (rs : list PdfImportResult) (e : exn) :
  load_loop pre st tmp s = (Ok rs, s1) ->
  is_file s1 p = true ->
  process_pdf p st tmp s1 = (Raise e, s2) ->
  load_loop (pre ++ p :: post) st tmp s = (Raise e, s2).
Proof.
  revert s rs. induction pre as [|x pre IH]; intros s rs Hpre Hf Hp.
  - inversion Hpre; subst. simpl. rewrite Hf. unfold mbind_. rewrite Hp.
    reflexivity.
  - simpl in *. destruct (is_file s x).
    + unfold mbind_ in *.
      destruct (process_pdf x st tmp s) as [[r|e'] s'] eqn:Hx; [|discriminate].
      destruct (load_loop pre st tmp s') as [[rs'|e'] s''] eqn:Hl; [|discriminate].
      inversion Hpre; subst.
      rewrite (IH _ _ Hl Hf Hp). reflexivity.
    + eapply IH; eauto.
Qed.

(** C5, amended.  When a document of the sorted listing fails in
    extraction or parsing after the documents before it were processed,
    loading raises that error at that document: the file system is the
    one reached at the failure, no later document having been visited,
    no list of results is returned, and [build_database] raises the same
    error before the database is opened, so that no row of the run is
    written and the database is as it was.  (What the run had copied
    into the storage directory by then stays there.)  A result is only
    ever produced for a text in which the case number was found. *)
Theorem first_failure_aborts_run (source_dir database_path : path) (w : world)
    (pre post : list path) (p : path) (rs : list PdfImportResult)
    (s1 s2 : fs) (e : exn) :
  sorted (glob (w_fs w) source_dir pdf_glob) = pre ++ p :: post ->
  load_loop pre (storage_dir_of database_path) (temp_dir_of database_path)
            (w_fs w) = (Ok rs, s1) ->
  is_file s1 p = true ->
  process_pdf p (storage_dir_of database_path) (temp_dir_of database_path) s1
  = (Raise e, s2) ->
  load_pdf_results source_dir (storage_dir_of database_path)
                   (temp_dir_of database_path) (w_fs w) = (Raise e, s2)
  /\ build_database source_dir database_path w = (Raise e, World s2 (w_db w))
  /\ forall (q st tmp : path) (s s' : fs) r,
       process_pdf q st tmp s = (Ok r, s') ->
       _parse_case_number isdecimal isalnum (document_text r)
       = Ok (process_number r).
Proof.
  intros Hglob Hpre Hf Hp.
  assert (Hload : load_pdf_results source_dir (storage_dir_of database_path)
                    (temp_dir_of database_path) (w_fs w) = (Raise e, s2)).
  { unfold load_pdf_results. rewrite Hglob.
    eapply load_loop_stops; eauto. }
  split; [exact Hload|]. split.
  - unfold build_database.
    fold (storage_dir_of database_path) (temp_dir_of database_path).
    rewrite Hload. reflexivity.
  - intros q st tmp s s' r Hr.
    eapply process_pdf_stored_path; eauto.
Qed.


(** Whatever a run does, a database whose case numbers were unique, or
    that did not exist, is left with unique case numbers. *)
Lemma build_database_unique (source_dir database_path : path) (w w' : world)
    (outcome : result unit) :
  (forall t, w_db w = Some t -> unique_numbers t) ->
  build_database source_dir database_path w = (outcome, w') ->
  forall t', w_db w' = Some t' -> unique_numbers t'.
Proof.
  intros Hu Hrun t' Ht'. unfold build_database in Hrun.
  destruct (load_pdf_results source_dir _ _ (w_fs w)) as [[results|e] s'].
  2:{ inversion Hrun; subst. apply Hu. exact Ht'. }
  destruct (can_open s' database_path).
  2:{ inversion Hrun; subst. apply Hu. exact Ht'. }
  unfold ensure_schema, commit, connect in Hrun. unfold mbind_ in Hrun.
  cbn in Hrun.
  destruct (fault 0).
  { inversion Hrun; subst. apply Hu. exact Ht'. }
  cbn in Hrun. destruct (fault 1).
  { inversion Hrun; subst. apply Hu. exact Ht'. }
  cbn in Hrun.
  set (t0 := default empty_tables (w_db w)) in *.
  assert (Hu0 : unique_numbers t0).
  { unfold t0. destruct (w_db w) as [t|]; [apply Hu; reflexivity|].
    apply NoDup_nil_2. }
  destruct (persist_import_results fault isoformat results
              (Conn (Some t0) (Some t0) 2 0)) as [out c'] eqn:Hp.
  assert (Hq : quiescent (Conn (Some t0) (Some t0) 2 0) t0)
    by (split; reflexivity).
  destruct (persist_import_results_rows fault isoformat results _ t0 out c'
              Hq Hu0 Hp) as (t1 & Hc & Hu1 & _).
  inversion Hrun; subst. unfold close in Ht'. simpl in Ht'.
  congruence.
Qed.

End Abort.

(** ** Runs on sample data *)

Lemma ascii_decimal_alnum c : ascii_isdecimal c = true -> ascii_isalnum c = true.
Proof. intros H. unfold ascii_isalnum. rewrite H. reflexivity. Qed.

Lemma parse_case_number_first_delimited_witness :
  exists i, str_of "1234567-89.2024.1.23.4567" = substr sample_text i (i + 25)
    /\ case_number_at ascii_isdecimal ascii_isalnum sample_text i.
Proof.
  pose proof (parse_case_number_first_delimited ascii_isdecimal ascii_isalnum
                ascii_decimal_alnum sample_text) as H.
  assert (E : _parse_case_number ascii_isdecimal ascii_isalnum sample_text
              = Ok (str_of "1234567-89.2024.1.23.4567")) by (vm_compute; reflexivity).
  rewrite E in H. destruct H as (i & Hi & Hc & _).
  exists i. split; assumption.
Defined.

(** C4 without the word boundaries: the text holds a substring of the
    canonical shape, yet no case number is found in it. *)
Lemma case_number_glued_to_digit_not_found :
  has_shape ascii_isdecimal case_number_shape (substr glued_number_text 1 26) = true
  /\ _parse_case_number ascii_isdecimal ascii_isalnum glued_number_text
     = Raise (Exn BuildDbError msg_no_case_number None).
Proof. split; vm_compute; reflexivity. Qed.

(** C3.  On the text "01/02/2024 -", line feed, "03/04/2024 - x" the
    white space after the first dash runs across the line feed: event
    parsing returns the single pair of the first date with the whole
    second line as its description, where the only line of the dash form
    is the second one, with the pair ("03/04/2024", "x"). *)
Theorem parse_events_match_runs_across_lines :
  _parse_events ascii_isdecimal ascii_isalnum dangling_dash_text
  = [(str_of "01/02/2024", str_of "03/04/2024 - x")]
  /\ events_by_line ascii_isdecimal dangling_dash_text
     = [(str_of "03/04/2024", str_of "x")].
Proof. split; vm_compute; reflexivity. Qed.

Lemma sample_text_settled : settled ascii_isdecimal sample_text.
Proof.
  unfold settled. change (lines_of sample_text)
    with [str_of "Processo 1234567-89.2024.1.23.4567";
          str_of "01/02/2024 - Distribuido"; str_of "03/04/2024 - Concluso"].
  repeat apply Forall_cons_2; try apply Forall_nil_2;
    intros Hd; try discriminate Hd;
    (split; [vm_compute; discriminate|]);
    intros rest Hrest; vm_compute in Hrest; inversion Hrest; subst;
    vm_compute; discriminate.
Qed.

(** A text without dangling white space, parsed line by line. *)
Example sample_text_events :
  _parse_events ascii_isdecimal ascii_isalnum sample_text
  = [(str_of "01/02/2024", str_of "Distribuido");
     (str_of "03/04/2024", str_of "Concluso")].
Proof.
  rewrite (parse_events_by_line ascii_isdecimal ascii_isalnum eq_refl
             sample_text sample_text_settled).
  vm_compute. reflexivity.
Qed.

Lemma copying_converter_frame : writes_only_output (Some copying_converter).
Proof.
  intros conv [= <-] pdf dest s code err s' Hrun q Hq.
  unfold copying_converter in Hrun.
  destruct (s !! pdf) as [[content| |]|]; inversion Hrun; subst; auto.
  apply lookup_insert_ne. congruence.
Qed.

Lemma extraction_failures_share_kind_witness :
  exists missing failed,
    fst (extract_text_from_pdf None repr_ascii decode_ascii a_pdf scratch_txt ∅)
    = Raise missing
    /\ fst (extract_text_from_pdf (Some interrupted_converter) repr_ascii
              decode_ascii a_pdf scratch_txt ∅) = Raise failed
    /\ exn_kind missing = exn_kind failed
    /\ exn_message missing <> exn_message failed.
Proof.
  destruct (mkdir_parents (path_parent scratch_txt) ∅) as [o s1] eqn:Hmk.
  assert (Ho : o = Ok tt).
  { change o with (fst (o, s1)). rewrite <- Hmk. vm_compute. reflexivity. }
  subst o.
  destruct (interrupted_converter a_pdf scratch_txt s1) as [[code err] s2] eqn:Hc.
  assert (Hcode : code <> 0%Z).
  { unfold interrupted_converter in Hc. inversion Hc. discriminate. }
  destruct (extraction_failures_share_kind repr_ascii decode_ascii
              interrupted_converter a_pdf scratch_txt ∅ s1 s2 code err
              Hmk Hc Hcode)
    as (missing & failed & H1 & H2 & K1 & K2 & _ & _ & Hne & _).
  exists missing, failed. rewrite H1, H2. simpl.
  repeat split; [congruence|exact Hne].
Defined.

(** C6 with distinct kinds: a missing converter and a failed conversion
    raise errors of one and the same kind. *)
Lemma missing_and_failed_converter_same_kind :
  exists missing failed,
    fst (extract_text_from_pdf None repr_ascii decode_ascii a_pdf scratch_txt ∅)
    = Raise missing
    /\ fst (extract_text_from_pdf (Some interrupted_converter) repr_ascii
              decode_ascii a_pdf scratch_txt ∅) = Raise failed
    /\ exn_kind missing = exn_kind failed.
Proof. eexists _, _. repeat split; vm_compute; reflexivity. Qed.

(** C7 on a failure path: the converter exits with status 1 after it
    began writing, and its partial output is still there when the call
    has raised. *)
Lemma scratch_file_left_after_failed_conversion :
  exists e,
    fst (extract_text_from_pdf (Some interrupted_converter) repr_ascii
           decode_ascii a_pdf scratch_txt ∅) = Raise e
    /\ snd (extract_text_from_pdf (Some interrupted_converter) repr_ascii
              decode_ascii a_pdf scratch_txt ∅) !! scratch_txt
       = Some (RegularFile (str_of "Processo 12")).
Proof. eexists. split; vm_compute; reflexivity. Qed.

Lemma scratch_file_deleted_on_success_witness :
  snd (extract_text_from_pdf (Some copying_converter) repr_ascii decode_ascii
         a_pdf scratch_txt sample_fs) !! scratch_txt = None.
Proof.
  destruct (mkdir_parents (path_parent scratch_txt) sample_fs) as [o s1] eqn:Hmk.
  assert (Ho : o = Ok tt).
  { change o with (fst (o, s1)). rewrite <- Hmk. vm_compute. reflexivity. }
  subst o.
  destruct (extract_text_from_pdf (Some copying_converter) repr_ascii
              decode_ascii a_pdf scratch_txt sample_fs) as [out s'] eqn:Hrun.
  pose proof (scratch_file_deleted_on_success repr_ascii decode_ascii
                (Some copying_converter) a_pdf scratch_txt sample_fs s1 s' out
                Hmk Hrun) as H.
  assert (Hout : out = Ok sample_text).
  { change out with (fst (out, s')). rewrite <- Hrun. vm_compute. reflexivity. }
  subst out. simpl. apply H.
Defined.

Lemma fresh_connection_quiescent : quiescent fresh_connection empty_tables.
Proof. split; reflexivity. Qed.

Lemma empty_tables_unique : unique_numbers empty_tables.
Proof. apply NoDup_nil_2. Qed.

Lemma process_rows_unique_and_identity_stable_witness :
  exists t',
    committed (snd (persist_import_results no_fault sample_isoformat
                      [sample_result; other_result; sample_result]
                      fresh_connection)) = Some t'
    /\ unique_numbers t'.
Proof.
  destruct (persist_import_results no_fault sample_isoformat
              [sample_result; other_result; sample_result] fresh_connection)
    as [outcome c'] eqn:Hrun.
  destruct (process_rows_unique_and_identity_stable no_fault sample_isoformat
              [sample_result; other_result; sample_result] sample_result
              fresh_connection empty_tables
              fresh_connection_quiescent empty_tables_unique) as [Hbatch _].
  destruct (Hbatch outcome c' Hrun) as (t' & Hc & Hu & _).
  exists t'. split; assumption.
Defined.

Lemma import_replaces_events_and_documents_witness :
  exists t' pid,
    committed (snd (persist_result no_fault sample_isoformat sample_result
                      fresh_connection)) = Some t'
    /\ map (fun e => (e_event_date e, e_description e)) (events_of pid t')
       = events sample_result.
Proof.
  destruct (persist_result no_fault sample_isoformat sample_result
              fresh_connection) as [outcome c'] eqn:Hrun.
  assert (Hout : outcome = Ok tt).
  { change outcome with (fst (outcome, c')). rewrite <- Hrun.
    vm_compute. reflexivity. }
  subst outcome.
  destruct (import_replaces_events_and_documents no_fault sample_isoformat
              sample_result fresh_connection empty_tables c'
              fresh_connection_quiescent Hrun)
    as (t' & pid & [Hc _] & _ & He & _).
  exists t', pid. split; assumption.
Defined.

Lemma earlier_commits_survive_later_failure_witness :
  exists t2,
    close (snd (persist_import_results (fault_at 11) sample_isoformat
                  [sample_result; other_result] fresh_connection)) = Some t2
    /\ map (fun e => (e_event_date e, e_description e)) (t_events t2)
       = events sample_result.
Proof.
  destruct (persist_import_results (fault_at 11) sample_isoformat
              [sample_result] fresh_connection) as [o1 c1] eqn:H1.
  assert (Ho1 : o1 = Ok tt).
  { change o1 with (fst (o1, c1)). rewrite <- H1. vm_compute. reflexivity. }
  subst o1.
  destruct (persist_result (fault_at 11) sample_isoformat other_result c1)
    as [o2 c2] eqn:H2.
  assert (Ho2 : o2 = Raise sqlite_error).
  { change o2 with (fst (o2, c2)). rewrite <- H2.
    replace c1 with (snd (persist_import_results (fault_at 11) sample_isoformat
                            [sample_result] fresh_connection))
      by (rewrite H1; reflexivity).
    vm_compute. reflexivity. }
  subst o2.
  destruct (earlier_commits_survive_later_failure (fault_at 11) sample_isoformat
              [sample_result] other_result [] fresh_connection empty_tables
              c1 sqlite_error c2 fresh_connection_quiescent H1 H2)
    as (Hrun & t1 & t2 & [Hc1 _] & Hclose & Hev & _).
  exists t2. change ([sample_result; other_result])
    with ([sample_result] ++ [other_result]).
  rewrite Hrun. split; [exact Hclose|]. rewrite Hev.
  assert (Ht1 : committed (snd (persist_import_results (fault_at 11)
                  sample_isoformat [sample_result] fresh_connection)) = Some t1)
    by (rewrite H1; exact Hc1).
  vm_compute in Ht1. inversion Ht1. reflexivity.
Defined.

(** C8 for a repeated case number: the second result of the batch
    bears the case number of the first and fails after its upsert is
    committed; the process row then carries the title of the second
    result, and the title the first had written is gone. *)
Lemma later_failure_overwrites_earlier_upsert :
  fst (persist_import_results (fault_at 11) sample_isoformat
         [sample_result; retitled_result] fresh_connection)
  = Raise sqlite_error
  /\ option_map (fun t => map p_title (processes t))
       (close (snd (persist_import_results (fault_at 11) sample_isoformat
                      [sample_result] fresh_connection)))
     = Some [title sample_result]
  /\ option_map (fun t => map p_title (processes t))
       (close (snd (persist_import_results (fault_at 11) sample_isoformat
                      [sample_result; retitled_result] fresh_connection)))
     = Some [title retitled_result]
  /\ title retitled_result <> title sample_result.
Proof.
  split; [vm_compute; reflexivity|]. split; [vm_compute; reflexivity|].
  split; [vm_compute; reflexivity|]. intros H. vm_compute in H. discriminate H.
Qed.

Lemma first_failure_aborts_run_witness :
  exists s2,
    build_database ascii_isdecimal ascii_isalnum (Some copying_converter)
      repr_ascii decode_ascii resolve_plain no_fault sample_isoformat
      in_dir db_path sample_world
    = (Raise (Exn BuildDbError msg_no_case_number None), World s2 None).
Proof.
  destruct (load_loop ascii_isdecimal ascii_isalnum (Some copying_converter)
              repr_ascii decode_ascii resolve_plain [a_pdf]
              (storage_dir_of db_path) (temp_dir_of db_path) sample_fs)
    as [o1 s1] eqn:H1.
  assert (Ho1 : exists rs, o1 = Ok rs).
  { change o1 with (fst (o1, s1)). rewrite <- H1. vm_compute. eauto. }
  destruct Ho1 as [rs ->].
  assert (Hs1 : s1 = snd (load_loop ascii_isdecimal ascii_isalnum
              (Some copying_converter) repr_ascii decode_ascii resolve_plain
              [a_pdf] (storage_dir_of db_path) (temp_dir_of db_path) sample_fs))
    by (rewrite H1; reflexivity).
  destruct (process_pdf ascii_isdecimal ascii_isalnum (Some copying_converter)
              repr_ascii decode_ascii resolve_plain b_pdf
              (storage_dir_of db_path) (temp_dir_of db_path) s1)
    as [o2 s2] eqn:H2.
  assert (Ho2 : o2 = Raise (Exn BuildDbError msg_no_case_number None)).
  { change o2 with (fst (o2, s2)). rewrite <- H2, Hs1. vm_compute. reflexivity. }
  subst o2.
  assert (Hf : is_file s1 b_pdf = true) by (rewrite Hs1; vm_compute; reflexivity).
  assert (Hglob : sorted (glob (w_fs sample_world) in_dir pdf_glob)
                  = [a_pdf] ++ b_pdf :: [c_pdf; [str_of "in"; str_of "e.pdf"]])
    by (vm_compute; reflexivity).
  destruct (first_failure_aborts_run ascii_isdecimal ascii_isalnum
              (Some copying_converter) repr_ascii decode_ascii resolve_plain
              no_fault sample_isoformat in_dir db_path sample_world
              [a_pdf] [c_pdf; [str_of "in"; str_of "e.pdf"]] b_pdf rs s1 s2 _
              Hglob H1 Hf H2) as (_ & Hb & _).
  exists s2. exact Hb.
Defined.

(** C5 with nothing at all persisted: the run raises at the document
    without a case number, and the storage directory then holds the copy
    of that document, which was not there before, beside the copy of
    the document processed before it. *)
Lemma failed_run_leaves_stored_copies :
  fst (build_database ascii_isdecimal ascii_isalnum (Some copying_converter)
         repr_ascii decode_ascii resolve_plain no_fault sample_isoformat
         in_dir db_path sample_world)
  = Raise (Exn BuildDbError msg_no_case_number None)
  /\ w_fs sample_world !! target_of (storage_dir_of db_path) b_pdf = None
  /\ w_fs (snd (build_database ascii_isdecimal ascii_isalnum
                  (Some copying_converter) repr_ascii decode_ascii
                  resolve_plain no_fault sample_isoformat
                  in_dir db_path sample_world))
       !! target_of (storage_dir_of db_path) b_pdf
     = Some (RegularFile (str_of "Sem numero"))
  /\ w_fs (snd (build_database ascii_isdecimal ascii_isalnum
                  (Some copying_converter) repr_ascii decode_ascii
                  resolve_plain no_fault sample_isoformat
                  in_dir db_path sample_world))
       !! target_of (storage_dir_of db_path) a_pdf
     = Some (RegularFile sample_text).
Proof. repeat split; vm_compute; reflexivity. Qed.

Lemma pipeline_processes_sorted_pdf_files_witness :
  a_pdf ∈ _iter_pdf_files sample_fs in_dir
  /\ ([str_of "in"; str_of "D.PDF"] ∉ _iter_pdf_files sample_fs in_dir)
  /\ load_pdf_results ascii_isdecimal ascii_isalnum (Some copying_converter)
       repr_ascii decode_ascii resolve_plain in_dir (storage_dir_of db_path)
       (temp_dir_of db_path) sample_fs
     = process_all ascii_isdecimal ascii_isalnum (Some copying_converter)
         repr_ascii decode_ascii resolve_plain (_iter_pdf_files sample_fs in_dir)
         (storage_dir_of db_path) (temp_dir_of db_path) sample_fs.
Proof.
  destruct (pipeline_processes_sorted_pdf_files ascii_isdecimal ascii_isalnum
              (Some copying_converter) repr_ascii decode_ascii resolve_plain
              copying_converter_frame in_dir (storage_dir_of db_path)
              (temp_dir_of db_path) sample_fs)
    as (Hmem & Hupper & _ & _ & _ & Hload & _).
  split; [|split; [|exact Hload]].
  - apply Hmem. split; [vm_compute; reflexivity|].
    split; [discriminate|]. split; [reflexivity|].
    exists (str_of "a"). reflexivity.
  - apply (Hupper _ (str_of "D")). reflexivity.
Defined.

(** ** What the parser returns *)

(** *** A case number parses to itself *)

Section CaseNumberAgain.

Variable isdecimal : char -> bool.
Variable isalnum : char -> bool.
Hypothesis decimal_alnum : forall c, isdecimal c = true -> isalnum c = true.

Lemma parse_case_number_alone (m : str) :
  has_shape isdecimal case_number_shape m = true ->
  _parse_case_number isdecimal isalnum m = Ok m.
Proof.
  intros Hm. pose proof (has_shape_length _ _ _ Hm) as Hlen.
  change (shape_len case_number_shape) with 25 in Hlen.
  assert (Hsub : substr m 0 (0 + 25) = m).
  { unfold substr. simpl. rewrite <- Hlen. apply firstn_all. }
  assert (Hat : case_number_at isdecimal isalnum m 0).
  { split; [rewrite Hsub; exact Hm|]. split; [left; reflexivity|].
    unfold word_at. rewrite lookup_ge_None_2; [reflexivity|simpl; lia]. }
  destruct (match_at_process_number_iff isdecimal isalnum decimal_alnum m 0)
    as [[Hmatch _]|[_ Hn]]; [lia| |contradiction].
  unfold _parse_case_number, search.
  assert (Hs : search_from isdecimal isalnum PROCESS_NUMBER_RE 0 None m
               = Some (Match 0 (0 + 25) no_captures)).
  { unfold cursor_at in Hmatch. cbn [advance] in Hmatch.
    destruct m as [|x m]; [discriminate Hlen|].
    cbn [Re.search_from]. rewrite Hmatch. reflexivity. }
  rewrite Hs. unfold group. cbn [m_start m_end]. rewrite Hsub.
  reflexivity.
Qed.

Lemma parse_case_number_shape (text m : str) :
  _parse_case_number isdecimal isalnum text = Ok m ->
  has_shape isdecimal case_number_shape m = true.
Proof.
  unfold _parse_case_number, search.
  destruct (search_from isdecimal isalnum PROCESS_NUMBER_RE 0 None text)
    as [mo|] eqn:Hs; [|discriminate].
  intros [= <-].
  apply (search_from_some isdecimal isalnum _ (Cursor 0 None text)) in Hs.
  destruct Hs as (k & Hk & Hm & _). simpl in Hk.
  fold (cursor_at text k) in Hm.
  destruct (match_at_process_number_iff isdecimal isalnum decimal_alnum text k Hk)
    as [[Hm' Hc]|[Hm' _]]; [|congruence].
  assert (mo = Match k (k + 25) no_captures) by congruence. subst mo.
  apply Hc.
Qed.

(** X1.  A case number that has been parsed out of a text has 25
    characters in the canonical shape, and parsing the case number on
    its own returns it again.  (Decimal digits are alphanumeric, as in
    every version of the Unicode tables.) *)
Theorem case_number_parses_to_itself (text m : str) :
  _parse_case_number isdecimal isalnum text = Ok m ->
  length m = 25
  /\ has_shape isdecimal case_number_shape m = true
  /\ _parse_case_number isdecimal isalnum m = Ok m.
Proof.
  intros Hp. pose proof (parse_case_number_shape text m Hp) as Hm.
  split; [apply (has_shape_length _ _ _ Hm)|].
  split; [exact Hm|apply parse_case_number_alone, Hm].
Qed.

End CaseNumberAgain.

(** *** Trimming *)

Lemma lstrip_starts_solid (s : str) : starts_solid (lstrip s).
Proof. destruct (lstrip_split s) as (ws & _ & _ & H). exact H. Qed.

Lemma lstrip_idem (s : str) : lstrip (lstrip s) = lstrip s.
Proof. apply lstrip_solid, lstrip_starts_solid. Qed.

(** What [lstrip] and [rstrip] keep is a piece of what they are given. *)
Lemma lstrip_suffix (s : str) : exists ws, s = ws ++ lstrip s.
Proof. destruct (lstrip_split s) as (ws & H & _). eauto. Qed.

Lemma rstrip_prefix (s : str) : exists ws, s = rstrip s ++ ws.
Proof.
  unfold rstrip. destruct (lstrip_suffix (rev s)) as (ws & H).
  exists (rev ws). rewrite <- rev_app_distr, <- H, rev_involutive. reflexivity.
Qed.

Lemma strip_piece (s : str) : exists a b, s = a ++ strip s ++ b.
Proof.
  unfold strip. destruct (lstrip_suffix s) as (a & Ha).
  destruct (rstrip_prefix (lstrip s)) as (b & Hb).
  exists a, b. rewrite <- Hb. exact Ha.
Qed.

Lemma strip_keeps (P : char -> Prop) (s : str) : Forall P s -> Forall P (strip s).
Proof.
  intros H. destruct (strip_piece s) as (a & b & Hs). rewrite Hs in H.
  apply Forall_app in H as [_ H]. apply Forall_app in H as [H _]. exact H.
Qed.

Lemma strip_starts_solid (s : str) : starts_solid (strip s).
Proof.
  unfold strip. pose proof (lstrip_starts_solid s) as H.
  destruct (rstrip_prefix (lstrip s)) as (ws & Hs).
  destruct (rstrip (lstrip s)) as [|c r] eqn:E; [exact I|].
  rewrite Hs in H. exact H.
Qed.

Lemma rstrip_idem (s : str) : rstrip (rstrip s) = rstrip s.
Proof. unfold rstrip. rewrite rev_involutive, lstrip_idem. reflexivity. Qed.

(** Trimming twice is trimming once. *)
Lemma strip_trimmed (s : str) : trimmed (strip s).
Proof.
  unfold trimmed. unfold strip at 1.
  rewrite (lstrip_solid (strip s) (strip_starts_solid s)).
  unfold strip. apply rstrip_idem.
Qed.

(** *** Titles *)

Lemma splitlines_single_line (s : str) : Forall single_line (splitlines s).
Proof.
  remember (length s) as n eqn:Hn. revert s Hn.
  induction n as [n IH] using lt_wf_ind. intros s Hn.
  destruct s as [|c s]; simpl; [constructor|].
  destruct (islinebreak c) eqn:Ec.
  - constructor; [constructor|].
    destruct s as [|d s']; [constructor|].
    destruct ((c =? CR)%N && (d =? LF)%N).
    + apply (IH (length s')); [simpl in Hn; lia|reflexivity].
    + apply (IH (length (d :: s'))); [simpl in *; lia|reflexivity].
  - assert (H : Forall single_line (splitlines s)).
    { apply (IH (length s)); [simpl in Hn; lia|reflexivity]. }
    destruct (splitlines s) as [|l ls]; [repeat constructor; exact Ec|].
    apply Forall_cons in H as [Hl Hls].
    constructor; [constructor; assumption|exact Hls].
Qed.

Lemma placeholder_single_line : single_line placeholder_title.
Proof. unfold single_line. rewrite Forall_forall. intros c Hc.
  vm_compute in Hc. repeat (apply elem_of_cons in Hc as [->|Hc]; [reflexivity|]).
  apply elem_of_nil in Hc. contradiction.
Qed.

Lemma first_title_props (lines : list str) :
  Forall single_line lines ->
  first_title lines <> []
  /\ starts_solid (first_title lines)
  /\ single_line (first_title lines).
Proof.
  induction 1 as [|l lines Hl _ IH]; simpl.
  - split; [discriminate|]. split; [reflexivity|apply placeholder_single_line].
  - pose proof (strip_starts_solid l) as Hs.
    pose proof (strip_keeps _ l Hl) as Hk.
    destruct (strip l) as [|c r] eqn:E; [exact IH|].
    split; [discriminate|]. split; [exact Hs|].
    change (c :: take 199 r) with (take 200 (c :: r)).
    apply Forall_take, Hk.
Qed.

Lemma derive_title_solid (text : str) :
  _derive_title text <> []
  /\ (exists c rest, _derive_title text = c :: rest /\ isspace c = false)
  /\ single_line (_derive_title text).
Proof.
  destruct (first_title_props (splitlines text) (splitlines_single_line text))
    as (Hne & Hsolid & Hline).
  unfold _derive_title. split; [exact Hne|]. split; [|exact Hline].
  destruct (first_title (splitlines text)) as [|c rest]; [contradiction|].
  exists c, rest. split; [reflexivity|exact Hsolid].
Qed.

(** X2.  Whatever the text, the derived title is not empty, starts
    with a character that is not white space, and contains no line
    boundary. *)
Theorem title_is_one_solid_line (text : str) :
  _derive_title text <> []
  /\ (exists c rest, _derive_title text = c :: rest /\ isspace c = false)
  /\ single_line (_derive_title text).
Proof. exact (derive_title_solid text). Qed.

(** *** Every movement is well formed *)

Section Events.

Variable isdecimal : char -> bool.
Variable isalnum : char -> bool.

Local Abbreviation match_here := (match_here isdecimal isalnum).
Local Abbreviation match_at := (match_at isdecimal isalnum).
Local Abbreviation finditer_from := (finditer_from isdecimal isalnum).
Local Abbreviation has_shape := (has_shape isdecimal).
Local Abbreviation run := (run isdecimal).

Lemma first_down_some {A} (f : nat -> option A) (lo n : nat) (x : A) :
  first_down f lo n = Some x -> exists k, lo <= k <= n /\ f k = Some x.
Proof.
  induction n as [|n IH]; simpl.
  - destruct (0 <? lo) eqn:E; [discriminate|]. apply Nat.ltb_ge in E.
    destruct (f 0) eqn:F; [|discriminate]. intros [= ->].
    exists 0. split; [lia|exact F].
  - destruct (S n <? lo) eqn:E; [discriminate|]. apply Nat.ltb_ge in E.
    destruct (f (S n)) eqn:F.
    + intros [= ->]. exists (S n). split; [lia|exact F].
    + intros H. destruct (IH H) as (k & Hk & Hf). exists k. split; [lia|exact Hf].
Qed.

Lemma forallb_elem_of {A} (f : A -> bool) (l : list A) (x : A) :
  forallb f l = true -> x ∈ l -> f x = true.
Proof.
  induction l as [|y l IH]; intros H Hx.
  - apply elem_of_nil in Hx. contradiction.
  - simpl in H. apply andb_true_iff in H as [Hy Hl].
    apply elem_of_cons in Hx as [->|Hx]; [exact Hy|exact (IH Hl Hx)].
Qed.

Lemma elem_of_take_le {A} (l : list A) (x : A) (k n : nat) :
  k <= n -> x ∈ take k l -> x ∈ take n l.
Proof.
  intros Hkn Hx. apply elem_of_take in Hx as (i & Hi & Hlt).
  apply elem_of_take. exists i. split; [exact Hi|lia].
Qed.

Lemma cursor_of_advance (text : str) (c : cursor) (k : nat) :
  cursor_of text c -> k <= length (rest c) -> cursor_of text (advance k c).
Proof.
  intros (Hpos & Hrest & Hprev) Hk.
  destruct k as [|j]; [split; [exact Hpos|split; [exact Hrest|exact Hprev]]|].
  rewrite Hrest, length_drop in Hk.
  unfold cursor_of, advance. cbn [pos rest prev].
  split; [lia|]. split.
  - rewrite Hrest, drop_drop. reflexivity.
  - rewrite Hrest, lookup_drop. replace (pos c + S j) with (S (pos c + j)) by lia.
    reflexivity.
Qed.

(** A repetition hands on a cursor some [k] characters ahead, all of
    them in its set. *)
Lemma match_here_rep cs lo hi r (c : cursor) caps res :
  match_here (Rep cs lo hi :: r) c caps = Some res ->
  exists k, lo <= k /\ k <= length (rest c)
            /\ Forall (fun x => in_cset isdecimal cs x = true) (take k (rest c))
            /\ match_here r (advance k c) caps = Some res.
Proof.
  cbn [Re.match_here]. intros H.
  apply first_down_some in H as (k & [Hlo Hhi] & Hk).
  exists k. split; [exact Hlo|].
  pose proof (run_le_length isdecimal cs hi (rest c)) as Hlen.
  split; [lia|]. split; [|exact Hk].
  pose proof (run_prefix isdecimal cs hi (rest c)) as Hpre.
  apply Forall_forall. intros x Hx.
  apply (forallb_elem_of _ _ _ Hpre).
  exact (elem_of_take_le _ _ _ _ Hhi Hx).
Qed.

Lemma description_tail lo (text : str) (c : cursor) caps res :
  cursor_of text c ->
  match_here [GOpen 2; Rep Dot lo None; GClose 2; AtEol] c caps = Some res ->
  description_marks text caps res.2.
Proof.
  intros (_ & Hrest & _) H. cbn [Re.match_here] in H.
  apply first_down_some in H as (k & [_ Hhi] & Hk).
  cbn [starts ends] in Hk.
  destruct (at_eol (advance k c)); [|discriminate]. injection Hk as <-.
  cbn [snd starts ends]. split; [reflexivity|]. split; [reflexivity|].
  exists (pos c), k. cbn [assoc Nat.eqb]. rewrite advance_pos.
  split; [reflexivity|]. split; [reflexivity|].
  rewrite <- Hrest.
  pose proof (run_prefix isdecimal Dot None (rest c)) as Hpre.
  apply Forall_forall. intros x Hx.
  assert (Hin : in_cset isdecimal Dot x = true).
  { apply (forallb_elem_of _ _ _ Hpre).
    exact (elem_of_take_le _ _ _ _ Hhi Hx). }
  cbn [in_cset] in Hin. intros ->. rewrite N.eqb_refl in Hin. discriminate Hin.
Qed.

Lemma dash_tail_marks (text : str) (c : cursor) caps res :
  cursor_of text c ->
  match_here dash_tail c caps = Some res ->
  description_marks text caps res.2.
Proof.
  intros Hc H. unfold dash_tail in H.
  apply match_here_rep in H as (k1 & _ & Hk1 & _ & H).
  pose proof (cursor_of_advance text c k1 Hc Hk1) as Hc1.
  apply match_here_rep in H as (k2 & _ & Hk2 & _ & H).
  pose proof (cursor_of_advance text _ k2 Hc1 Hk2) as Hc2.
  exact (description_tail 1 text _ caps res Hc2 H).
Qed.

Lemma bare_tail_marks (text : str) (c : cursor) caps res :
  cursor_of text c ->
  match_here bare_tail c caps = Some res ->
  description_marks text caps res.2.
Proof. intros Hc H. exact (description_tail 0 text c caps res Hc H). Qed.

Lemma at_bol_line_start (text : str) (c : cursor) :
  cursor_of text c -> at_bol c = true -> line_start text (pos c).
Proof.
  intros (Hpos & _ & Hprev) Hbol. unfold at_bol in Hbol. unfold line_start.
  destruct (pos c) as [|j]; [left; reflexivity|right].
  split; [lia|]. replace (S j - 1) with j by lia.
  destruct (lookup_lt_is_Some_2 text j ltac:(lia)) as [x Hx].
  rewrite Hprev, Hx in Hbol. apply N.eqb_eq in Hbol. rewrite Hx, Hbol.
  reflexivity.
Qed.

(** A match of a dated pattern gives a well-formed movement. *)
Lemma dated_match_well_formed (tail : regex) (text : str) (c : cursor)
    (m : match_obj) :
  (forall c' caps res, cursor_of text c' ->
     match_here tail c' caps = Some res -> description_marks text caps res.2) ->
  cursor_of text c ->
  match_at (dated tail) c = Some m ->
  well_formed_event isdecimal text (event_of text m).
Proof.
  intros Htail Hc H. unfold Re.match_at in H.
  destruct (match_here (dated tail) c no_captures) as [[c' caps']|] eqn:Hm;
    [|discriminate].
  injection H as <-.
  unfold dated in Hm. cbn [Re.match_here] in Hm.
  destruct (at_bol c) eqn:Hbol; [|discriminate].
  rewrite match_here_shape in Hm. change (shape_len date_shape) with 10 in Hm.
  destruct (has_shape date_shape (take 10 (rest c))) eqn:Hd; [|discriminate].
  pose proof (has_shape_length _ _ _ Hd) as Hlen.
  change (shape_len date_shape) with 10 in Hlen. rewrite length_take in Hlen.
  assert (H10 : 10 <= length (rest c)) by lia.
  pose proof (cursor_of_advance text c 10 Hc H10) as Hc10.
  cbn [Re.match_here] in Hm.
  apply match_here_rep in Hm as (k & _ & Hk & _ & Hm).
  pose proof (cursor_of_advance text _ k Hc10 Hk) as Hck.
  apply (Htail _ _ _ Hck) in Hm as (Hs1 & He1 & a & n & Hs2 & He2 & Hnolf).
  cbn [snd starts ends no_captures assoc Nat.eqb] in *.
  rewrite advance_pos in He1.
  assert (Hdate : group text (Match (pos c) (pos c') caps') 1
                  = take 10 (rest c)).
  { unfold group. cbn [m_caps]. rewrite Hs1, He1. unfold substr.
    replace (pos c + 10 - pos c) with 10 by lia.
    destruct Hc as (_ & -> & _). reflexivity. }
  assert (Hdesc : group text (Match (pos c) (pos c') caps') 2
                  = take n (drop a text)).
  { unfold group. cbn [m_caps]. rewrite Hs2, He2. unfold substr.
    replace (a + n - a) with n by lia. reflexivity. }
  unfold well_formed_event, event_of. cbn [fst snd]. rewrite Hdate, Hdesc.
  split.
  - exists (pos c). split; [exact (at_bol_line_start text c Hc Hbol)|].
    unfold substr. replace (pos c + 10 - pos c) with 10 by lia.
    destruct Hc as (_ & -> & _). reflexivity.
  - split; [exact Hd|]. split; [apply strip_trimmed|].
    apply strip_keeps, Hnolf.
Qed.

(** Every match of [finditer] is a match of the pattern at a position of
    the text. *)
Lemma finditer_from_matches r (text : str) (s : str) :
  forall skip p pv (m : match_obj),
  cursor_of text (Cursor p pv s) ->
  m ∈ finditer_from r skip p pv s ->
  exists c, cursor_of text c /\ match_at r c = Some m.
Proof.
  induction s as [|x s IH]; intros skip p pv m Hc Hin.
  - destruct skip; cbn [Re.finditer_from] in Hin.
    + destruct (match_at r (Cursor p pv [])) as [m0|] eqn:Hm.
      * apply list_elem_of_singleton in Hin as ->. eauto.
      * apply elem_of_nil in Hin. contradiction.
    + apply elem_of_nil in Hin. contradiction.
  - assert (Hnext : cursor_of text (Cursor (S p) (Some x) s)).
    { destruct Hc as (Hpos & Hrest & _). cbn [pos rest prev] in *.
      assert (Hx : text !! p = Some x).
      { rewrite <- (Nat.add_0_r p), <- lookup_drop, <- Hrest. reflexivity. }
      pose proof (lookup_lt_Some _ _ _ Hx) as Hlt.
      unfold cursor_of. cbn [pos rest prev].
      split; [lia|]. split; [|symmetry; exact Hx].
      rewrite (drop_S _ _ _ Hx) in Hrest. congruence. }
    destruct skip as [|k]; cbn [Re.finditer_from] in Hin.
    + destruct (match_at r (Cursor p pv (x :: s))) as [m0|] eqn:Hm.
      * apply elem_of_cons in Hin as [->|Hin]; [eauto|].
        exact (IH _ _ _ _ Hnext Hin).
      * exact (IH _ _ _ _ Hnext Hin).
    + exact (IH _ _ _ _ Hnext Hin).
Qed.

Lemma finditer_dated_well_formed (tail : regex) (text : str) :
  (forall c' caps res, cursor_of text c' ->
     match_here tail c' caps = Some res -> description_marks text caps res.2) ->
  Forall (well_formed_event isdecimal text)
         (map (event_of text) (finditer isdecimal isalnum (dated tail) text)).
Proof.
  intros Htail. apply Forall_map, Forall_forall. intros m Hm.
  unfold finditer in Hm.
  apply (finditer_from_matches _ text) in Hm as (c & Hc & Hm).
  - exact (dated_match_well_formed tail text c m Htail Hc Hm).
  - unfold cursor_of. cbn [pos rest prev]. split; [lia|]. split; reflexivity.
Qed.

Lemma parse_events_all_well_formed (text : str) :
  Forall (well_formed_event isdecimal text)
         (_parse_events isdecimal isalnum text).
Proof.
  unfold _parse_events.
  pose proof (finditer_dated_well_formed dash_tail text
                (dash_tail_marks text)) as Hp.
  pose proof (finditer_dated_well_formed bare_tail text
                (bare_tail_marks text)) as Hf.
  rewrite <- movement_re_dated in Hp. rewrite <- fallback_re_dated in Hf.
  unfold event_of in Hp, Hf.
  destruct (map _ (finditer isdecimal isalnum MOVEMENT_RE text));
    [exact Hf|exact Hp].
Qed.

(** X3.  Whatever the text, every movement that event parsing returns
    has a date of ten characters of the form DD/MM/YYYY that stands in
    the text at the start of a line, and a description without white
    space at either end and without a line feed. *)
Theorem parsed_events_well_formed (text : str) :
  Forall (well_formed_event isdecimal text)
         (_parse_events isdecimal isalnum text).
Proof. exact (parse_events_all_well_formed text). Qed.

End Events.

(** *** Movements come in the order of the text *)

Section Order.

Variable isdecimal : char -> bool.
Variable isalnum : char -> bool.

Local Abbreviation match_here := (match_here isdecimal isalnum).
Local Abbreviation match_at := (match_at isdecimal isalnum).
Local Abbreviation finditer_from := (finditer_from isdecimal isalnum).
Local Abbreviation has_shape := (has_shape isdecimal).

Lemma match_at_start r (c : cursor) (m : match_obj) :
  match_at r c = Some m -> m_start m = pos c.
Proof.
  unfold Re.match_at. destruct (match_here r c no_captures) as [[c' caps]|];
    [|discriminate].
  intros [= <-]. reflexivity.
Qed.

(** The matches of a scan start at increasing offsets, none before the
    offset the scan starts from. *)
Lemma finditer_from_starts r (s : str) :
  forall skip p pv,
    Forall (fun i => p <= i) (map m_start (finditer_from r skip p pv s))
    /\ StronglySorted lt (map m_start (finditer_from r skip p pv s)).
Proof.
  induction s as [|x s IH]; intros skip p pv.
  - destruct skip; cbn [Re.finditer_from].
    + destruct (match_at r (Cursor p pv [])) as [m|] eqn:Hm; simpl.
      * rewrite (match_at_start _ _ _ Hm). simpl.
        split; repeat constructor.
      * split; constructor.
    + split; constructor.
  - assert (Hnext : forall k,
              Forall (fun i => p <= i)
                     (map m_start (finditer_from r k (S p) (Some x) s))
              /\ Forall (fun i => p < i)
                     (map m_start (finditer_from r k (S p) (Some x) s))
              /\ StronglySorted lt
                     (map m_start (finditer_from r k (S p) (Some x) s))).
    { intros k. destruct (IH k (S p) (Some x)) as [Hge Hs].
      split; [|split; [|exact Hs]];
        (eapply Forall_impl; [exact Hge|]; simpl; intros; lia). }
    destruct skip as [|k]; cbn [Re.finditer_from].
    + destruct (match_at r (Cursor p pv (x :: s))) as [m|] eqn:Hm.
      * destruct (Hnext (pred (m_end m - p))) as (Hge & Hgt & Hs).
        rewrite map_cons, (match_at_start _ _ _ Hm). cbn [pos].
        split; [constructor; [lia|exact Hge]|].
        constructor; [exact Hs|exact Hgt].
      * destruct (Hnext 0) as (Hge & _ & Hs). auto.
    + destruct (Hnext k) as (Hge & _ & Hs). auto.
Qed.

(** Where the date of a match of a dated pattern stands. *)
Lemma dated_match_at_start (tail : regex) (text : str) (c : cursor)
    (m : match_obj) :
  (forall c' caps res, cursor_of text c' ->
     match_here tail c' caps = Some res -> description_marks text caps res.2) ->
  cursor_of text c ->
  match_at (dated tail) c = Some m ->
  dated_at text (m_start m) (event_of text m).
Proof.
  intros Htail Hc H. pose proof (match_at_start _ _ _ H) as Hstart.
  unfold Re.match_at in H.
  destruct (match_here (dated tail) c no_captures) as [[c' caps']|] eqn:Hm;
    [|discriminate].
  injection H as <-. cbn [m_start] in *.
  unfold dated in Hm. cbn [Re.match_here] in Hm.
  destruct (at_bol c) eqn:Hbol; [|discriminate].
  rewrite match_here_shape in Hm. change (shape_len date_shape) with 10 in Hm.
  destruct (has_shape date_shape (take 10 (rest c))) eqn:Hd; [|discriminate].
  pose proof (has_shape_length _ _ _ Hd) as Hlen.
  change (shape_len date_shape) with 10 in Hlen. rewrite length_take in Hlen.
  assert (H10 : 10 <= length (rest c)) by lia.
  pose proof (cursor_of_advance text c 10 Hc H10) as Hc10.
  cbn [Re.match_here] in Hm.
  apply (match_here_rep isdecimal isalnum) in Hm as (k & _ & Hk & _ & Hm).
  pose proof (cursor_of_advance text _ k Hc10 Hk) as Hck.
  apply (Htail _ _ _ Hck) in Hm as (Hs1 & He1 & _).
  cbn [snd starts ends no_captures assoc Nat.eqb] in *.
  rewrite advance_pos in He1.
  split; [exact (at_bol_line_start text c Hc Hbol)|].
  unfold event_of, group. cbn [fst m_caps]. rewrite Hs1, He1. reflexivity.
Qed.

Lemma finditer_dated_in_order (tail : regex) (text : str) :
  (forall c' caps res, cursor_of text c' ->
     match_here tail c' caps = Some res -> description_marks text caps res.2) ->
  exists offsets : list nat,
    StronglySorted lt offsets
    /\ Forall2 (dated_at text) offsets
         (map (event_of text) (finditer isdecimal isalnum (dated tail) text)).
Proof.
  intros Htail.
  exists (map m_start (finditer isdecimal isalnum (dated tail) text)).
  split; [apply finditer_from_starts|].
  apply Forall2_fmap, Forall_Forall2_diag, Forall_forall. intros m Hm.
  unfold finditer in Hm.
  apply (finditer_from_matches isdecimal isalnum _ text) in Hm as (c & Hc & Hm).
  - exact (dated_match_at_start tail text c m Htail Hc Hm).
  - unfold cursor_of. cbn [pos rest prev]. split; [lia|]. split; reflexivity.
Qed.

(** X16.  Whatever the text, the movements that event parsing returns
    come in the order of the text: their dates stand at the starts of
    lines at strictly increasing offsets, one offset per movement. *)
Theorem parsed_events_in_text_order (text : str) :
  exists offsets : list nat,
    StronglySorted lt offsets
    /\ Forall2 (dated_at text) offsets (_parse_events isdecimal isalnum text).
Proof.
  unfold _parse_events.
  pose proof (finditer_dated_in_order dash_tail text
                (dash_tail_marks isdecimal isalnum text)) as Hp.
  pose proof (finditer_dated_in_order bare_tail text
                (bare_tail_marks isdecimal isalnum text)) as Hf.
  rewrite <- movement_re_dated in Hp. rewrite <- fallback_re_dated in Hf.
  unfold event_of in Hp, Hf.
  destruct (map _ (finditer isdecimal isalnum MOVEMENT_RE text));
    [exact Hf|exact Hp].
Qed.

End Order.

(** ** The file system through a run *)

(** *** What one document changes in the file system *)

Lemma path_join_parent_name (p : path) :
  p <> [] -> path_join (path_parent p) (path_name p) = p.
Proof.
  intros Hp. unfold path_join, path_parent, path_name.
  destruct (exists_last Hp) as (d & name & ->).
  rewrite removelast_last, last_snoc. reflexivity.
Qed.

Lemma path_join_inj (d d' : path) (a b : str) :
  path_join d a = path_join d' b -> d = d' /\ a = b.
Proof. unfold path_join. intros H. apply app_inj_tail in H. exact H. Qed.

(** [copy2] writes one entry, which is not its source: the destination
    or, when that is a directory, the entry of the source's name in it.
    When it raises it has written nothing. *)
Lemma copy2_writes (src dst : path) (s s' : fs) outcome :
  copy2 src dst s = (outcome, s') ->
  match outcome with
  | Raise _ => s' = s
  | Ok _ =>
      exists content,
        s !! src = Some (RegularFile content)
        /\ s' = <[(if is_dir s dst then path_join dst (path_name src) else dst)
                  := RegularFile content]> s
        /\ (if is_dir s dst then path_join dst (path_name src) else dst) <> src
  end.
Proof.
  unfold copy2. intros Hrun.
  destruct (s !! src) as [[content| |]|] eqn:Hsrc;
    try (inversion Hrun; subst; reflexivity).
  set (dst' := if is_dir s dst then path_join dst (path_name src) else dst) in *.
  destruct (bool_decide (dst' = src)) eqn:Hsame;
    [inversion Hrun; subst; reflexivity|].
  apply bool_decide_eq_false in Hsame.
  destruct (s !! dst') as [[old| |]|] eqn:E;
    try (inversion Hrun; subst; reflexivity);
    inversion Hrun; subst; exists content; auto.
Qed.

Section Frame.

Variable isdecimal : char -> bool.
Variable isalnum : char -> bool.
Variable pdftotext : option (path -> path -> fs -> Z * bytes * fs).
Variable bytes_repr : bytes -> str.
Variable decode_utf8_ignore : bytes -> str.
Variable resolve : fs -> path -> path.

Local Abbreviation extract :=
  (extract_text_from_pdf pdftotext bytes_repr decode_utf8_ignore).
Local Abbreviation process_pdf :=
  (process_pdf isdecimal isalnum pdftotext bytes_repr decode_utf8_ignore resolve).
Local Abbreviation load_pdf_results :=
  (load_pdf_results isdecimal isalnum pdftotext bytes_repr decode_utf8_ignore resolve).
Local Abbreviation load_loop :=
  (load_loop isdecimal isalnum pdftotext bytes_repr decode_utf8_ignore resolve).
Local Abbreviation process_all :=
  (process_all isdecimal isalnum pdftotext bytes_repr decode_utf8_ignore resolve).

Hypothesis converter_frame : writes_only_output pdftotext.

(** The extraction keeps every entry but its scratch file. *)
Lemma extract_keeps (pdf dest : path) (s s' : fs) outcome (q : path) x :
  q <> dest ->
  extract pdf dest s = (outcome, s') ->
  s !! q = Some x -> s' !! q = Some x.
Proof.
  intros Hq Hrun Hx. unfold extract_text_from_pdf, mbind_ in Hrun.
  destruct (mkdir_parents (path_parent dest) s) as [[[]|e] s1] eqn:Hmk.
  2:{ inversion Hrun; subst. eapply mkdir_from_keeps; eauto. }
  pose proof (mkdir_from_keeps _ _ _ _ _ Hmk q x Hx) as Hx1.
  pose proof (subprocess_run_frame pdftotext converter_frame pdf dest s1 q Hq)
    as Hfr.
  destruct (subprocess_run pdftotext pdf dest s1) as [[|code err] s2].
  - inversion Hrun; subst. simpl in Hfr. congruence.
  - simpl in Hfr. destruct (code =? 0)%Z.
    + unfold read_text, unlink_missing_ok, ret in Hrun.
      destruct (s2 !! dest) as [[content| |]|] eqn:Hd;
        try (inversion Hrun; subst; congruence).
      rewrite Hd in Hrun. inversion Hrun; subst.
      rewrite lookup_delete_ne by congruence. congruence.
    + inversion Hrun; subst. congruence.
Qed.

(** The steps of [process_pdf] up to the extraction. *)
Lemma process_pdf_steps (p st tmp : path) (s s' : fs) outcome :
  process_pdf p st tmp s = (outcome, s') ->
  exists (s1 : fs) o1,
    mkdir_parents st s = (o1, s1)
    /\ (match o1 with
        | Raise e => outcome = Raise e /\ s' = s1
        | Ok _ =>
            exists (s2 : fs) o2,
              (if bool_decide (resolve s1 p <> resolve s1 (target_of st p))
               then copy2 p (target_of st p) s1 else (Ok tt, s1)) = (o2, s2)
              /\ match o2 with
                 | Raise e => outcome = Raise e /\ s' = s2
                 | Ok _ =>
                     exists o3,
                       extract (target_of st p) (scratch_of tmp p) s2 = (o3, s')
                       /\ match o3 with
                          | Raise e => outcome = Raise e
                          | Ok text =>
                              match _parse_case_number isdecimal isalnum text with
                              | Raise e => outcome = Raise e
                              | Ok number =>
                                  exists r, outcome = Ok r
                                            /\ document_text r = text
                                            /\ stored_path r = target_of st p
                              end
                          end
                 end
        end).
Proof.
  intros Hrun. unfold process_pdf, mbind_ in Hrun.
  fold (target_of st p) (scratch_of tmp p) in Hrun.
  destruct (mkdir_parents st s) as [[[]|e] s1] eqn:Hmk.
  2:{ inversion Hrun; subst. eexists _, _. split; [reflexivity|simpl; auto]. }
  eexists _, _. split; [reflexivity|].
  destruct (if bool_decide _ then _ else _) as [[[]|e] s2] eqn:Hcp.
  2:{ inversion Hrun; subst. eexists _, _. split; [reflexivity|simpl; auto]. }
  eexists _, _. split; [reflexivity|].
  destruct (extract (target_of st p) (scratch_of tmp p) s2)
    as [[text|e] s3] eqn:Hex.
  2:{ inversion Hrun; subst. eexists. split; [reflexivity|simpl; reflexivity]. }
  unfold lift, ret in Hrun.
  destruct (_parse_case_number isdecimal isalnum text) as [number|e] eqn:Hn;
    inversion Hrun; subst; eexists; (split; [reflexivity|]); cbv beta iota; rewrite Hn.
  - eexists. split; [reflexivity|]. split; reflexivity.
  - reflexivity.
Qed.

(** The copy step writes at most one entry, never the source. *)
Lemma copy_step_writes (p st : path) (s1 s2 : fs) o2 :
  (if bool_decide (resolve s1 p <> resolve s1 (target_of st p))
   then copy2 p (target_of st p) s1 else (Ok tt, s1)) = (o2, s2) ->
  forall (q : path) x,
    s1 !! q = Some x ->
    q = p \/ (q <> target_of st p
              /\ q <> path_join (target_of st p) (path_name p)) ->
    s2 !! q = Some x.
Proof.
  intros Hcp q x Hx Hq.
  destruct (bool_decide _); [|inversion Hcp; subst; exact Hx].
  apply copy2_writes in Hcp.
  destruct o2 as [[]|e]; [|subst; exact Hx].
  destruct Hcp as (content & _ & -> & Hne).
  rewrite lookup_insert_ne; [exact Hx|].
  intros Heq. destruct Hq as [->|[H1 H2]]; [contradiction|].
  destruct (is_dir s1 (target_of st p)); congruence.
Qed.

Lemma process_pdf_keeps (p st tmp : path) (s s' : fs) outcome (q : path) x :
  process_pdf p st tmp s = (outcome, s') ->
  s !! q = Some x ->
  q <> scratch_of tmp p ->
  q = p \/ (q <> target_of st p
            /\ q <> path_join (target_of st p) (path_name p)) ->
  s' !! q = Some x.
Proof.
  intros Hrun Hx Hsc Hq.
  apply process_pdf_steps in Hrun as (s1 & o1 & Hmk & Hrest).
  pose proof (mkdir_from_keeps _ _ _ _ _ Hmk q x Hx) as Hx1.
  destruct o1 as [[]|e]; [|destruct Hrest as [_ ->]; exact Hx1].
  destruct Hrest as (s2 & o2 & Hcp & Hrest).
  pose proof (copy_step_writes _ _ _ _ _ Hcp q x Hx1 Hq) as Hx2.
  destruct o2 as [[]|e]; [|destruct Hrest as [_ ->]; exact Hx2].
  destruct Hrest as (o3 & Hex & _).
  exact (extract_keeps _ _ _ _ _ q x Hsc Hex Hx2).
Qed.

(** X4.  Processing one document, whether it succeeds or raises,
    leaves every entry of the file system as it was, apart from the
    stored copy, the entry of the document's name under the stored copy
    (where a directory stands at that path) and the scratch file; the
    source document itself is left as it was unless it is the scratch
    file.  (The converter is taken to write nothing but its output
    file.) *)
Theorem process_pdf_changes_only_copy_and_scratch (p st tmp : path)
    (s s' : fs) (outcome : result PdfImportResult) :
  process_pdf p st tmp s = (outcome, s') ->
  (forall (q : path) x,
      s !! q = Some x ->
      q <> target_of st p ->
      q <> path_join (target_of st p) (path_name p) ->
      q <> scratch_of tmp p ->
      s' !! q = Some x)
  /\ (forall x, s !! p = Some x -> p <> scratch_of tmp p -> s' !! p = Some x).
Proof.
  intros Hrun. split.
  - intros q x Hx H1 H2 H3.
    exact (process_pdf_keeps _ _ _ _ _ _ q x Hrun Hx H3 (or_intror (conj H1 H2))).
  - intros x Hx Hsc.
    exact (process_pdf_keeps _ _ _ _ _ _ p x Hrun Hx Hsc (or_introl eq_refl)).
Qed.

(** *** The stored copy *)

Lemma mkdir_from_longer (comps pre q : path) (s s' : fs) outcome :
  mkdir_from pre comps s = (outcome, s') ->
  length pre + length comps < length q ->
  s' !! q = s !! q.
Proof.
  revert pre s. induction comps as [|c comps IH]; intros pre s Hrun Hlen.
  - inversion Hrun; subst. reflexivity.
  - simpl in Hrun, Hlen.
    assert (Hne : pre ++ [c] <> q).
    { intros <-. rewrite length_app in Hlen. simpl in Hlen. lia. }
    assert (Hlen' : length (pre ++ [c]) + length comps < length q).
    { rewrite length_app. simpl. lia. }
    destruct (s !! (pre ++ [c])) as [[| |]|] eqn:E.
    + inversion Hrun; subst. reflexivity.
    + exact (IH _ _ Hrun Hlen').
    + inversion Hrun; subst. reflexivity.
    + rewrite (IH _ _ Hrun Hlen'). apply lookup_insert_ne. exact Hne.
Qed.

Lemma target_not_scratch (p st tmp : path) :
  pdf_name (path_name p) -> target_of st p <> scratch_of tmp p.
Proof.
  intros Hp Heq. apply path_join_inj in Heq as [_ Hn].
  exact (pdf_name_not_txt _ _ Hp Hn).
Qed.

Lemma source_not_scratch (p tmp : path) :
  pdf_name (path_name p) -> p <> scratch_of tmp p.
Proof.
  intros Hp Heq. rewrite Heq in Hp at 1. unfold scratch_of in Hp.
  rewrite path_name_join in Hp. exact (pdf_name_not_txt _ _ Hp eq_refl).
Qed.

(** After a successful extraction the scratch file is gone. *)
Lemma extract_ok_no_scratch (pdf dest : path) (s s' : fs) text :
  extract pdf dest s = (Ok text, s') -> s' !! dest = None.
Proof.
  intros Hrun. unfold extract_text_from_pdf, mbind_ in Hrun.
  destruct (mkdir_parents (path_parent dest) s) as [[[]|e] s1]; [|discriminate].
  destruct (subprocess_run pdftotext pdf dest s1) as [[|code err] s2];
    [discriminate|].
  destruct (code =? 0)%Z; [|discriminate].
  unfold read_text, unlink_missing_ok, ret in Hrun.
  destruct (s2 !! dest) as [[content| |]|] eqn:Hd; try discriminate.
  rewrite Hd in Hrun. inversion Hrun; subst. apply lookup_delete_eq.
Qed.

(** X5.  When processing a regular file named "*.pdf" succeeds, no
    directory standing at the path of the stored copy and the source
    resolving to the same file as that path only if it is that path, the
    stored path of the result is the storage directory joined with the
    name of the source, a regular file with the bytes of the source is
    there, the source is unchanged, and nothing is left at the scratch
    path. *)
Theorem process_pdf_stores_a_copy (p st tmp : path) (s s' : fs)
    (content : bytes) (r : PdfImportResult) :
  resolve_apart resolve p (target_of st p) ->
  pdf_name (path_name p) ->
  s !! p = Some (RegularFile content) ->
  is_dir s (target_of st p) = false ->
  process_pdf p st tmp s = (Ok r, s') ->
  stored_path r = target_of st p
  /\ s' !! stored_path r = Some (RegularFile content)
  /\ s' !! p = Some (RegularFile content)
  /\ s' !! scratch_of tmp p = None.
Proof.
  intros Hlinks Hname Hsrc Hdir Hrun.
  pose proof (process_pdf_keeps _ _ _ _ _ _ p _ Hrun Hsrc
                (source_not_scratch p tmp Hname) (or_introl eq_refl)) as Hkept.
  apply process_pdf_steps in Hrun as (s1 & o1 & Hmk & Hrest).
  destruct o1 as [[]|e]; [|destruct Hrest as [? _]; discriminate].
  destruct Hrest as (s2 & o2 & Hcp & Hrest).
  destruct o2 as [[]|e]; [|destruct Hrest as [? _]; discriminate].
  destruct Hrest as (o3 & Hex & Hrest).
  destruct o3 as [text|e]; [|discriminate].
  destruct (_parse_case_number isdecimal isalnum text); [|discriminate].
  destruct Hrest as (r' & [= <-] & _ & Hstored).
  rewrite Hstored. split; [reflexivity|].
  split; [|split; [exact Hkept|exact (extract_ok_no_scratch _ _ _ _ _ Hex)]].
  apply (extract_keeps _ _ _ _ _ _ _ (target_not_scratch p st tmp Hname) Hex).
  pose proof (mkdir_from_keeps _ _ _ _ _ Hmk p _ Hsrc) as Hsrc1.
  destruct (bool_decide (resolve s1 p <> resolve s1 (target_of st p))) eqn:Hres.
  - assert (Hdir1 : is_dir s1 (target_of st p) = false).
    { unfold is_dir. rewrite (mkdir_from_longer _ _ _ _ _ _ Hmk); [exact Hdir|].
      unfold target_of, path_join. rewrite length_app. simpl. lia. }
    apply copy2_writes in Hcp as (c & Hc & -> & _).
    rewrite Hdir1, lookup_insert_eq. congruence.
  - apply bool_decide_eq_false in Hres.
    assert (Heq : p = target_of st p).
    { apply (Hlinks s1). destruct (decide (resolve s1 p = resolve s1 (target_of st p)));
        [assumption|contradiction]. }
    inversion Hcp; subst s2. rewrite <- Heq. exact Hsrc1.
Qed.

(** *** What a run changes in the file system *)

(** An entry of the source directory is the stored copy of a document, or
    the entry of its name under that copy, only if it is that document. *)
Lemma sibling_not_overwritten (d p q st : path) :
  p <> [] -> path_parent p = d ->
  q <> [] -> path_parent q = d ->
  q = target_of st p \/ q = path_join (target_of st p) (path_name p) ->
  q = p.
Proof.
  intros Hp Hdp Hq Hdq Heq.
  rewrite <- (path_join_parent_name q Hq), <- (path_join_parent_name p Hp).
  rewrite Hdq, Hdp. f_equal.
  rewrite <- (path_join_parent_name q Hq) in Heq.
  destruct Heq as [Heq|Heq]; apply path_join_inj in Heq as [_ Hn]; exact Hn.
Qed.

Lemma process_all_keeps (d st tmp : path) (paths : list path) :
  Forall (fun p : path => p <> [] /\ path_parent p = d) paths ->
  forall (s s' : fs) outcome (q : path) x,
    process_all paths st tmp s = (outcome, s') ->
    q <> [] -> path_parent q = d -> pdf_name (path_name q) ->
    s !! q = Some x -> s' !! q = Some x.
Proof.
  induction 1 as [|p paths [Hp Hdp] _ IH]; intros s s' outcome q x Hrun Hq Hdq Hn Hx.
  - inversion Hrun; subst. exact Hx.
  - simpl in Hrun. unfold mbind_ in Hrun.
    destruct (process_pdf p st tmp s) as [o1 s1] eqn:Hr.
    assert (Hx1 : s1 !! q = Some x).
    { apply (process_pdf_keeps _ _ _ _ _ _ q x Hr Hx).
      - intros Heq. rewrite Heq in Hn at 1. unfold scratch_of in Hn.
        rewrite path_name_join in Hn. exact (pdf_name_not_txt _ _ Hn eq_refl).
      - destruct (decide (q = p)) as [->|Hne]; [left; reflexivity|right].
        split; intros Heq; apply Hne;
          apply (sibling_not_overwritten d p q st Hp Hdp Hq Hdq); auto. }
    destruct o1 as [r|e]; [|inversion Hrun; subst; exact Hx1].
    destruct (process_all paths st tmp s1) as [[rs|e] s2] eqn:Hrs;
      inversion Hrun; subst; exact (IH _ _ _ q x Hrs Hq Hdq Hn Hx1).
Qed.

(** X6.  Loading a directory, whether it returns or raises, leaves every
    document of the directory (every regular "*.pdf" file that was in
    it) with the content it had. *)
Theorem run_keeps_source_documents (d st tmp : path) (s s' : fs)
    (outcome : result (list PdfImportResult)) :
  load_pdf_results d st tmp s = (outcome, s') ->
  forall p : path, p ∈ _iter_pdf_files s d -> s' !! p = s !! p.
Proof.
  intros Hrun p Hp.
  rewrite (load_pdf_results_iter isdecimal isalnum pdftotext bytes_repr
             decode_utf8_ignore resolve converter_frame) in Hrun.
  assert (Hall : Forall (fun p : path => p <> [] /\ path_parent p = d)
                        (_iter_pdf_files s d)).
  { apply Forall_forall. intros q Hq.
    apply elem_of_iter_pdf_files in Hq as (_ & H1 & H2 & _). auto. }
  apply elem_of_iter_pdf_files in Hp as (Hf & Hne & Hd & Hn).
  unfold is_file in Hf. destruct (s !! p) as [x|] eqn:Hx; [|discriminate].
  exact (process_all_keeps d st tmp _ Hall _ _ _ p x Hrun Hne Hd Hn Hx).
Qed.

(** X7.  When loading a directory returns, it returns one result per
    document of the directory, and no two results have the same stored
    path. *)
Theorem stored_paths_distinct (d st tmp : path) (s s' : fs)
    (rs : list PdfImportResult) :
  load_pdf_results d st tmp s = (Ok rs, s') ->
  NoDup (map stored_path rs)
  /\ length rs = length (_iter_pdf_files s d).
Proof.
  intros Hrun.
  rewrite (load_pdf_results_iter isdecimal isalnum pdftotext bytes_repr
             decode_utf8_ignore resolve converter_frame) in Hrun.
  pose proof (process_all_stored_paths _ _ _ _ _ _ _ _ _ _ _ _ Hrun) as Hmap.
  split.
  - rewrite Hmap. apply NoDup_fmap_2_strong.
    + intros p q Hp Hq Heq.
      apply elem_of_iter_pdf_files in Hp as (_ & Hp & Hdp & _).
      apply elem_of_iter_pdf_files in Hq as (_ & Hq & Hdq & _).
      apply path_join_inj in Heq as [_ Hn].
      rewrite <- (path_join_parent_name p Hp), <- (path_join_parent_name q Hq).
      congruence.
    + apply iter_pdf_files_sorted.
  - rewrite <- (length_map stored_path rs), Hmap, length_map. reflexivity.
Qed.

(** *** A directory without documents *)

Lemma load_loop_no_files (paths : list path) (st tmp : path) (s : fs) :
  filter (fun p => is_file s p = true) paths = [] ->
  load_loop paths st tmp s = (Ok [], s).
Proof.
  induction paths as [|p paths IH]; intros Hnone; [reflexivity|].
  rewrite filter_cons in Hnone. simpl.
  destruct (is_file s p) eqn:Ef.
  - rewrite decide_True in Hnone by reflexivity. discriminate.
  - rewrite decide_False in Hnone by congruence. exact (IH Hnone).
Qed.

(** X8.  Loading a directory that holds no regular "*.pdf" file returns
    the empty list and changes nothing in the file system: neither the
    storage nor the scratch directory is created. *)
Theorem no_documents_no_changes (d st tmp : path) (s : fs) :
  _iter_pdf_files s d = [] ->
  load_pdf_results d st tmp s = (Ok [], s).
Proof.
  intros Hnone. unfold load_pdf_results.
  apply load_loop_no_files. exact Hnone.
Qed.

End Frame.

(** ** The tables through a run *)

(** *** Row identifiers *)

Lemma foldr_max_ge (ids : list Z) (x : Z) :
  x ∈ ids -> (x <= foldr Z.max 0 ids)%Z.
Proof.
  induction ids as [|y ids IH]; intros Hx.
  - apply elem_of_nil in Hx. contradiction.
  - simpl. apply elem_of_cons in Hx as [->|Hx]; [lia|].
    specialize (IH Hx). lia.
Qed.

(** The rowid of a new row is none of those in the table. *)
Lemma next_rowid_fresh (ids : list Z) (seq : Z) : next_rowid ids seq ∉ ids.
Proof.
  intros Hin. apply foldr_max_ge in Hin. unfold next_rowid in Hin. lia.
Qed.

Lemma map_fixed {A} (f : A -> A) (l : list A) :
  (forall x, x ∈ l -> f x = x) -> map f l = l.
Proof.
  induction l as [|x l IH]; intros H; [reflexivity|]. simpl.
  rewrite H by left. rewrite IH; [reflexivity|].
  intros y Hy. apply H. right. exact Hy.
Qed.

Lemma upsert_ids number ttl pdf_path now t :
  map p_id (processes (upsert_process number ttl pdf_path now t))
  = if bool_decide (number ∈ map p_number (processes t))
    then map p_id (processes t)
    else map p_id (processes t)
         ++ [next_rowid (map p_id (processes t)) (seq_processes t)].
Proof.
  destruct (bool_decide_reflect (number ∈ map p_number (processes t))) as [H|H].
  - rewrite (upsert_existing _ _ _ _ _ H).
    rewrite map_map. apply map_ext. intros r. apply retitle_id.
  - rewrite (upsert_fresh _ _ _ _ _ H). rewrite map_app. reflexivity.
Qed.

Lemma upsert_unique_ids number ttl pdf_path now t :
  unique_ids t -> unique_ids (upsert_process number ttl pdf_path now t).
Proof.
  unfold unique_ids. intros H. rewrite upsert_ids.
  destruct (bool_decide _); [exact H|].
  apply NoDup_app. split; [exact H|]. split.
  - intros x Hx Hx'. apply list_elem_of_singleton in Hx'. subst.
    exact (next_rowid_fresh _ _ Hx).
  - apply NoDup_singleton.
Qed.

Lemma upsert_ids_grow number ttl pdf_path now t (id : Z) :
  id ∈ map p_id (processes t) ->
  id ∈ map p_id (processes (upsert_process number ttl pdf_path now t)).
Proof.
  intros H. rewrite upsert_ids. destruct (bool_decide _); [exact H|].
  apply elem_of_app. left. exact H.
Qed.

Lemma upsert_appointments number ttl pdf_path now t :
  appointments (upsert_process number ttl pdf_path now t) = appointments t.
Proof.
  unfold upsert_process.
  destruct (existsb (has_number number) (processes t)); reflexivity.
Qed.

Lemma select_row number t pid :
  select_process_id number t = Some pid ->
  exists row, row ∈ processes t /\ p_number row = number /\ p_id row = pid.
Proof.
  unfold select_process_id. intros H.
  destruct (find (has_number number) (processes t)) as [row|] eqn:Hf;
    [|discriminate].
  injection H as <-. apply find_some in Hf as [Hin Hn].
  exists row. split; [apply list_elem_of_In, Hin|].
  unfold has_number in Hn. apply bool_decide_eq_true in Hn. auto.
Qed.

Lemma select_in_ids number t pid :
  select_process_id number t = Some pid -> pid ∈ map p_id (processes t).
Proof.
  intros H. apply select_row in H as (row & Hin & _ & <-).
  apply list_elem_of_fmap. eauto.
Qed.

Lemma insert_events_appointments rows t :
  appointments (insert_events rows t) = appointments t.
Proof.
  revert t. induction rows as [|[[pid d] desc] rows IH]; intros t; [reflexivity|].
  change (insert_events ((pid, d, desc) :: rows) t)
    with (insert_events rows (insert_event (pid, d, desc) t)).
  rewrite IH. reflexivity.
Qed.

Lemma filter_twice {A} (P : A -> Prop) `{forall x, Decision (P x)} (l : list A) :
  filter P (filter P l) = filter P l.
Proof.
  apply filter_all, Forall_forall. intros x Hx.
  apply list_elem_of_filter in Hx as [Hx _]. exact Hx.
Qed.

Section Integrity.

Variable fault : nat -> bool.
Variable isoformat : nat -> str.

Local Abbreviation persist_result := (persist_result fault isoformat).
Local Abbreviation persist_import_results := (persist_import_results fault isoformat).
Local Abbreviation upserted := (upserted isoformat).
Local Abbreviation imported := (imported isoformat).

(** The tables after an import, one by one. *)
Lemma imported_tables now r pid t :
  exists news doc,
    t_events (imported now r pid t)
    = filter (fun e => e_process_id e <> pid) (t_events t) ++ news
    /\ map event_content news = map (fun '(d, desc) => (pid, d, desc)) (events r)
    /\ documents (imported now r pid t)
       = filter (fun d => d_process_id d <> pid) (documents t) ++ [doc]
    /\ document_content doc
       = (pid, path_name (stored_path r), document_text r)
    /\ processes (imported now r pid t) = processes (upserted now r t)
    /\ appointments (imported now r pid t) = appointments t.
Proof.
  destruct (insert_events_spec
              (map (fun '(d, desc) => (pid, d, desc)) (events r))
              (delete_documents pid (delete_events pid (upserted now r t))))
    as (news & Hev & Hmap & Hp & Hd).
  destruct (upsert_other_tables (process_number r) (title r)
              (path_str (stored_path r)) (isoformat now) t) as [Hue Hud].
  exists news. eexists.
  unfold imported. cbn [t_events documents processes appointments insert_document].
  rewrite Hev, Hd, Hp. cbn [t_events documents processes delete_documents delete_events].
  unfold upserted. rewrite Hue, Hud.
  split; [reflexivity|]. split; [exact Hmap|]. split; [reflexivity|].
  split; [reflexivity|]. split; [reflexivity|].
  rewrite insert_events_appointments. cbn [appointments delete_documents delete_events].
  apply upsert_appointments.
Qed.

Lemma upserted_no_orphans now r t :
  no_orphans t -> no_orphans (upserted now r t).
Proof.
  intros [He Hd].
  destruct (upsert_other_tables (process_number r) (title r)
              (path_str (stored_path r)) (isoformat now) t) as [Hue Hud].
  unfold upserted. split.
  - intros e Hin. rewrite Hue in Hin. apply upsert_ids_grow, He, Hin.
  - intros d Hin. rewrite Hud in Hin. apply upsert_ids_grow, Hd, Hin.
Qed.

Lemma imported_no_orphans now r pid t :
  no_orphans t ->
  select_process_id (process_number r) (upserted now r t) = Some pid ->
  no_orphans (imported now r pid t).
Proof.
  intros Hno Hsel. apply (upserted_no_orphans now r) in Hno as [He Hd].
  destruct (upsert_other_tables (process_number r) (title r)
              (path_str (stored_path r)) (isoformat now) t) as [Hue Hud].
  unfold upserted in He, Hd. rewrite Hue in He. rewrite Hud in Hd.
  apply select_in_ids in Hsel.
  destruct (imported_tables now r pid t)
    as (news & doc & Hev & Hmap & Hdoc & Hc & Hp & _).
  split.
  - intros e Hin. rewrite Hp. rewrite Hev in Hin.
    apply elem_of_app in Hin as [Hin|Hin].
    + apply list_elem_of_filter in Hin as [_ Hin]. apply He, Hin.
    + assert (Hin' : event_content e
                     ∈ map (fun '(d, desc) => (pid, d, desc)) (events r)).
      { rewrite <- Hmap. apply list_elem_of_fmap. eauto. }
      apply list_elem_of_fmap in Hin' as ([d desc] & Heq & _).
      unfold event_content in Heq. simpl in Heq.
      replace (e_process_id e) with pid by congruence. exact Hsel.
  - intros d Hin. rewrite Hp. rewrite Hdoc in Hin.
    apply elem_of_app in Hin as [Hin|Hin].
    + apply list_elem_of_filter in Hin as [_ Hin]. apply Hd, Hin.
    + apply list_elem_of_singleton in Hin as ->.
      unfold document_content in Hc.
      replace (d_process_id doc) with pid by congruence. exact Hsel.
Qed.

(** What one import keeps, wherever it stops. *)
Lemma persist_result_integrity r c t outcome c' :
  quiescent c t -> unique_ids t -> no_orphans t ->
  persist_result r c = (outcome, c') ->
  exists t',
    committed c' = Some t' /\ unique_ids t' /\ no_orphans t'
    /\ appointments t' = appointments t
    /\ (outcome = Ok tt -> quiescent c' t').
Proof.
  intros Hq Hu Hno Hrun.
  destruct (persist_result_cases _ _ _ _ _ _ _ Hq Hrun)
    as [(i & _ & _ & -> & [Hc|Hc])|(-> & pid & Hsel & Hq')].
  - exists t. split; [exact Hc|]. split; [exact Hu|]. split; [exact Hno|].
    split; [reflexivity|discriminate].
  - exists (upserted (clock c) r t). split; [exact Hc|].
    split; [apply upsert_unique_ids, Hu|].
    split; [apply upserted_no_orphans, Hno|].
    split; [apply upsert_appointments|discriminate].
  - exists (imported (clock c) r pid t). split; [apply Hq'|].
    destruct (imported_tables (clock c) r pid t)
      as (_ & _ & _ & _ & _ & _ & Hp & Ha).
    split; [unfold unique_ids; rewrite Hp; apply upsert_unique_ids, Hu|].
    split; [exact (imported_no_orphans _ _ _ _ Hno Hsel)|].
    split; [exact Ha|]. intros _. exact Hq'.
Qed.

Lemma persist_import_results_integrity rs c t outcome c' :
  quiescent c t -> unique_ids t -> no_orphans t ->
  persist_import_results rs c = (outcome, c') ->
  exists t',
    committed c' = Some t' /\ unique_ids t' /\ no_orphans t'
    /\ appointments t' = appointments t.
Proof.
  revert c t. induction rs as [|r rs IH]; intros c t Hq Hu Hno Hrun.
  - inversion Hrun; subst. exists t. split; [apply Hq|auto].
  - simpl in Hrun. unfold mbind_ in Hrun.
    destruct (persist_result r c) as [out1 c1] eqn:Hr.
    destruct (persist_result_integrity _ _ _ _ _ Hq Hu Hno Hr)
      as (t1 & Hc1 & Hu1 & Hno1 & Ha1 & Hok).
    destruct out1 as [[]|e].
    + destruct (IH _ _ (Hok eq_refl) Hu1 Hno1 Hrun) as (t' & Hc' & Hu' & Hno' & Ha').
      exists t'. split; [exact Hc'|]. split; [exact Hu'|]. split; [exact Hno'|].
      congruence.
    + inversion Hrun; subst. exists t1. auto.
Qed.

End Integrity.

Section BuildIntegrity.

Variable isdecimal : char -> bool.
Variable isalnum : char -> bool.
Variable pdftotext : option (path -> path -> fs -> Z * bytes * fs).
Variable bytes_repr : bytes -> str.
Variable decode_utf8_ignore : bytes -> str.
Variable resolve : fs -> path -> path.
Variable fault : nat -> bool.
Variable isoformat : nat -> str.

Local Abbreviation build_database :=
  (build_database isdecimal isalnum pdftotext bytes_repr decode_utf8_ignore
     resolve fault isoformat).

(** X9.  If in the database no two process rows share an identifier and
    every event and document row belongs to a process row, then this
    still holds of the database that a run of [build_database] leaves,
    whether the run returns or raises, and its appointments are the ones
    it had (none, for a database the run created). *)
Theorem build_database_keeps_integrity (source_dir database_path : path)
    (w w' : world) (outcome : result unit) :
  (forall t, w_db w = Some t -> unique_ids t /\ no_orphans t) ->
  build_database source_dir database_path w = (outcome, w') ->
  forall t', w_db w' = Some t' ->
    unique_ids t' /\ no_orphans t'
    /\ appointments t' = appointments (default empty_tables (w_db w)).
Proof.
  intros Hinv Hrun t' Ht'. unfold build_database in Hrun.
  assert (Hsame : w_db w = Some t' ->
            unique_ids t' /\ no_orphans t'
            /\ appointments t' = appointments (default empty_tables (w_db w))).
  { intros E. destruct (Hinv _ E) as [Hu Hno]. rewrite E. auto. }
  destruct (load_pdf_results _ _ _ _ _ _ source_dir _ _ (w_fs w))
    as [[results|e] s'].
  2:{ inversion Hrun; subst. apply Hsame. exact Ht'. }
  destruct (can_open s' database_path).
  2:{ inversion Hrun; subst. apply Hsame. exact Ht'. }
  unfold ensure_schema, commit, connect in Hrun. unfold mbind_ in Hrun.
  cbn in Hrun.
  destruct (fault 0).
  { inversion Hrun; subst. apply Hsame. exact Ht'. }
  cbn in Hrun. destruct (fault 1).
  { inversion Hrun; subst. apply Hsame. exact Ht'. }
  cbn in Hrun.
  set (t0 := default empty_tables (w_db w)) in *.
  assert (Hinv0 : unique_ids t0 /\ no_orphans t0).
  { unfold t0. destruct (w_db w) as [t|]; [apply Hinv; reflexivity|].
    split; [apply NoDup_nil_2|].
    split; intros x Hx; apply elem_of_nil in Hx; contradiction. }
  destruct Hinv0 as [Hu0 Hno0].
  destruct (persist_import_results fault isoformat results
              (Conn (Some t0) (Some t0) 2 0)) as [out c'] eqn:Hp.
  assert (Hq : quiescent (Conn (Some t0) (Some t0) 2 0) t0)
    by (split; reflexivity).
  destruct (persist_import_results_integrity fault isoformat results _ t0 out c'
              Hq Hu0 Hno0 Hp) as (t1 & Hc & Hu1 & Hno1 & Ha1).
  inversion Hrun; subst. unfold close in Ht'. simpl in Ht'.
  assert (t' = t1) by congruence. subst t'. auto.
Qed.

End BuildIntegrity.

(** *** Importing again, and importing another case *)

Lemma find_app {A} (f : A -> bool) (l l' : list A) :
  find f (l ++ l') = match find f l with
                     | Some x => Some x
                     | None => find f l'
                     end.
Proof.
  induction l as [|x l IH]; simpl; [reflexivity|].
  destruct (f x); [reflexivity|exact IH].
Qed.

(** The upsert of one case number leaves the identifier found for any
    number that was there. *)
Lemma select_after_upsert_other number ttl pdf_path now other t pid :
  select_process_id other t = Some pid ->
  select_process_id other (upsert_process number ttl pdf_path now t) = Some pid.
Proof.
  unfold select_process_id. intros Hsel.
  destruct (decide (number ∈ map p_number (processes t))) as [H|H].
  - rewrite (upsert_existing _ _ _ _ _ H). rewrite <- Hsel.
    clear Hsel H. induction (processes t) as [|r rows IH]; [reflexivity|].
    simpl.
    assert (Hn : has_number other (retitle number ttl pdf_path r)
                 = has_number other r).
    { unfold has_number. rewrite retitle_number. reflexivity. }
    rewrite Hn. destruct (has_number other r); [|exact IH].
    simpl. rewrite retitle_id. reflexivity.
  - rewrite (upsert_fresh _ _ _ _ _ H), find_app.
    destruct (find (has_number other) (processes t)); [exact Hsel|discriminate].
Qed.

(** A row the upsert leaves under its case number carries the title and
    the path it was given. *)
Lemma upsert_row_written number ttl pdf_path now t row :
  row ∈ processes (upsert_process number ttl pdf_path now t) ->
  p_number row = number ->
  retitle number ttl pdf_path row = row.
Proof.
  intros Hin Hn.
  destruct (decide (number ∈ map p_number (processes t))) as [H|H].
  - rewrite (upsert_existing _ _ _ _ _ H) in Hin.
    apply list_elem_of_fmap in Hin as (row0 & -> & _).
    rewrite retitle_number in Hn. unfold retitle, has_number.
    destruct (bool_decide_reflect (p_number row0 = number)); [|contradiction].
    simpl. rewrite bool_decide_eq_true_2 by exact Hn. reflexivity.
  - rewrite (upsert_fresh _ _ _ _ _ H) in Hin.
    apply elem_of_app in Hin as [Hin|Hin].
    + exfalso. apply H. apply list_elem_of_fmap. exists row. auto.
    + apply list_elem_of_singleton in Hin as ->.
      unfold retitle, has_number. simpl.
      rewrite bool_decide_eq_true_2 by reflexivity. reflexivity.
Qed.

Lemma upsert_again number ttl pdf_path now now' t t1 :
  processes t1 = processes (upsert_process number ttl pdf_path now t) ->
  processes (upsert_process number ttl pdf_path now' t1) = processes t1.
Proof.
  intros Hp.
  destruct (upsert_writes_row number ttl pdf_path now t)
    as (row & Hin & Hn & _).
  rewrite upsert_existing.
  - apply map_fixed. intros x Hx. rewrite Hp in Hx.
    destruct (has_number number x) eqn:E.
    + apply (upsert_row_written _ _ _ now t x Hx).
      unfold has_number in E. apply bool_decide_eq_true in E. exact E.
    + unfold retitle. rewrite E. reflexivity.
  - rewrite Hp. apply list_elem_of_fmap. exists row. auto.
Qed.

Lemma rows_of_one_process (pid : Z) (rows : list (str * str))
    (news : list event_row) :
  map event_content news = map (fun '(d, desc) => (pid, d, desc)) rows ->
  filter (fun e => e_process_id e <> pid) news = [].
Proof.
  intros Hmap. apply filter_none, Forall_forall. intros e He Hne. apply Hne.
  assert (Hin : event_content e ∈ map (fun '(d, desc) => (pid, d, desc)) rows).
  { rewrite <- Hmap. apply list_elem_of_fmap. eauto. }
  apply list_elem_of_fmap in Hin as ([d desc] & Heq & _).
  unfold event_content in Heq. simpl in Heq. congruence.
Qed.

Lemma NoDup_map_inj {A B} (f : A -> B) (l : list A) (x y : A) :
  NoDup (map f l) -> x ∈ l -> y ∈ l -> f x = f y -> x = y.
Proof.
  induction l as [|z l IH]; intros Hnd Hx Hy Heq.
  - apply elem_of_nil in Hx. contradiction.
  - simpl in Hnd. apply NoDup_cons in Hnd as [Hz Hnd].
    apply elem_of_cons in Hx as [->|Hx]; apply elem_of_cons in Hy as [->|Hy].
    + reflexivity.
    + exfalso. apply Hz. rewrite Heq. apply list_elem_of_fmap. eauto.
    + exfalso. apply Hz. rewrite <- Heq. apply list_elem_of_fmap. eauto.
    + exact (IH Hnd Hx Hy Heq).
Qed.

Section Again.

Variable fault : nat -> bool.
Variable isoformat : nat -> str.

Local Abbreviation persist_result := (persist_result fault isoformat).
Local Abbreviation persist_import_results := (persist_import_results fault isoformat).
Local Abbreviation upserted := (upserted isoformat).
Local Abbreviation imported := (imported isoformat).

(** X10.  Persisting the same import result a second time leaves the
    process table exactly as the first time left it, and the event and
    document tables with the same rows in the same order up to row
    identifiers and time stamps; the appointments are not touched. *)
Theorem reimport_changes_no_content r c t c1 c2 :
  quiescent c t ->
  persist_result r c = (Ok tt, c1) ->
  persist_result r c1 = (Ok tt, c2) ->
  exists t1 t2,
    quiescent c1 t1 /\ quiescent c2 t2
    /\ processes t2 = processes t1
    /\ map event_content (t_events t2) = map event_content (t_events t1)
    /\ map document_content (documents t2)
       = map document_content (documents t1)
    /\ appointments t2 = appointments t1.
Proof.
  intros Hq Hrun1 Hrun2.
  destruct (persist_result_cases _ _ _ _ _ _ _ Hq Hrun1)
    as [(i & _ & _ & Hout & _)|(_ & pid & Hsel & Hq1)]; [discriminate|].
  destruct (persist_result_cases _ _ _ _ _ _ _ Hq1 Hrun2)
    as [(i & _ & _ & Hout & _)|(_ & pid' & Hsel' & Hq2)]; [discriminate|].
  set (t1 := imported (clock c) r pid t) in *.
  exists t1, (imported (clock c1) r pid' t1).
  split; [exact Hq1|]. split; [exact Hq2|].
  destruct (imported_tables isoformat (clock c) r pid t)
    as (news1 & doc1 & Hev1 & Hmap1 & Hdoc1 & Hc1 & Hp1 & Ha1).
  fold t1 in Hev1, Hdoc1, Hp1, Ha1.
  assert (Hup : processes (upserted (clock c1) r t1) = processes t1).
  { unfold upserted. eapply upsert_again. exact Hp1. }
  assert (Hpid : pid' = pid).
  { unfold select_process_id in Hsel, Hsel'. rewrite Hup, Hp1 in Hsel'.
    congruence. }
  subst pid'.
  destruct (imported_tables isoformat (clock c1) r pid t1)
    as (news2 & doc2 & Hev2 & Hmap2 & Hdoc2 & Hc2 & Hp2 & Ha2).
  split; [rewrite Hp2; exact Hup|].
  split; [|split; [|exact Ha2]].
  - rewrite Hev2, Hev1, filter_app, filter_twice.
    rewrite (rows_of_one_process pid (events r) news1 Hmap1), app_nil_r.
    rewrite !map_app. congruence.
  - rewrite Hdoc2, Hdoc1, filter_app, filter_twice.
    rewrite filter_cons, decide_False.
    2:{ intros Hne. apply Hne. unfold document_content in Hc1. congruence. }
    rewrite filter_nil, app_nil_r, !map_app. simpl. congruence.
Qed.

(** X11.  When two results with distinct case numbers are persisted in
    one batch into a database whose process identifiers are unique, they
    end up under two distinct process identifiers, each with exactly its
    own movements, in order, and its own single document. *)
Theorem distinct_numbers_independent r1 r2 c t c' :
  quiescent c t -> unique_ids t ->
  process_number r1 <> process_number r2 ->
  persist_import_results [r1; r2] c = (Ok tt, c') ->
  exists t' pid1 pid2,
    quiescent c' t'
    /\ select_process_id (process_number r1) t' = Some pid1
    /\ select_process_id (process_number r2) t' = Some pid2
    /\ pid1 <> pid2
    /\ map (fun e => (e_event_date e, e_description e)) (events_of pid1 t')
       = events r1
    /\ map (fun e => (e_event_date e, e_description e)) (events_of pid2 t')
       = events r2
    /\ (exists d, documents_of pid1 t' = [d]
                  /\ d_file_name d = path_name (stored_path r1)
                  /\ d_content d = document_text r1)
    /\ (exists d, documents_of pid2 t' = [d]
                  /\ d_file_name d = path_name (stored_path r2)
                  /\ d_content d = document_text r2).
Proof.
  intros Hq Hu Hne Hrun. simpl in Hrun. unfold mbind_ in Hrun.
  destruct (persist_result r1 c) as [[[]|e] c1] eqn:Hr1; [|discriminate].
  destruct (persist_result r2 c1) as [[[]|e] c2] eqn:Hr2; [|discriminate].
  inversion Hrun; subst c2. clear Hrun.
  destruct (persist_result_cases _ _ _ _ _ _ _ Hq Hr1)
    as [(i & _ & _ & Hout & _)|(_ & pid1 & Hsel1 & Hq1)]; [discriminate|].
  destruct (persist_result_cases _ _ _ _ _ _ _ Hq1 Hr2)
    as [(i & _ & _ & Hout & _)|(_ & pid2 & Hsel2 & Hq2)]; [discriminate|].
  set (t1 := imported (clock c) r1 pid1 t) in *.
  set (t2 := imported (clock c1) r2 pid2 t1) in *.
  exists t2, pid1, pid2. split; [exact Hq2|].
  assert (Hs1 : select_process_id (process_number r1) (upserted (clock c1) r2 t1)
                = Some pid1).
  { apply select_after_upsert_other. unfold t1.
    rewrite imported_select. exact Hsel1. }
  assert (Hu2 : unique_ids (upserted (clock c1) r2 t1)).
  { apply upsert_unique_ids. unfold unique_ids, t1.
    rewrite imported_processes. apply upsert_unique_ids, Hu. }
  assert (Hpid : pid1 <> pid2).
  { intros Heq. apply Hne.
    apply select_row in Hs1 as (row1 & Hin1 & Hn1 & Hi1).
    apply select_row in Hsel2 as (row2 & Hin2 & Hn2 & Hi2).
    assert (row1 = row2); [|congruence].
    apply (NoDup_map_inj p_id (processes (upserted (clock c1) r2 t1)));
      [exact Hu2|exact Hin1|exact Hin2|congruence]. }
  destruct (imported_events isoformat (clock c) r1 pid1 t) as [He1 _].
  destruct (imported_documents isoformat (clock c) r1 pid1 t) as [Hd1 _].
  destruct (imported_events isoformat (clock c1) r2 pid2 t1) as [He2 Heo].
  destruct (imported_documents isoformat (clock c1) r2 pid2 t1) as [Hd2 Hdo].
  fold t1 in He1, Hd1. fold t2 in He2, Hd2, Heo, Hdo.
  split.
  { unfold select_process_id, t2. rewrite imported_processes. exact Hs1. }
  split; [unfold t2; rewrite imported_select; exact Hsel2|].
  split; [exact Hpid|].
  split; [rewrite (Heo pid1 Hpid); exact He1|].
  split; [exact He2|].
  split; [rewrite (Hdo pid1 Hpid); exact Hd1|exact Hd2].
Qed.

End Again.

(** ** The command line *)

(** *** The error line *)

Lemma hex_digit_printable (n : N) : (n < 16)%N -> printable (hex_digit n) = true.
Proof.
  intros Hn. unfold printable, hex_digit.
  destruct (N.ltb_spec n 10); apply andb_true_iff; split; apply N.leb_le; lia.
Qed.

Lemma u_escape_printable (n : N) : Forall (fun c => printable c = true) (u_escape n).
Proof.
  unfold u_escape, hex4.
  repeat (apply Forall_cons_2;
          [first [reflexivity
                 |apply hex_digit_printable, N.mod_lt; discriminate]|]).
  apply Forall_nil_2.
Qed.

Lemma json_escape_char_printable (c : char) :
  Forall (fun x => printable x = true) (json_escape_char c).
Proof.
  unfold json_escape_char.
  repeat match goal with
         | |- context [if (c =? ?k)%N then _ else _] =>
             destruct (c =? k)%N;
             [repeat (apply Forall_cons_2; [reflexivity|]); apply Forall_nil_2|]
         end.
  destruct ((32 <=? c) && (c <=? 126))%N eqn:E.
  - apply Forall_cons_2; [exact E|apply Forall_nil_2].
  - destruct (c <? 65536)%N; [apply u_escape_printable|].
    apply Forall_app. split; apply u_escape_printable.
Qed.

Lemma json_string_printable (s : str) :
  Forall (fun x => printable x = true) (json_string s).
Proof.
  unfold json_string. apply Forall_app. split; [repeat constructor|].
  apply Forall_app. split; [|repeat constructor].
  induction s as [|c s IH]; [constructor|]. simpl.
  apply Forall_app. split; [apply json_escape_char_printable|exact IH].
Qed.

Lemma json_error_printable (message : str) :
  Forall (fun x => printable x = true) (json_error message).
Proof.
  unfold json_error.
  apply Forall_app. split; [repeat constructor|].
  apply Forall_app. split; [vm_compute; repeat constructor|].
  apply Forall_app. split; [repeat constructor|].
  apply Forall_app. split; [apply json_string_printable|repeat constructor].
Qed.

(** *** Failures of the persister *)

Section Failures.

Variable fault : nat -> bool.
Variable isoformat : nat -> str.

Local Abbreviation persist_result := (persist_result fault isoformat).
Local Abbreviation persist_import_results := (persist_import_results fault isoformat).

Lemma counting_bind {A B} (m : M connection A) (k : A -> M connection B) :
  counting m -> (forall a, counting (k a)) -> counting (mbind_ m k).
Proof.
  intros Hm Hk c outcome c' Hrun. unfold mbind_ in Hrun.
  destruct (m c) as [[a|e] c1] eqn:E.
  - specialize (Hm _ _ _ E). specialize (Hk a _ _ _ Hrun). lia.
  - inversion Hrun; subst. exact (Hm _ _ _ E).
Qed.

Lemma counting_ret {A} (a : A) : counting (ret a).
Proof. intros c outcome c' [= <- <-]. lia. Qed.

Lemma counting_raise {A} (e : exn) : counting (@raise connection A e).
Proof. intros c outcome c' [= <- <-]. lia. Qed.

Lemma counting_execute f : counting (execute fault f).
Proof.
  intros c outcome c' Hrun. unfold execute in Hrun.
  destruct (fault (statements c)); [inversion Hrun; subst; simpl; lia|].
  destruct (working c); inversion Hrun; subst; simpl; lia.
Qed.

Lemma counting_query {A} (q : tables -> A) : counting (query fault q).
Proof.
  intros c outcome c' Hrun. unfold query in Hrun.
  destruct (fault (statements c)); [inversion Hrun; subst; simpl; lia|].
  destruct (working c); inversion Hrun; subst; simpl; lia.
Qed.

Lemma counting_commit : counting (commit fault).
Proof.
  intros c outcome c' Hrun. unfold commit in Hrun.
  destruct (fault (statements c)); inversion Hrun; subst; simpl; lia.
Qed.

Lemma counting_utcnow : counting (utcnow isoformat).
Proof. intros c outcome c' [= <- <-]. simpl. lia. Qed.

Lemma persist_result_statements r : counting (persist_result r).
Proof.
  unfold persist_result, _get_process_id.
  repeat first
    [ apply counting_bind; [|intros ?]
    | apply counting_execute | apply counting_query | apply counting_commit
    | apply counting_utcnow | apply counting_ret | apply counting_raise
    | match goal with
      | |- counting (match ?x with _ => _ end) => destruct x
      end ].
Qed.

Local Abbreviation upserted := (upserted isoformat).
Local Abbreviation imported := (imported isoformat).

(** How a batch can end on a connection with nothing pending. *)
Lemma persist_batch_outcomes rs c t :
  quiescent c t ->
  (forall e c', persist_import_results rs c = (Raise e, c') ->
     e = sqlite_error /\ exists i, statements c <= i /\ fault i = true)
  /\ ((forall i, statements c <= i -> fault i = false) ->
      exists c', persist_import_results rs c = (Ok tt, c')).
Proof.
  revert c t. induction rs as [|r rs IH]; intros c t Hq.
  - split; [intros e c' H; discriminate H|]. intros _. exists c. auto.
  - simpl. unfold mbind_.
    destruct (persist_result r c) as [out1 c1] eqn:Hr.
    pose proof (persist_result_statements r c out1 c1 Hr) as Hst.
    destruct (persist_result_cases _ _ _ _ _ _ _ Hq Hr)
      as [(i & Hi & Hf & -> & _)|(-> & pid & _ & Hq1)].
    + split.
      * intros e c' [= <- <-]. split; [reflexivity|eauto].
      * intros Hnf. rewrite (Hnf i Hi) in Hf. discriminate.
    + destruct (IH _ _ Hq1) as [IHf IHs]. split.
      * intros e c' Hrun. destruct (IHf e c' Hrun) as (-> & i & Hi & Hf).
        split; [reflexivity|]. exists i. split; [lia|exact Hf].
      * intros Hnf. apply IHs. intros i Hi. apply Hnf. lia.
Qed.

(** The row found for a case number after its upsert carries the title
    and the path of the upsert. *)
Lemma find_after_upsert number ttl pdf_path now t row :
  find (has_number number)
       (processes (upsert_process number ttl pdf_path now t)) = Some row ->
  p_title row = ttl /\ p_pdf_path row = pdf_path.
Proof.
  intros Hf. apply find_some in Hf as [Hin Hn].
  apply list_elem_of_In in Hin.
  pose proof Hn as Hn'. unfold has_number in Hn'.
  apply bool_decide_eq_true in Hn'.
  pose proof (upsert_row_written _ _ _ _ _ _ Hin Hn') as Hw.
  unfold retitle in Hw. rewrite Hn in Hw.
  split; [rewrite <- Hw|rewrite <- Hw]; reflexivity.
Qed.

(** The upsert of one case number leaves the row found for another. *)
Lemma find_after_upsert_other number ttl pdf_path now other t :
  other <> number ->
  find (has_number other)
       (processes (upsert_process number ttl pdf_path now t))
  = find (has_number other) (processes t).
Proof.
  intros Hne.
  destruct (decide (number ∈ map p_number (processes t))) as [H|H].
  - rewrite (upsert_existing _ _ _ _ _ H). clear H.
    induction (processes t) as [|r rows IH]; [reflexivity|]. simpl.
    assert (Hn : has_number other (retitle number ttl pdf_path r)
                 = has_number other r).
    { unfold has_number. rewrite retitle_number. reflexivity. }
    rewrite Hn. destruct (has_number other r) eqn:E; [|exact IH].
    f_equal. unfold retitle, has_number.
    rewrite bool_decide_eq_false_2; [reflexivity|].
    unfold has_number in E. apply bool_decide_eq_true in E. congruence.
  - rewrite (upsert_fresh _ _ _ _ _ H), find_app.
    destruct (find (has_number other) (processes t)); [reflexivity|].
    simpl. unfold has_number. simpl.
    rewrite bool_decide_eq_false_2 by congruence. reflexivity.
Qed.

(** Once its import has run to its end, a result is in the tables in
    full. *)
Lemma persisted_after_import now r pid t :
  select_process_id (process_number r) (upserted now r t) = Some pid ->
  persisted r (imported now r pid t).
Proof.
  intros Hsel. unfold select_process_id in Hsel.
  destruct (find (has_number (process_number r))
                 (processes (upserted now r t))) as [row|] eqn:Hf;
    [|discriminate].
  injection Hsel as Hpid.
  destruct (find_after_upsert _ _ _ _ _ _ Hf) as [Ht Hp].
  destruct (imported_events isoformat now r pid t) as [He _].
  destruct (imported_documents isoformat now r pid t) as [(d & Hd & Hn & Hc) _].
  exists row, d. rewrite imported_processes, Hpid.
  split; [exact Hf|]. split; [exact Ht|]. split; [exact Hp|].
  split; [exact He|]. split; [exact Hd|]. split; [exact Hn|exact Hc].
Qed.

(** The import of a result with another case number leaves it there. *)
Lemma persisted_stays now r pid t r0 :
  unique_ids t ->
  process_number r0 <> process_number r ->
  select_process_id (process_number r) (upserted now r t) = Some pid ->
  persisted r0 t ->
  persisted r0 (imported now r pid t).
Proof.
  intros Hu Hne Hsel (row & d & Hf & Ht & Hp & He & Hd & Hn & Hc).
  assert (Hf' : find (has_number (process_number r0))
                     (processes (upserted now r t)) = Some row).
  { unfold upserted. rewrite find_after_upsert_other by exact Hne.
    exact Hf. }
  assert (Hpid : p_id row <> pid).
  { intros Heq. apply Hne.
    apply select_row in Hsel as (row2 & Hin2 & Hn2 & Hi2).
    apply find_some in Hf' as [Hin1 Hn1]. apply list_elem_of_In in Hin1.
    unfold has_number in Hn1. apply bool_decide_eq_true in Hn1.
    assert (row = row2); [|congruence].
    apply (NoDup_map_inj p_id (processes (upserted now r t)));
      [apply upsert_unique_ids, Hu|exact Hin1|exact Hin2|congruence]. }
  destruct (imported_events isoformat now r pid t) as [_ Heo].
  destruct (imported_documents isoformat now r pid t) as [_ Hdo].
  exists row, d. rewrite imported_processes.
  rewrite (Heo _ Hpid), (Hdo _ Hpid).
  split; [exact Hf'|]. split; [exact Ht|]. split; [exact Hp|].
  split; [exact He|]. split; [exact Hd|]. split; [exact Hn|exact Hc].
Qed.

(** A batch that ran to its end has every result in the tables in full
    that no later result of the same case number replaced. *)
Lemma persist_batch_persisted rs c t c' :
  quiescent c t -> unique_ids t ->
  persist_import_results rs c = (Ok tt, c') ->
  exists t',
    quiescent c' t' /\ unique_ids t'
    /\ (forall r0, persisted r0 t ->
          process_number r0 ∉ map process_number rs -> persisted r0 t')
    /\ (forall pre r post,
          rs = pre ++ r :: post ->
          process_number r ∉ map process_number post -> persisted r t').
Proof.
  revert c t. induction rs as [|r rs IH]; intros c t Hq Hu Hrun.
  - inversion Hrun; subst. exists t. split; [exact Hq|]. split; [exact Hu|].
    split; [auto|]. intros [|x pre] r post Heq; discriminate Heq.
  - simpl in Hrun. unfold mbind_ in Hrun.
    destruct (persist_result r c) as [[[]|e] c1] eqn:Hr; [|discriminate].
    destruct (persist_result_cases _ _ _ _ _ _ _ Hq Hr)
      as [(i & _ & _ & Hout & _)|(_ & pid & Hsel & Hq1)]; [discriminate|].
    assert (Hu1 : unique_ids (imported (clock c) r pid t)).
    { unfold unique_ids. rewrite imported_processes.
      apply upsert_unique_ids, Hu. }
    destruct (IH _ _ Hq1 Hu1 Hrun) as (t' & Hq' & Hu' & Hold & Hnew).
    exists t'. split; [exact Hq'|]. split; [exact Hu'|]. split.
    + intros r0 Hp0 Hnot. simpl in Hnot.
      apply not_elem_of_cons in Hnot as [Hne Hnot].
      apply Hold; [|exact Hnot].
      exact (persisted_stays _ _ _ _ _ Hu Hne Hsel Hp0).
    + intros [|x pre] r' post Heq Hnot.
      * injection Heq as <- <-.
        apply Hold; [|exact Hnot].
        exact (persisted_after_import _ _ _ _ Hsel).
      * injection Heq as _ Heq. exact (Hnew pre r' post Heq Hnot).
Qed.

(** X12.  On a connection with nothing pending, persisting a batch can
    only fail with an error of the database engine, at one of its
    statements; in particular the re-query of [_get_process_id] always
    finds the row.  When the engine reports no error from there on and
    process identifiers are unique, the batch is persisted and committed
    in full: for every result that no later result of the same case
    number follows, the process row of its case number carries its title
    and stored path, and that process has exactly its movements, in
    order, and exactly one document, with its file name and text. *)
Theorem persisting_fails_only_on_engine_errors rs c t :
  quiescent c t ->
  (forall e c', persist_import_results rs c = (Raise e, c') ->
     e = sqlite_error /\ exists i, statements c <= i /\ fault i = true)
  /\ (unique_ids t ->
      (forall i, statements c <= i -> fault i = false) ->
      exists c' t',
        persist_import_results rs c = (Ok tt, c')
        /\ quiescent c' t'
        /\ forall pre r post,
             rs = pre ++ r :: post ->
             process_number r ∉ map process_number post ->
             persisted r t').
Proof.
  intros Hq. destruct (persist_batch_outcomes rs c t Hq) as [Hfail Hok].
  split; [exact Hfail|]. intros Hu Hnf.
  destruct (Hok Hnf) as [c' Hrun].
  destruct (persist_batch_persisted rs c t c' Hq Hu Hrun)
    as (t' & Hq' & _ & _ & Hnew).
  exists c', t'. split; [exact Hrun|]. split; [exact Hq'|exact Hnew].
Qed.

End Failures.

(** *** How the script ends *)

Section Script.

Variable isdecimal : char -> bool.
Variable isalnum : char -> bool.
Variable pdftotext : option (path -> path -> fs -> Z * bytes * fs).
Variable bytes_repr : bytes -> str.
Variable decode_utf8_ignore : bytes -> str.
Variable resolve : fs -> path -> path.
Variable fault : nat -> bool.
Variable isoformat : nat -> str.

Local Abbreviation build_database :=
  (build_database isdecimal isalnum pdftotext bytes_repr decode_utf8_ignore
     resolve fault isoformat).
Local Abbreviation main :=
  (main isdecimal isalnum pdftotext bytes_repr decode_utf8_ignore
     resolve fault isoformat).
Local Abbreviation script :=
  (script isdecimal isalnum pdftotext bytes_repr decode_utf8_ignore
     resolve fault isoformat).

(** A run of [build_database] that raises an error of the
    [BuildDbError] family has not changed the database; one that returns
    leaves a database. *)
Lemma build_database_ends (source_dir database_path : path) (w w' : world)
    outcome :
  build_database source_dir database_path w = (outcome, w') ->
  match outcome with
  | Ok _ => is_Some (w_db w')
  | Raise e => is_build_db_error e = true -> w_db w' = w_db w
  end.
Proof.
  intros Hrun. unfold build_database in Hrun.
  destruct (load_pdf_results _ _ _ _ _ _ source_dir _ _ (w_fs w))
    as [[results|e] s'].
  2:{ inversion Hrun; subst. reflexivity. }
  destruct (can_open s' database_path).
  2:{ inversion Hrun; subst. discriminate. }
  unfold ensure_schema, commit, connect in Hrun. unfold mbind_ in Hrun.
  cbn in Hrun.
  destruct (fault 0).
  { inversion Hrun; subst. discriminate. }
  cbn in Hrun. destruct (fault 1).
  { inversion Hrun; subst. discriminate. }
  cbn in Hrun.
  set (t0 := default empty_tables (w_db w)) in *.
  destruct (persist_import_results fault isoformat results
              (Conn (Some t0) (Some t0) 2 0)) as [out c'] eqn:Hp.
  assert (Hq : quiescent (Conn (Some t0) (Some t0) 2 0) t0)
    by (split; reflexivity).
  inversion Hrun; subst. destruct outcome as [[]|e].
  - destruct (persist_import_results_quiescent _ _ _ _ _ _ Hq Hp) as [t1 [Hc _]].
    unfold close. simpl. rewrite Hc. eauto.
  - destruct (persist_batch_outcomes fault isoformat results _ t0 Hq)
      as [Hf _].
    destruct (Hf e c' Hp) as [-> _]. discriminate.
Qed.

(** X13.  The script, once the command line is parsed, ends in one of
    three ways.  It exits with status zero only if the source was a
    directory, and then the database exists.  It prints an error line
    and exits with status one only for an error of the [BuildDbError]
    family: the line is printable ASCII (so a single line), the database
    is as it was, and if the source was not a directory nothing at all
    has been touched and the line is the JSON object with the
    invalid-source message under the key "error".  Any other exception
    leaves the script uncaught, and only if the source was a
    directory. *)
Theorem script_ends (source_dir database_path : path) (w w' : world)
    (ending : script_end) :
  script source_dir database_path w = (ending, w') ->
  match ending with
  | ExitZero => is_dir (w_fs w) source_dir = true /\ is_Some (w_db w')
  | ExitOne printed =>
      Forall (fun c => printable c = true) printed
      /\ w_db w' = w_db w
      /\ (is_dir (w_fs w) source_dir = false ->
          w' = w /\ printed = json_error (msg_invalid_source source_dir))
  | Uncaught e =>
      is_dir (w_fs w) source_dir = true /\ is_build_db_error e = false
  end.
Proof.
  unfold script, main. intros Hrun.
  destruct (is_dir (w_fs w) source_dir) eqn:Hdir.
  - assert (Hex : path_exists (w_fs w) source_dir = true).
    { unfold path_exists. unfold is_dir in Hdir.
      destruct (w_fs w !! source_dir); [reflexivity|discriminate]. }
    rewrite Hex in Hrun. cbn [negb orb] in Hrun.
    destruct (build_database source_dir database_path w) as [[[]|e] w1] eqn:Hb.
    + inversion Hrun; subst. split; [reflexivity|].
      exact (build_database_ends _ _ _ _ _ Hb).
    + pose proof (build_database_ends _ _ _ _ _ Hb) as Hdb. simpl in Hdb.
      destruct (is_build_db_error e) eqn:He; inversion Hrun; subst.
      * split; [apply json_error_printable|]. split; [auto|discriminate].
      * split; [reflexivity|exact He].
  - rewrite orb_true_r in Hrun.
    cbn [is_build_db_error exn_kind exn_message] in Hrun.
    inversion Hrun; subst.
    split; [apply json_error_printable|]. split; [reflexivity|].
    intros _. split; reflexivity.
Qed.

End Script.

(** *** The case numbers after a batch *)

Section Numbers.

Variable fault : nat -> bool.
Variable isoformat : nat -> str.

Local Abbreviation persist_result := (persist_result fault isoformat).
Local Abbreviation persist_import_results := (persist_import_results fault isoformat).
Local Abbreviation upserted := (upserted isoformat).
Local Abbreviation imported := (imported isoformat).

Lemma upsert_numbers_iff number ttl pdf_path now t (n : str) :
  n ∈ map p_number (processes (upsert_process number ttl pdf_path now t))
  <-> n ∈ map p_number (processes t) \/ n = number.
Proof.
  rewrite upsert_numbers.
  destruct (bool_decide_reflect (number ∈ map p_number (processes t))) as [H|H].
  - split; [auto|]. intros [Hn| ->]; assumption.
  - rewrite elem_of_app, list_elem_of_singleton. reflexivity.
Qed.

(** X14.  After a batch has been persisted, the case numbers of the
    process table are those it had before together with those of the
    results of the batch. *)
Theorem batch_case_numbers rs c t c' :
  quiescent c t ->
  persist_import_results rs c = (Ok tt, c') ->
  exists t',
    quiescent c' t'
    /\ forall n : str,
         n ∈ map p_number (processes t')
         <-> n ∈ map p_number (processes t) \/ n ∈ map process_number rs.
Proof.
  revert c t. induction rs as [|r rs IH]; intros c t Hq Hrun.
  - inversion Hrun; subst. exists t. split; [exact Hq|].
    intros n. split; [auto|]. intros [H|H]; [exact H|].
    apply elem_of_nil in H. contradiction.
  - simpl in Hrun. unfold mbind_ in Hrun.
    destruct (persist_result r c) as [[[]|e] c1] eqn:Hr; [|discriminate].
    destruct (persist_result_cases _ _ _ _ _ _ _ Hq Hr)
      as [(i & _ & _ & Hout & _)|(_ & pid & _ & Hq1)]; [discriminate|].
    destruct (IH _ _ Hq1 Hrun) as (t' & Hq' & Hn).
    exists t'. split; [exact Hq'|]. intros n. rewrite Hn.
    rewrite imported_processes. unfold upserted.
    rewrite upsert_numbers_iff. simpl. rewrite elem_of_cons. tauto.
Qed.

End Numbers.

(** *** What the pipeline hands to the persister *)

Section Results.

Variable isdecimal : char -> bool.
Variable isalnum : char -> bool.
Variable pdftotext : option (path -> path -> fs -> Z * bytes * fs).
Variable bytes_repr : bytes -> str.
Variable decode_utf8_ignore : bytes -> str.
Variable resolve : fs -> path -> path.

Local Abbreviation process_pdf :=
  (process_pdf isdecimal isalnum pdftotext bytes_repr decode_utf8_ignore resolve).

(** What [_parse_case_number] returns has the canonical shape. *)
Lemma parse_case_number_canonical (text m : str) :
  _parse_case_number isdecimal isalnum text = Ok m ->
  has_shape isdecimal case_number_shape m = true.
Proof.
  unfold _parse_case_number, search.
  destruct (search_from isdecimal isalnum PROCESS_NUMBER_RE 0 None text)
    as [mo|] eqn:Hs; [|discriminate].
  intros [= <-].
  apply (search_from_some isdecimal isalnum _ (Cursor 0 None text)) in Hs.
  destruct Hs as (k & Hk & Hm & _). simpl in Hk.
  fold (cursor_at text k) in Hm.
  rewrite (match_at_process_number isdecimal isalnum text k Hk) in Hm.
  destruct (at_boundary isalnum (cursor_at text k)); [|discriminate].
  destruct (has_shape isdecimal case_number_shape (substr text k (k + 25)))
    eqn:Hsh; [|discriminate].
  destruct (at_boundary isalnum (cursor_at text (k + 25))); [|discriminate].
  injection Hm as <-. exact Hsh.
Qed.

(** X15.  A result of processing a document carries, as its document
    record, its case number, the file name of the source and the
    extracted text; its case number has the canonical shape, its title
    is not empty, and each of its movements is well formed with respect
    to the extracted text. *)
Theorem import_result_well_formed (p st tmp : path) (s s' : fs)
    (r : PdfImportResult) :
  process_pdf p st tmp s = (Ok r, s') ->
  to_document_record r = (process_number r, path_name p, document_text r)
  /\ has_shape isdecimal case_number_shape (process_number r) = true
  /\ title r <> []
  /\ Forall (well_formed_event isdecimal (document_text r)) (events r).
Proof.
  intros Hrun.
  destruct (process_pdf_stored_path _ _ _ _ _ _ _ _ _ _ _ _ Hrun)
    as (Hst & Hn & He & Ht).
  split.
  { unfold to_document_record. rewrite Hst, path_name_join. reflexivity. }
  split; [exact (parse_case_number_canonical _ _ Hn)|].
  split; [rewrite Ht; apply derive_title_solid|].
  rewrite He. apply parse_events_all_well_formed.
Qed.

End Results.

(** ** Further runs on sample data *)

Lemma case_number_parses_to_itself_witness :
  _parse_case_number ascii_isdecimal ascii_isalnum
    (str_of "1234567-89.2024.1.23.4567")
  = Ok (str_of "1234567-89.2024.1.23.4567").
Proof.
  assert (E : _parse_case_number ascii_isdecimal ascii_isalnum sample_text
              = Ok (str_of "1234567-89.2024.1.23.4567"))
    by (vm_compute; reflexivity).
  destruct (case_number_parses_to_itself ascii_isdecimal ascii_isalnum
              ascii_decimal_alnum sample_text _ E) as (_ & _ & H).
  exact H.
Defined.

Lemma resolve_plain_apart (p q : path) : resolve_apart resolve_plain p q.
Proof. intros s H. exact H. Qed.

Lemma a_pdf_name : pdf_name (path_name a_pdf).
Proof. exists (str_of "a"). vm_compute. reflexivity. Qed.

Lemma process_pdf_changes_only_copy_and_scratch_witness :
  snd (process_pdf ascii_isdecimal ascii_isalnum (Some copying_converter)
         repr_ascii decode_ascii resolve_plain a_pdf
         (storage_dir_of db_path) (temp_dir_of db_path) sample_fs) !! b_pdf
  = Some (RegularFile (str_of "Sem numero")).
Proof.
  destruct (process_pdf ascii_isdecimal ascii_isalnum (Some copying_converter)
              repr_ascii decode_ascii resolve_plain a_pdf
              (storage_dir_of db_path) (temp_dir_of db_path) sample_fs)
    as [outcome s'] eqn:Hrun.
  destruct (process_pdf_changes_only_copy_and_scratch ascii_isdecimal
              ascii_isalnum (Some copying_converter) repr_ascii decode_ascii
              resolve_plain copying_converter_frame a_pdf
              (storage_dir_of db_path) (temp_dir_of db_path) sample_fs s'
              outcome Hrun) as [Hframe _].
  apply Hframe; [vm_compute; reflexivity| | |]; intros H; vm_compute in H;
    discriminate H.
Defined.

Lemma process_pdf_stores_a_copy_witness :
  exists r s',
    process_pdf ascii_isdecimal ascii_isalnum (Some copying_converter)
      repr_ascii decode_ascii resolve_plain a_pdf
      (storage_dir_of db_path) (temp_dir_of db_path) sample_fs = (Ok r, s')
    /\ s' !! stored_path r = Some (RegularFile sample_text)
    /\ s' !! scratch_txt = None.
Proof.
  destruct (process_pdf ascii_isdecimal ascii_isalnum (Some copying_converter)
              repr_ascii decode_ascii resolve_plain a_pdf
              (storage_dir_of db_path) (temp_dir_of db_path) sample_fs)
    as [outcome s'] eqn:Hrun.
  assert (Hok : exists r, outcome = Ok r).
  { change outcome with (fst (outcome, s')). rewrite <- Hrun.
    vm_compute. eauto. }
  destruct Hok as [r ->]. exists r, s'. split; [reflexivity|].
  destruct (process_pdf_stores_a_copy ascii_isdecimal ascii_isalnum
              (Some copying_converter) repr_ascii decode_ascii resolve_plain
              copying_converter_frame a_pdf (storage_dir_of db_path)
              (temp_dir_of db_path) sample_fs s' sample_text r
              (resolve_plain_apart _ _) a_pdf_name)
    as (_ & Hcopy & _ & Hscratch);
    [vm_compute; reflexivity|vm_compute; reflexivity|exact Hrun|].
  split; [exact Hcopy|exact Hscratch].
Defined.

Lemma stored_paths_distinct_witness :
  exists rs s',
    load_pdf_results ascii_isdecimal ascii_isalnum (Some copying_converter)
      repr_ascii decode_ascii resolve_plain in_dir (storage_dir_of db_path)
      (temp_dir_of db_path) clean_fs = (Ok rs, s')
    /\ NoDup (map stored_path rs).
Proof.
  destruct (load_pdf_results ascii_isdecimal ascii_isalnum
              (Some copying_converter) repr_ascii decode_ascii resolve_plain
              in_dir (storage_dir_of db_path) (temp_dir_of db_path) clean_fs)
    as [outcome s'] eqn:Hrun.
  assert (Hok : exists rs, outcome = Ok rs).
  { change outcome with (fst (outcome, s')). rewrite <- Hrun.
    vm_compute. eauto. }
  destruct Hok as [rs ->]. exists rs, s'. split; [reflexivity|].
  destruct (stored_paths_distinct ascii_isdecimal ascii_isalnum
              (Some copying_converter) repr_ascii decode_ascii resolve_plain
              copying_converter_frame in_dir (storage_dir_of db_path)
              (temp_dir_of db_path) clean_fs s' rs Hrun) as [Hnd _].
  exact Hnd.
Defined.

Lemma run_keeps_source_documents_witness :
  snd (load_pdf_results ascii_isdecimal ascii_isalnum (Some copying_converter)
         repr_ascii decode_ascii resolve_plain in_dir (storage_dir_of db_path)
         (temp_dir_of db_path) sample_fs) !! c_pdf
  = Some (RegularFile sample_text).
Proof.
  destruct (load_pdf_results ascii_isdecimal ascii_isalnum
              (Some copying_converter) repr_ascii decode_ascii resolve_plain
              in_dir (storage_dir_of db_path) (temp_dir_of db_path) sample_fs)
    as [outcome s'] eqn:Hrun.
  cbn [snd].
  rewrite (run_keeps_source_documents ascii_isdecimal ascii_isalnum
             (Some copying_converter) repr_ascii decode_ascii resolve_plain
             copying_converter_frame in_dir (storage_dir_of db_path)
             (temp_dir_of db_path) sample_fs s' outcome Hrun c_pdf).
  - vm_compute. reflexivity.
  - apply elem_of_iter_pdf_files. split; [vm_compute; reflexivity|].
    split; [discriminate|]. split; [vm_compute; reflexivity|].
    exists (str_of "c"). vm_compute. reflexivity.
Defined.

Lemma no_documents_no_changes_witness :
  load_pdf_results ascii_isdecimal ascii_isalnum (Some copying_converter)
    repr_ascii decode_ascii resolve_plain in_dir (storage_dir_of db_path)
    (temp_dir_of db_path) bare_fs
  = (Ok [], bare_fs).
Proof.
  apply no_documents_no_changes. vm_compute. reflexivity.
Defined.

Lemma stocked_tables_unique_ids : unique_ids stocked_tables.
Proof. apply NoDup_singleton. Qed.

Lemma stocked_tables_no_orphans : no_orphans stocked_tables.
Proof.
  split; intros x Hx; apply list_elem_of_singleton in Hx as ->;
    apply list_elem_of_singleton; reflexivity.
Qed.

Lemma build_database_keeps_integrity_witness :
  exists t',
    w_db (snd (build_database ascii_isdecimal ascii_isalnum
                 (Some copying_converter) repr_ascii decode_ascii resolve_plain
                 no_fault sample_isoformat in_dir db_path stocked_world))
    = Some t'
    /\ unique_ids t' /\ no_orphans t'
    /\ appointments t' = appointments stocked_tables.
Proof.
  destruct (build_database ascii_isdecimal ascii_isalnum
              (Some copying_converter) repr_ascii decode_ascii resolve_plain
              no_fault sample_isoformat in_dir db_path stocked_world)
    as [outcome w'] eqn:Hrun.
  assert (Hdb : exists t', w_db w' = Some t').
  { change w' with (snd (outcome, w')). rewrite <- Hrun. vm_compute. eauto. }
  destruct Hdb as [t' Ht']. exists t'. split; [exact Ht'|].
  apply (build_database_keeps_integrity ascii_isdecimal ascii_isalnum
           (Some copying_converter) repr_ascii decode_ascii resolve_plain
           no_fault sample_isoformat in_dir db_path stocked_world w' outcome).
  - intros t [= <-]. split;
      [exact stocked_tables_unique_ids|exact stocked_tables_no_orphans].
  - exact Hrun.
  - exact Ht'.
Defined.

Lemma empty_tables_unique_ids : unique_ids empty_tables.
Proof. apply NoDup_nil_2. Qed.

Lemma distinct_numbers_independent_witness :
  exists t' pid1 pid2,
    committed (snd (persist_import_results no_fault sample_isoformat
                      [sample_result; other_result] fresh_connection))
    = Some t'
    /\ pid1 <> pid2
    /\ map (fun e => (e_event_date e, e_description e)) (events_of pid1 t')
       = events sample_result
    /\ events_of pid2 t' = [].
Proof.
  destruct (persist_import_results no_fault sample_isoformat
              [sample_result; other_result] fresh_connection)
    as [outcome c'] eqn:Hrun.
  assert (Hout : outcome = Ok tt).
  { change outcome with (fst (outcome, c')). rewrite <- Hrun.
    vm_compute. reflexivity. }
  subst outcome.
  destruct (distinct_numbers_independent no_fault sample_isoformat
              sample_result other_result fresh_connection empty_tables c'
              fresh_connection_quiescent empty_tables_unique_ids)
    as (t' & pid1 & pid2 & [Hc _] & _ & _ & Hne & He1 & He2 & _);
    [intros H; vm_compute in H; discriminate H|exact Hrun|].
  exists t', pid1, pid2. split; [exact Hc|]. split; [exact Hne|].
  split; [exact He1|].
  destruct (events_of pid2 t'); [reflexivity|discriminate He2].
Defined.

Lemma reimport_changes_no_content_witness :
  exists t1 t2,
    committed (snd (persist_result no_fault sample_isoformat sample_result
                      fresh_connection)) = Some t1
    /\ committed
         (snd (persist_result no_fault sample_isoformat sample_result
                 (snd (persist_result no_fault sample_isoformat sample_result
                         fresh_connection)))) = Some t2
    /\ processes t2 = processes t1
    /\ map event_content (t_events t2) = map event_content (t_events t1).
Proof.
  destruct (persist_result no_fault sample_isoformat sample_result
              fresh_connection) as [o1 c1] eqn:H1.
  assert (Ho1 : o1 = Ok tt).
  { change o1 with (fst (o1, c1)). rewrite <- H1. vm_compute. reflexivity. }
  subst o1. cbn [snd].
  destruct (persist_result no_fault sample_isoformat sample_result c1)
    as [o2 c2] eqn:H2.
  assert (Ho2 : o2 = Ok tt).
  { change o2 with (fst (o2, c2)). rewrite <- H2.
    replace c1 with (snd (persist_result no_fault sample_isoformat
                            sample_result fresh_connection))
      by (rewrite H1; reflexivity).
    vm_compute. reflexivity. }
  subst o2. cbn [snd].
  destruct (reimport_changes_no_content no_fault sample_isoformat
              sample_result fresh_connection empty_tables c1 c2
              fresh_connection_quiescent H1 H2)
    as (t1 & t2 & [Hc1 _] & [Hc2 _] & Hp & He & _).
  exists t1, t2.
  split; [exact Hc1|]. split; [exact Hc2|]. split; [exact Hp|exact He].
Defined.

Lemma persisting_fails_only_on_engine_errors_witness :
  exists c' t',
    persist_import_results no_fault sample_isoformat
      [sample_result; other_result; sample_result] fresh_connection
    = (Ok tt, c')
    /\ quiescent c' t'
    /\ persisted other_result t'
    /\ persisted sample_result t'.
Proof.
  destruct (persisting_fails_only_on_engine_errors no_fault sample_isoformat
              [sample_result; other_result; sample_result]
              fresh_connection empty_tables fresh_connection_quiescent)
    as [_ Hok].
  destruct Hok as (c' & t' & Hrun & Hq & Hall);
    [exact empty_tables_unique_ids|intros i _; reflexivity|].
  exists c', t'. split; [exact Hrun|]. split; [exact Hq|]. split.
  - apply (Hall [sample_result] other_result [sample_result] eq_refl).
    intros H. apply list_elem_of_singleton in H. vm_compute in H.
    discriminate H.
  - apply (Hall [sample_result; other_result] sample_result [] eq_refl).
    intros H. apply elem_of_nil in H. exact H.
Defined.

Lemma script_ends_witness :
  script ascii_isdecimal ascii_isalnum (Some copying_converter) repr_ascii
    decode_ascii resolve_plain no_fault sample_isoformat missing_dir db_path
    sample_world
  = (ExitOne (json_error (msg_invalid_source missing_dir)), sample_world).
Proof.
  destruct (script ascii_isdecimal ascii_isalnum (Some copying_converter)
              repr_ascii decode_ascii resolve_plain no_fault sample_isoformat
              missing_dir db_path sample_world) as [ending w'] eqn:Hrun.
  pose proof (script_ends ascii_isdecimal ascii_isalnum
                (Some copying_converter) repr_ascii decode_ascii resolve_plain
                no_fault sample_isoformat missing_dir db_path sample_world w'
                ending Hrun) as H.
  assert (Hdir : is_dir (w_fs sample_world) missing_dir = false)
    by (vm_compute; reflexivity).
  destruct ending as [|printed|e].
  - destruct H as [H _]. rewrite Hdir in H. discriminate H.
  - destruct H as (_ & _ & H). destruct (H Hdir) as [-> ->]. reflexivity.
  - destruct H as [H _]. rewrite Hdir in H. discriminate H.
Defined.

Lemma batch_case_numbers_witness :
  exists t',
    committed (snd (persist_import_results no_fault sample_isoformat
                      [sample_result; other_result; sample_result]
                      fresh_connection)) = Some t'
    /\ process_number other_result ∈ map p_number (processes t').
Proof.
  destruct (persist_import_results no_fault sample_isoformat
              [sample_result; other_result; sample_result] fresh_connection)
    as [outcome c'] eqn:Hrun.
  assert (Hout : outcome = Ok tt).
  { change outcome with (fst (outcome, c')). rewrite <- Hrun.
    vm_compute. reflexivity. }
  subst outcome.
  destruct (batch_case_numbers no_fault sample_isoformat
              [sample_result; other_result; sample_result]
              fresh_connection empty_tables c'
              fresh_connection_quiescent Hrun) as (t' & [Hc _] & Hn).
  exists t'. split; [exact Hc|]. apply Hn. right.
  simpl. right. left.
Defined.

Lemma import_result_well_formed_witness :
  exists r s',
    process_pdf ascii_isdecimal ascii_isalnum (Some copying_converter)
      repr_ascii decode_ascii resolve_plain a_pdf
      (storage_dir_of db_path) (temp_dir_of db_path) sample_fs = (Ok r, s')
    /\ to_document_record r
       = (process_number r, str_of "a.pdf", document_text r)
    /\ title r <> [].
Proof.
  destruct (process_pdf ascii_isdecimal ascii_isalnum (Some copying_converter)
              repr_ascii decode_ascii resolve_plain a_pdf
              (storage_dir_of db_path) (temp_dir_of db_path) sample_fs)
    as [outcome s'] eqn:Hrun.
  assert (Hok : exists r, outcome = Ok r).
  { change outcome with (fst (outcome, s')). rewrite <- Hrun.
    vm_compute. eauto. }
  destruct Hok as [r ->]. exists r, s'. split; [reflexivity|].
  destruct (import_result_well_formed ascii_isdecimal ascii_isalnum
              (Some copying_converter) repr_ascii decode_ascii resolve_plain
              a_pdf (storage_dir_of db_path) (temp_dir_of db_path)
              sample_fs s' r Hrun) as (Hrec & _ & Ht & _).
  split; [exact Hrec|exact Ht].
Defined.
